(** * Backup service of the MoMo-Hub backend: model and properties

    The development embeds [BackupService] (constructor, [createBackup],
    [listBackups], [restoreBackup], [zipDatabase]) and
    [DatabaseStorage.updateStorageUsage].  The file system, the object
    store behind the Supabase client and the [users] table are explicit
    state; every awaited call is a step of a small state-and-exception
    monad in which a thrown error leaves the state reached so far in
    place, as in JavaScript.  A third outcome, besides a value and a
    thrown error, is the end of the process by an ['error'] event that
    no listener takes, which no [catch] sees.

    What lies outside the repository is modelled from its documented
    behaviour: [path.join] of Node, [fs-extra], the streams of
    [archiver] and [fs], [Array.prototype.sort], and the storage client,
    whose calls resolve to [{ data, error }], report failures through
    [error] and hand on as [data] whatever body a successful answer
    carries.  [console] output is left out.  Each call can moreover fail
    for a reason the state does not show; the environment of a run says
    which ones do.

    A second part embeds the other methods of [DatabaseStorage] over the
    tables [users], [customers] and [transactions], and the routes that
    call them and the backup service, with [requireAuth].  The table
    definitions and the input schemas are not among the sources: a
    column holds what the statements of [DatabaseStorage] write to it -
    for the two [decimal(12, 2)] columns, the text the database makes of
    it - and the verdict of a schema is read from the run.  [getCustomers] and
    [getTransactions], whose result depends on how the database matches
    [ilike] patterns and orders equal keys, are left out, and so are the
    floating-point figures of the storage route. *)

From Stdlib Require Import String Ascii List ZArith Lia Bool Permutation Sorted
  DecimalString.
Import ListNotations.
Local Open Scope string_scope.
Local Open Scope Z_scope.

(** ** Strings *)

Module Str.

(** [s.startsWith(p)] *)
Definition startsWith (s p : string) : bool := String.prefix p s.

(** [s.includes(p)] *)
Fixpoint includes (s p : string) : bool :=
  String.prefix p s ||
  match s with
  | EmptyString => false
  | String _ s' => includes s' p
  end.

(** [s.replace(/[:.]/g, '-')] *)
Fixpoint replace_colon_dot (s : string) : string :=
  match s with
  | EmptyString => EmptyString
  | String c s' =>
      String (if (Ascii.eqb c ":" || Ascii.eqb c ".")%bool then "-"%char else c)
             (replace_colon_dot s')
  end.

(** [s.slice(0, n)] *)
Definition slice0 (n : nat) (s : string) : string := String.substring 0 n s.

(** JavaScript truthiness of a [string | undefined] value. *)
Definition truthy (o : option string) : bool :=
  match o with
  | Some s => negb (String.eqb s "")
  | None => false
  end.

(** [s.split('/')], accumulating the current piece in [acc]. *)
Fixpoint split_slash_acc (acc : string) (s : string) : list string :=
  match s with
  | EmptyString => [acc]
  | String c s' =>
      if Ascii.eqb c "/" then acc :: split_slash_acc "" s'
      else split_slash_acc (acc ++ String c "") s'
  end.

Definition split_slash (s : string) : list string := split_slash_acc "" s.

Fixpoint has_slash (s : string) : bool :=
  match s with
  | EmptyString => false
  | String c s' => Ascii.eqb c "/" || has_slash s'
  end.

End Str.

(** ** Paths

    Every path the service builds starts from [process.cwd()], which is
    absolute, so a path is kept as the list of its segments below the
    root.  A trailing separator, which [path.normalize] keeps, is not
    represented. *)

Definition path := list string.

Module Path.

Fixpoint eqb (p q : path) : bool :=
  match p, q with
  | [], [] => true
  | a :: p', b :: q' => String.eqb a b && eqb p' q'
  | _, _ => false
  end.

(** [is_prefix p q]: [q] is [p] or lies below [p]. *)
Fixpoint is_prefix (p q : path) : bool :=
  match p, q with
  | [], _ => true
  | a :: p', b :: q' => String.eqb a b && is_prefix p' q'
  | _ :: _, [] => false
  end.

(** Node's [normalizeString] for an absolute path: empty and ["."]
    segments are skipped, [".."] drops the last segment kept so far and
    does nothing at the root.  [stack] holds the segments kept so far,
    last one first. *)
Fixpoint normalize_from (stack : list string) (segs : list string) : list string :=
  match segs with
  | [] => rev stack
  | s :: rest =>
      if String.eqb s "" || String.eqb s "." then normalize_from stack rest
      else if String.eqb s ".." then normalize_from (tl stack) rest
      else normalize_from (s :: stack) rest
  end.

Definition normalize (p : path) : path := normalize_from [] p.

(** [path.join(base, ...args)] for an absolute [base]: the arguments are
    joined with ["/"] and the result is normalized. *)
Definition join (base : path) (args : list string) : path :=
  normalize (base ++ flat_map Str.split_slash args)%list.

(** A segment that names a directory entry. *)
Definition plain_segment (s : string) : bool :=
  negb (String.eqb s "") && negb (String.eqb s ".") && negb (String.eqb s "..")
  && negb (Str.has_slash s).

Definition no_dotdot (s : string) : bool :=
  forallb (fun x => negb (String.eqb x "..")) (Str.split_slash s).

Definition parent (p : path) : path := removelast p.

(** A segment [normalize] keeps as it is. *)
Definition kept (s : string) : bool :=
  negb (String.eqb s "" || String.eqb s ".") && negb (String.eqb s "..").

(** A path as [normalize] returns it. *)
Definition is_normal (p : path) : bool := forallb kept p.

End Path.

(** ** Errors, results and records of the service *)

(** A JavaScript error object: its [message] and, for the errors the
    storage client returns, an HTTP [status]. *)
Record Error := { message : string; status : option Z }.

Definition mkError (m : string) : Error := {| message := m; status := None |}.

Inductive DeployMode := cloud | local.

Definition mode_name (m : DeployMode) : string :=
  match m with cloud => "cloud" | local => "local" end.

(** The object [createClient] returns. *)
Record Client := { supabaseUrl : string; supabaseKey : string }.

(** The fields of a [BackupService] instance; [client] is [None] while
    the field is undefined. *)
Record BackupService := {
  client : option Client;
  deployMode : DeployMode;
  localBackupDir : path
}.

(** The result of [createBackup]; [msg] is its field [message], a name
    [Error] already has. *)
Record BackupResult := { success : bool; size : Z; msg : string }.

(** An element of the array [listBackups] returns.  [created_at] is an
    ISO-8601 string in the source; it is kept as the instant it denotes,
    in milliseconds, which is what [new Date(s).getTime()] reads back. *)
Record BackupRecord := { id : string; name : string; rsize : Z; created_at : Z }.
(* [rsize] is the field [size]. *)

(** A row of the [users] table, with the columns the storage layer
    reads or writes. *)
Record User := {
  user_id : string;
  businessName : string;
  pinHash : string;
  email : option string;
  createdAt : Z;
  storageUsed : Z;
  storageLimit : Z;
  lastBusinessNameChange : option Z
}.

(** ** The file system *)

Inductive Node :=
| File (content : list Byte.byte) (birth : Z)
| Dir (dsize : Z) (birth : Z).

Record Stats := { st_size : Z; st_birthtime : Z }.

Definition FileSystem := list (path * Node).

Module FS.

Fixpoint lookup (fs : FileSystem) (p : path) : option Node :=
  match fs with
  | [] => None
  | (q, n) :: fs' => if Path.eqb q p then Some n else lookup fs' p
  end.

Definition exists_ (fs : FileSystem) (p : path) : bool :=
  match lookup fs p with Some _ => true | None => false end.

Definition stats_of (n : Node) : Stats :=
  match n with
  | File c b => {| st_size := Z.of_nat (length c); st_birthtime := b |}
  | Dir s b => {| st_size := s; st_birthtime := b |}
  end.

(** The name of [p] when [p] is an entry directly inside [d]. *)
Fixpoint child_name (d p : path) : option string :=
  match d, p with
  | [], [n] => Some n
  | a :: d', b :: p' => if String.eqb a b then child_name d' p' else None
  | _, _ => None
  end.

(** The entries directly inside [d], in the order the file system holds them. *)
Fixpoint children (fs : FileSystem) (d : path) : list string :=
  match fs with
  | [] => []
  | (q, _) :: fs' =>
      match child_name d q with
      | Some n => n :: children fs' d
      | None => children fs' d
      end
  end.

Definition put (fs : FileSystem) (p : path) (n : Node) : FileSystem :=
  (filter (fun e => negb (Path.eqb (fst e) p)) fs ++ [(p, n)])%list.

(** [fs.remove]: the entry and everything below it. *)
Definition remove (fs : FileSystem) (p : path) : FileSystem :=
  filter (fun e => negb (Path.is_prefix p (fst e))) fs.

(** [mkdir -p]: [None] when a file is in the way. *)
Fixpoint mkdirs (now : Z) (fs : FileSystem) (base : path) (segs : list string)
  : option FileSystem :=
  match segs with
  | [] => Some fs
  | s :: rest =>
      let d := (base ++ [s])%list in
      match lookup fs d with
      | Some (File _ _) => None
      | Some (Dir _ _) => mkdirs now fs d rest
      | None => mkdirs now (fs ++ [(d, Dir 0 now)])%list d rest
      end
  end.

(** [rename]: the entry at [src], and everything below it, moves to [dst]. *)
Definition rename (fs : FileSystem) (src dst : path) : FileSystem :=
  map (fun e =>
         if Path.is_prefix src (fst e)
         then ((dst ++ skipn (length src) (fst e))%list, snd e)
         else e) fs.

(** Every entry is named by segments a directory can hold. *)
Definition wf (fs : FileSystem) : bool :=
  forallb (fun e => forallb Path.plain_segment (fst e)) fs.

End FS.

(** ** The object store behind the storage client *)

Record BucketOptions := {
  public : bool;
  fileSizeLimit : Z;
  allowedMimeTypes : list string
}.

Record StoredObject := {
  body : list Byte.byte;
  meta_size : option Z;
  obj_created_at : Z
}.

(** An item of the array [list] returns: [item.name],
    [item.metadata?.size] and [item.created_at]. *)
Record FileObject := {
  item_name : string;
  item_metadata_size : option Z;
  item_created_at : Z
}.

Inductive SortColumn := col_name | col_created_at.
Inductive SortOrder := asc | desc.

Record ListOptions := {
  limit : nat;
  offset : nat;
  sortBy : SortColumn * SortOrder
}.

Record UploadOptions := { contentType : string; upsert : bool }.

Record Cloud := {
  buckets : list (string * BucketOptions);
  objects : list (string * string * StoredObject)
}.

(** ** [Array.prototype.sort]

    ECMAScript requires the sort to be stable, so for a comparator that
    orders its arguments consistently the result is the one of any stable
    sort; insertion from the right is used here.  [cmp a b] is the number
    the comparator returns. *)

Section ArraySort.
Context {A : Type} (cmp : A -> A -> Z).

Fixpoint sort_insert (x : A) (l : list A) : list A :=
  match l with
  | [] => [x]
  | y :: l' => if cmp x y <=? 0 then x :: l else y :: sort_insert x l'
  end.

Definition array_sort (l : list A) : list A := fold_right sort_insert [] l.
End ArraySort.

Module Store.

Definition bucket_lookup (c : Cloud) (b : string) : option BucketOptions :=
  option_map snd (find (fun e => String.eqb (fst e) b) (buckets c)).

Definition key_is (b k : string) (e : string * string * StoredObject) : bool :=
  String.eqb (fst (fst e)) b && String.eqb (snd (fst e)) k.

Definition object_lookup (c : Cloud) (b k : string) : option StoredObject :=
  option_map snd (find (key_is b k) (objects c)).

(** [strip_prefix p s = Some r] when [s = p ++ r]. *)
Fixpoint strip_prefix (p s : string) : option string :=
  match p, s with
  | EmptyString, _ => Some s
  | String a p', String b s' => if Ascii.eqb a b then strip_prefix p' s' else None
  | String _ _, EmptyString => None
  end.

(** The name under which the object at [key] is listed in folder
    [folder]: the key is [folder/name] and [name] has no separator.
    Keys nested more deeply show up as sub-folders of the provider and
    are left out: the service only uploads keys [userId/fileName]. *)
Definition listed_name (folder key : string) : option string :=
  match strip_prefix (if String.eqb folder "" then "" else folder ++ "/") key with
  | Some r => if String.eqb r "" || Str.has_slash r then None else Some r
  | None => None
  end.

Fixpoint items_in (b folder : string) (objs : list (string * string * StoredObject))
  : list FileObject :=
  match objs with
  | [] => []
  | (b', k, o) :: rest =>
      match (if String.eqb b' b then listed_name folder k else None) with
      | Some n =>
          {| item_name := n; item_metadata_size := meta_size o;
             item_created_at := obj_created_at o |} :: items_in b folder rest
      | None => items_in b folder rest
      end
  end.

Definition comparison_to_Z (c : comparison) : Z :=
  match c with Lt => -1 | Eq => 0 | Gt => 1 end.

(** The comparator the provider applies for a [sortBy] option. *)
Definition item_cmp (by_ : SortColumn * SortOrder) (a b : FileObject) : Z :=
  let c := match fst by_ with
           | col_created_at => item_created_at a - item_created_at b
           | col_name => comparison_to_Z (String.compare (item_name a) (item_name b))
           end in
  match snd by_ with asc => c | desc => - c end.

(** [from(b).list(folder, opts)] on an existing bucket. *)
Definition list_items (c : Cloud) (b folder : string) (opts : ListOptions)
  : list FileObject :=
  firstn (limit opts)
    (skipn (offset opts)
       (array_sort (item_cmp (sortBy opts)) (items_in b folder (objects c)))).

Definition put_object (c : Cloud) (b k : string) (o : StoredObject) : Cloud :=
  {| buckets := buckets c;
     objects := (filter (fun e => negb (key_is b k e)) (objects c) ++ [(b, k, o)])%list |}.

Definition add_bucket (c : Cloud) (b : string) (opts : BucketOptions) : Cloud :=
  {| buckets := (buckets c ++ [(b, opts)])%list; objects := objects c |}.

Definition not_found (what : string) : Error :=
  {| message := what ++ " not found"; status := Some 404 |}.

End Store.

(** ** State, calls and faults *)

(** One constructor per call that leaves the process: the [fs-extra]
    calls, [zipDatabase]'s streams, the storage client and the database
    update.  The trace of a run lists them in the order they were made,
    whether they succeeded or not. *)
Inductive Event :=
| EnsureDir (p : path)
| PathExists (p : path)
| Stat (p : path)
| Readdir (p : path)
| ReadFile (p : path)
| WriteFile (p : path) (buf : list Byte.byte)
| Move (src dst : path)
| Remove (p : path)
| Zip (source out : path)
| GetBucket (b : string)
| CreateBucket (b : string) (opts : BucketOptions)
| Upload (b key : string) (buf : list Byte.byte) (opts : UploadOptions)
| ListObjects (b folder : string) (opts : ListOptions)
| Download (b key : string)
| UpdateUsersStorageUsed (userId : string) (bytes : Z).

Record World := {
  this : BackupService;
  fs : FileSystem;
  store : Cloud;
  users : list User;
  trace : list Event
}.

(** The characters of a string [Date.prototype.toISOString] returns:
    [YYYY-MM-DDTHH:mm:ss.sssZ], or a signed year of six digits. *)
Inductive IsoChar :=
| iso_0 | iso_1 | iso_2 | iso_3 | iso_4 | iso_5 | iso_6 | iso_7 | iso_8 | iso_9
| iso_minus | iso_plus | iso_colon | iso_dot | iso_T | iso_Z.

Module Iso.

Definition to_ascii (c : IsoChar) : ascii :=
  match c with
  | iso_0 => "0" | iso_1 => "1" | iso_2 => "2" | iso_3 => "3" | iso_4 => "4"
  | iso_5 => "5" | iso_6 => "6" | iso_7 => "7" | iso_8 => "8" | iso_9 => "9"
  | iso_minus => "-" | iso_plus => "+" | iso_colon => ":" | iso_dot => "."
  | iso_T => "T" | iso_Z => "Z"
  end%char.

Fixpoint to_string (l : list IsoChar) : string :=
  match l with
  | [] => EmptyString
  | c :: l' => String (to_ascii c) (to_string l')
  end.

Definition of_ascii (a : ascii) : option IsoChar :=
  find (fun c => Ascii.eqb (to_ascii c) a)
       [iso_0; iso_1; iso_2; iso_3; iso_4; iso_5; iso_6; iso_7; iso_8; iso_9;
        iso_minus; iso_plus; iso_colon; iso_dot; iso_T; iso_Z].

(** The characters of a literal, for writing a clock value down. *)
Fixpoint of_string (s : string) : list IsoChar :=
  match s with
  | EmptyString => []
  | String a s' =>
      match of_ascii a with
      | Some c => c :: of_string s'
      | None => of_string s'
      end
  end.

End Iso.

(** A body the storage server answers a listing with, status 200, that
    is not the array of objects: [null], an object, or an array with a
    [null] element.  The client hands it on as [data]. *)
Inductive Garbled := answer_null | answer_object | answer_null_item.

(** What a run reads from outside the state: the working directory, the
    two environment variables, [createClient] ([None] when it throws),
    the clock, the archiver, and the calls that do not go as the state
    says (permissions, disk, network), each with the error it fails
    with.  [stream_fault] is the failure of the write stream opened on a
    path; [garbled] says which of the listings that do not go as the
    state says are answered with a malformed body instead of an error. *)
Record Env := {
  cwd : path;
  SUPABASE_URL : option string;
  SUPABASE_KEY : option string;
  createClient : string -> string -> option Client;
  iso_now : list IsoChar;
  now_ms : Z;
  archive : list Byte.byte -> list Byte.byte;
  archive_directory : list Byte.byte;
  archive_empty : list Byte.byte;
  fault : Event -> option Error;
  stream_fault : path -> option Error;
  garbled : Event -> option Garbled
}.

(** [new Date().toISOString()] *)
Definition now_iso (env : Env) : string := Iso.to_string (iso_now env).

(** How an asynchronous computation ends: its promise resolves, its
    promise rejects (an exception, which a [try]/[catch] around the
    [await] takes), or an ['error'] event is emitted on a stream that has
    no listener for it, which Node turns into an uncaught exception: no
    handler of the program sees it and the process ends. *)
Inductive Outcome (A : Type) :=
| Ok (a : A)
| Throw (e : Error)
| Exit (e : Error).
Arguments Ok {A} a.
Arguments Throw {A} e.
Arguments Exit {A} e.

Definition M (A : Type) : Type := Env -> World -> Outcome A * World.

Definition ret {A} (a : A) : M A := fun _ w => (Ok a, w).

Definition bind {A B} (c : M A) (k : A -> M B) : M B :=
  fun env w =>
    match c env w with
    | (Ok a, w') => k a env w'
    | (Throw e, w') => (Throw e, w')
    | (Exit e, w') => (Exit e, w')
    end.

Definition throw {A} (e : Error) : M A := fun _ w => (Throw e, w).

(** [try { body } catch (e) { handler }] *)
Definition try_catch {A} (body : M A) (handler : Error -> M A) : M A :=
  fun env w =>
    match body env w with
    | (Ok a, w') => (Ok a, w')
    | (Throw e, w') => handler e env w'
    | (Exit e, w') => (Exit e, w')
    end.

Definition ask : M Env := fun env w => (Ok env, w).

Declare Scope js_scope.
Delimit Scope js_scope with js.
Notation "x <- c ;; k" := (bind c (fun x => k))
  (at level 61, c at next level, right associativity) : js_scope.
Notation "c ;; k" := (bind c (fun _ => k))
  (at level 61, right associativity) : js_scope.
Open Scope js_scope.

Definition log (ev : Event) (w : World) : World :=
  {| this := this w; fs := fs w; store := store w; users := users w;
     trace := (trace w ++ [ev])%list |}.

Definition set_this (t : BackupService) (w : World) : World :=
  {| this := t; fs := fs w; store := store w; users := users w; trace := trace w |}.

Definition set_fs (f : FileSystem) (w : World) : World :=
  {| this := this w; fs := f; store := store w; users := users w; trace := trace w |}.

Definition set_store (c : Cloud) (w : World) : World :=
  {| this := this w; fs := fs w; store := c; users := users w; trace := trace w |}.

Definition set_users (us : list User) (w : World) : World :=
  {| this := this w; fs := fs w; store := store w; users := us; trace := trace w |}.

(** A call that rejects or throws on failure: it is recorded, fails with
    the environment's error if there is one, and acts on the state
    otherwise. *)
Definition call {A} (ev : Event) (act : Env -> World -> Outcome A * World) : M A :=
  fun env w =>
    let w1 := log ev w in
    match fault env ev with
    | Some e => (Throw e, w1)
    | None => act env w1
    end.

(** A call of the storage client, which resolves to [{ data, error }]:
    [inl error] or [inr data].  The client catches the failures of the
    request itself and returns them as [error].  It is used for the
    calls of which the service reads [error] only, or reads [data]
    inside a [try]. *)
Definition client_call {A} (ev : Event) (act : Env -> World -> (Error + A) * World)
  : M (Error + A) :=
  fun env w =>
    let w1 := log ev w in
    match fault env ev with
    | Some e => (Ok (inl e), w1)
    | None => let (r, w2) := act env w1 in (Ok r, w2)
    end.

(** *** [fs-extra] *)

Definition ensureDir (p : path) : M unit :=
  call (EnsureDir p) (fun env w =>
    match FS.mkdirs (now_ms env) (fs w) [] p with
    | Some f => (Ok tt, set_fs f w)
    | None => (Throw (mkError "ENOTDIR: not a directory, mkdir"), w)
    end).

(** [pathExists] never rejects: a failing access check reads as [false]. *)
Definition pathExists (p : path) : M bool :=
  fun env w =>
    (Ok (match fault env (PathExists p) with
         | Some _ => false
         | None => FS.exists_ (fs w) p
         end),
     log (PathExists p) w).

Definition stat (p : path) : M Stats :=
  call (Stat p) (fun _ w =>
    match FS.lookup (fs w) p with
    | Some n => (Ok (FS.stats_of n), w)
    | None => (Throw (mkError "ENOENT: no such file or directory, stat"), w)
    end).

Definition readdir (p : path) : M (list string) :=
  call (Readdir p) (fun _ w =>
    match FS.lookup (fs w) p with
    | Some (Dir _ _) => (Ok (FS.children (fs w) p), w)
    | Some (File _ _) => (Throw (mkError "ENOTDIR: not a directory, scandir"), w)
    | None => (Throw (mkError "ENOENT: no such file or directory, scandir"), w)
    end).

Definition readFile (p : path) : M (list Byte.byte) :=
  call (ReadFile p) (fun _ w =>
    match FS.lookup (fs w) p with
    | Some (File c _) => (Ok c, w)
    | Some (Dir _ _) => (Throw (mkError "EISDIR: illegal operation on a directory, read"), w)
    | None => (Throw (mkError "ENOENT: no such file or directory, open"), w)
    end).

(** Writing creates the file or replaces its content. *)
Definition write_node (env : Env) (w : World) (p : path) (buf : list Byte.byte)
  : option World :=
  match FS.lookup (fs w) p with
  | Some (Dir _ _) => None
  | Some (File _ b) => Some (set_fs (FS.put (fs w) p (File buf b)) w)
  | None => Some (set_fs (FS.put (fs w) p (File buf (now_ms env))) w)
  end.

Definition writeFile (p : path) (buf : list Byte.byte) : M unit :=
  call (WriteFile p buf) (fun env w =>
    match write_node env w p buf with
    | Some w' => (Ok tt, w')
    | None => (Throw (mkError "EISDIR: illegal operation on a directory, open"), w)
    end).

(** [fs.move(src, dst)] without [overwrite]: the source must exist, the
    parent of the destination is created, and an existing destination
    is an error. *)
Definition move (src dst : path) : M unit :=
  call (Move src dst) (fun env w =>
    match FS.lookup (fs w) src with
    | None => (Throw (mkError "ENOENT: no such file or directory, lstat"), w)
    | Some _ =>
        if Path.eqb src dst
        then (Throw (mkError "Source and destination must not be the same."), w)
        else
          match FS.mkdirs (now_ms env) (fs w) [] (Path.parent dst) with
          | None => (Throw (mkError "ENOTDIR: not a directory, mkdir"), w)
          | Some f =>
              if FS.exists_ f dst
              then (Throw (mkError "dest already exists."), set_fs f w)
              else (Ok tt, set_fs (FS.rename f src dst) w)
          end
    end).

Definition remove (p : path) : M unit :=
  call (Remove p) (fun _ w => (Ok tt, set_fs (FS.remove (fs w) p) w)).

(** *** The storage client *)

Definition BUCKET : string := "momo-backups".

Definition getBucket (b : string) : M (Error + BucketOptions) :=
  client_call (GetBucket b) (fun _ w =>
    match Store.bucket_lookup (store w) b with
    | Some o => (inr o, w)
    | None => (inl (Store.not_found "Bucket"), w)
    end).

Definition createBucket (b : string) (opts : BucketOptions) : M (Error + unit) :=
  client_call (CreateBucket b opts) (fun _ w =>
    match Store.bucket_lookup (store w) b with
    | Some _ => (inl {| message := "The resource already exists"; status := Some 409 |}, w)
    | None => (inr tt, set_store (Store.add_bucket (store w) b opts) w)
    end).

Definition mime_allowed (o : BucketOptions) (ct : string) : bool :=
  match allowedMimeTypes o with
  | [] => true
  | l => existsb (String.eqb ct) l
  end.

Definition upload (b key : string) (buf : list Byte.byte) (opts : UploadOptions)
  : M (Error + unit) :=
  client_call (Upload b key buf opts) (fun env w =>
    match Store.bucket_lookup (store w) b with
    | None => (inl (Store.not_found "Bucket"), w)
    | Some bo =>
        if fileSizeLimit bo <? Z.of_nat (length buf)
        then (inl {| message := "The object exceeded the maximum allowed size";
                     status := Some 413 |}, w)
        else if negb (mime_allowed bo (contentType opts))
        then (inl {| message := "mime type not supported"; status := Some 415 |}, w)
        else
          match Store.object_lookup (store w) b key with
          | Some _ =>
              if upsert opts
              then (inr tt, set_store (Store.put_object (store w) b key
                       {| body := buf; meta_size := Some (Z.of_nat (length buf));
                          obj_created_at := now_ms env |}) w)
              else (inl {| message := "The resource already exists";
                           status := Some 409 |}, w)
          | None =>
              (inr tt, set_store (Store.put_object (store w) b key
                 {| body := buf; meta_size := Some (Z.of_nat (length buf));
                    obj_created_at := now_ms env |}) w)
          end
    end).

(** The [data] of a listing: whatever JSON value the server answered
    with.  The elements of an array are objects or [null]. *)
Inductive ListData :=
| data_null
| data_object
| data_array (items : list (option FileObject)).

Definition garbled_data (g : Garbled) : ListData :=
  match g with
  | answer_null => data_null
  | answer_object => data_object
  | answer_null_item => data_array [None]
  end.

(** [storage.from(b).list(folder, opts)]: an error answer resolves to
    [{ error }]; any answer of status 200 resolves to [{ data }] with the
    body as it came. *)
Definition list_objects (b folder : string) (opts : ListOptions)
  : M (Error + ListData) :=
  fun env w =>
    let ev := ListObjects b folder opts in
    let w1 := log ev w in
    match fault env ev with
    | Some e =>
        match garbled env ev with
        | Some g => (Ok (inr (garbled_data g)), w1)
        | None => (Ok (inl e), w1)
        end
    | None =>
        match Store.bucket_lookup (store w1) b with
        | None => (Ok (inl (Store.not_found "Bucket")), w1)
        | Some _ =>
            (Ok (inr (data_array (map Some (Store.list_items (store w1) b folder opts)))),
             w1)
        end
    end.

Definition download (b key : string) : M (Error + list Byte.byte) :=
  client_call (Download b key) (fun _ w =>
    match Store.object_lookup (store w) b key with
    | Some o => (inr (body o), w)
    | None => (inl (Store.not_found "Object"), w)
    end).

(** ** [DatabaseStorage.updateStorageUsage] *)

Definition with_storageUsed (bytes : Z) (u : User) : User :=
  {| user_id := user_id u; businessName := businessName u; pinHash := pinHash u;
     email := email u; createdAt := createdAt u; storageUsed := bytes;
     storageLimit := storageLimit u;
     lastBusinessNameChange := lastBusinessNameChange u |}.

(** [db.update(users).set({ storageUsed: bytes }).where(eq(users.id, userId))] *)
Definition update_users_set_storageUsed (bytes : Z) (userId : string)
  (rows : list User) : list User :=
  map (fun u => if String.eqb (user_id u) userId then with_storageUsed bytes u else u)
      rows.

Definition updateStorageUsage (userId : string) (bytes : Z) : M unit :=
  call (UpdateUsersStorageUsed userId bytes) (fun _ w =>
    (Ok tt, set_users (update_users_set_storageUsed bytes userId (users w)) w)).

(** ** [BackupService] *)

(** What [archive.file(source, ...)] followed by [finalize()] produces:
    the archive of the content of a file; for a directory, the archive
    with the one directory entry; and when nothing is at [source], the
    archive without entries: the failing [lstat] is reported by a
    ['warning'] event, which has no listener. *)
Definition archive_of (env : Env) (source : option Node) : list Byte.byte :=
  match source with
  | Some (File c _) => archive env c
  | Some (Dir _ _) => archive_directory env
  | None => archive_empty env
  end.

(** [zipDatabase(source, out)]: the write stream creates [out]; the
    promise resolves when the stream closes, with the archive written,
    and rejects when the archiver emits ['error'], which leaves [out]
    empty.  Only the archiver has a listener for ['error']: when the
    stream cannot open or write [out] (a directory is there, or
    [stream_fault]), its ['error'] event is an uncaught exception. *)
Definition zipDatabase (source out : path) : M unit :=
  fun env w =>
    let w1 := log (Zip source out) w in
    match stream_fault env out, write_node env w1 out [] with
    | Some e, _ => (Exit e, w1)
    | None, None => (Exit (mkError "EISDIR: illegal operation on a directory, open"), w1)
    | None, Some w2 =>
        match fault env (Zip source out) with
        | Some e => (Throw e, w2)
        | None =>
            match write_node env w2 out (archive_of env (FS.lookup (fs w1) source)) with
            | Some w3 => (Ok tt, w3)
            | None => (Exit (mkError "EISDIR: illegal operation on a directory, open"), w2)
            end
        end
    end.

Definition get_this : M BackupService := fun _ w => (Ok (this w), w).

Definition assign_localBackupDir (d : path) : M unit :=
  fun _ w => (Ok tt, set_this {| client := client (this w); deployMode := deployMode (this w);
                                 localBackupDir := d |} w).

Definition assign_client (c : Client) : M unit :=
  fun _ w => (Ok tt, set_this {| client := Some c; deployMode := deployMode (this w);
                                 localBackupDir := localBackupDir (this w) |} w).

Definition assign_deployMode (m : DeployMode) : M unit :=
  fun _ w => (Ok tt, set_this {| client := client (this w); deployMode := m;
                                 localBackupDir := localBackupDir (this w) |} w).

(** [createClient(url, key)], which may throw. *)
Definition createClient_ (url key : string) : M Client :=
  fun env w =>
    match createClient env url key with
    | Some c => (Ok c, w)
    | None => (Throw (mkError "createClient failed"), w)
    end.

(** The test of line 20:
    [SUPABASE_URL && SUPABASE_KEY && SUPABASE_URL.startsWith("http")]. *)
Definition remote_configured (env : Env) : bool :=
  Str.truthy (SUPABASE_URL env) && Str.truthy (SUPABASE_KEY env)
  && match SUPABASE_URL env with
     | Some u => Str.startsWith u "http"
     | None => false
     end.

Definition constructor : M unit :=
  env <- ask ;;
  assign_localBackupDir (Path.join (cwd env) ["backups"]) ;;
  t <- get_this ;;
  ensureDir (localBackupDir t) ;;
  if remote_configured env then
    match SUPABASE_URL env, SUPABASE_KEY env with
    | Some url, Some key =>
        try_catch
          (c <- createClient_ url key ;;
           assign_client c ;;
           assign_deployMode cloud)
          (fun _ => assign_deployMode local)
    | _, _ => assign_deployMode local
    end
  else assign_deployMode local.

(** The object [new BackupService()] starts from: the field initializer
    gives [deployMode] the value ['local']. *)
Definition fresh_instance : BackupService :=
  {| client := None; deployMode := local; localBackupDir := [] |}.

(** [this.deployMode === 'cloud' && this.client] *)
Definition cloud_client (t : BackupService) : option Client :=
  match deployMode t with
  | cloud => client t
  | local => None
  end.

Definition backup_file_name (env : Env) : string :=
  let timestamp := Str.slice0 19 (Str.replace_colon_dot (now_iso env)) in
  "backup_" ++ timestamp ++ "_GMT.zip".

Definition bucket_options : BucketOptions :=
  {| public := false; fileSizeLimit := 52428800;
     allowedMimeTypes := ["application/zip"] |}.

Definition is_not_found (e : Error) : bool :=
  Str.includes (message e) "not found"
  || match status e with Some c => c =? 404 | None => false end.

(** Lines 57-75: make sure the bucket exists. *)
Definition ensure_bucket : M unit :=
  r <- getBucket BUCKET ;;
  match r with
  | inl bucketError =>
      if is_not_found bucketError then
        r' <- createBucket BUCKET bucket_options ;;
        match r' with
        | inl createError =>
            throw (mkError ("Supabase bucket 'momo-backups' missing and auto-creation failed: "
                            ++ message createError ++ ". Please create it manually."))
        | inr _ => ret tt
        end
      else throw bucketError
  | inr _ => ret tt
  end.

(** Lines 53-106 of [createBackup]: the archive at [tempPath] goes to
    the active backend. *)
Definition store_archive (userId fileName : string) (tempPath : path) : M unit :=
  t <- get_this ;;
  match cloud_client t with
  | Some _ =>
      ensure_bucket ;;
      fileContent <- readFile tempPath ;;
      let cloudFileName := userId ++ "/" ++ fileName in
      r <- upload BUCKET cloudFileName fileContent
             {| contentType := "application/zip"; upsert := true |} ;;
      match r with
      | inl error => throw error
      | inr _ => remove tempPath
      end
  | None =>
      let userBackupDir := Path.join (localBackupDir t) [userId] in
      ensureDir userBackupDir ;;
      let targetPath := Path.join userBackupDir [fileName] in
      move tempPath targetPath
  end.

Definition db_path (env : Env) : path := Path.join (cwd env) ["database.db"].
Definition temp_path (env : Env) : path := Path.join (cwd env) [backup_file_name env].

(** Lines 35-106 of [createBackup]: the archive is built at the
    temporary path and stored.  The value is [stats.size]. *)
Definition stage_and_store (userId : string) : M Z :=
  env <- ask ;;
  let dbPath := db_path env in
  let fileName := backup_file_name env in
  let tempPath := temp_path env in
  found <- pathExists dbPath ;;
  (if negb found
   then throw (mkError "Database file (database.db) not found")
   else ret tt) ;;
  zipDatabase dbPath tempPath ;;
  stats <- stat tempPath ;;
  let size := st_size stats in
  store_archive userId fileName tempPath ;;
  ret size.

(** The [try] block of [createBackup]: lines 35-106, then the usage
    update and the result. *)
Definition createBackup_try (userId : string) : M BackupResult :=
  size <- stage_and_store userId ;;
  updateStorageUsage userId size ;;
  t <- get_this ;;
  ret {| success := true; size := size;
         msg := "Backup successful (" ++ mode_name (deployMode t) ++ ")" |}.

Definition createBackup (userId : string) : M BackupResult :=
  try_catch (createBackup_try userId)
    (fun error => ret {| success := false; size := 0; msg := message error |}).

(** [Promise.all(xs.map(async ...))]: every callback runs up to its
    awaited call, in array order, so every call is made; the promise
    rejects if one of them does (the first in array order is taken,
    which error it is plays no role below). *)
Fixpoint promise_all {A} (cs : list (M A)) : M (list A) :=
  match cs with
  | [] => ret []
  | c :: rest =>
      fun env w =>
        match c env w with
        | (Ok a, w1) =>
            match promise_all rest env w1 with
            | (Ok l, w2) => (Ok (a :: l), w2)
            | (Throw e, w2) => (Throw e, w2)
            | (Exit e, w2) => (Exit e, w2)
            end
        | (Throw e, w1) =>
            match promise_all rest env w1 with
            | (Exit e', w2) => (Exit e', w2)
            | (_, w2) => (Throw e, w2)
            end
        | (Exit e, w1) => (Exit e, w1)
        end
  end.

Definition list_options : ListOptions :=
  {| limit := 100; offset := 0; sortBy := (col_created_at, desc) |}.

(** [item.metadata?.size || 0] *)
Definition size_or_zero (o : option Z) : Z :=
  match o with
  | Some n => if n =? 0 then 0 else n
  | None => 0
  end.

Definition cloud_record (item : FileObject) : BackupRecord :=
  {| id := item_name item; name := item_name item;
     rsize := size_or_zero (item_metadata_size item);
     created_at := item_created_at item |}.

Definition local_record (userBackupDir : path) (file : string) : M BackupRecord :=
  let filePath := Path.join userBackupDir [file] in
  stats <- stat filePath ;;
  ret {| id := file; name := file; rsize := st_size stats;
         created_at := st_birthtime stats |}.

(** The comparator of line 160. *)
Definition newest_first (a b : BackupRecord) : Z := created_at b - created_at a.

(** The [try] block of the local branch of [listBackups]. *)
Definition listBackups_local_try (t : BackupService) (userId : string)
  : M (list BackupRecord) :=
  let userBackupDir := Path.join (localBackupDir t) [userId] in
  found <- pathExists userBackupDir ;;
  if negb found then ret []
  else
    files <- readdir userBackupDir ;;
    fileStats <- promise_all (map (local_record userBackupDir) files) ;;
    ret (array_sort newest_first fileStats).

(** [items.map(item => ...)] of line 135 on the elements of an array:
    reading [item.name] of [null] throws. *)
Fixpoint map_items (items : list (option FileObject)) : Error + list BackupRecord :=
  match items with
  | [] => inr []
  | None :: _ => inl (mkError "Cannot read properties of null (reading 'name')")
  | Some item :: rest =>
      match map_items rest with
      | inl e => inl e
      | inr records => inr (cloud_record item :: records)
      end
  end.

(** [data.map(...)] of line 135, for whatever [data] is. *)
Definition data_map (data : ListData) : M (list BackupRecord) :=
  match data with
  | data_null => throw (mkError "Cannot read properties of null (reading 'map')")
  | data_object => throw (mkError "data.map is not a function")
  | data_array items =>
      match map_items items with
      | inl e => throw e
      | inr records => ret records
      end
  end.

Definition listBackups (userId : string) : M (list BackupRecord) :=
  t <- get_this ;;
  match cloud_client t with
  | Some _ =>
      r <- list_objects BUCKET userId list_options ;;
      match r with
      | inl error => ret []
      | inr data => data_map data
      end
  | None =>
      try_catch (listBackups_local_try t userId) (fun e => ret [])
  end.

Definition restore_temp_path (env : Env) : path :=
  Path.join (cwd env) ["restore_temp.zip"].

(** The [try] block of [restoreBackup]; the restore itself is a log line
    in the source. *)
Definition restoreBackup_try (userId backupId : string) : M bool :=
  env <- ask ;;
  t <- get_this ;;
  restoreSourcePath <-
    match cloud_client t with
    | Some _ =>
        r <- download BUCKET (userId ++ "/" ++ backupId) ;;
        match r with
        | inl error => throw error
        | inr buffer =>
            let p := restore_temp_path env in
            writeFile p buffer ;;
            ret p
        end
    | None =>
        let p := Path.join (localBackupDir t) [userId; backupId] in
        found <- pathExists p ;;
        if negb found then throw (mkError "Backup file not found locally")
        else ret p
    end ;;
  t' <- get_this ;;
  match deployMode t' with
  | cloud => remove restoreSourcePath
  | local => ret tt
  end ;;
  ret true.

Definition restoreBackup (userId backupId : string) : M bool :=
  try_catch (restoreBackup_try userId backupId) (fun e => ret false).

(** * The database storage and the routes *)

(** ** Rows, tables and statements *)

(** The columns are those the statements of [DatabaseStorage] name.  A
    column holds the value the statement gives it, except [amount] and
    [fee], of type [decimal(12, 2)]: they hold the text the database
    makes of the text written ([decimal] of the runtime). *)
Record Customer := {
  customer_id : Z;
  customer_name : string;
  phoneNumber : string;
  network : string;
  customer_userId : option string;
  customer_createdAt : Z
}.

Record Transaction := {
  tx_id : Z;
  tx_date : string;
  tx_time : string;
  tx_type : string;
  tx_amount : string;
  tx_fee : option string;
  tx_notes : option string;
  tx_customerId : option Z;
  tx_userId : option string;
  tx_createdAt : Z
}.

(** The tables, and for the two tables whose [id] the database assigns,
    the next value it will assign.  A row keeps its place in the list
    when it is updated, so that places pair the rows of a table before
    and after a statement.  A select without [orderBy] is run on the
    list as it is; the order in which the database returns such rows is
    not fixed by SQL, and no property below states it. *)
Record Database := {
  db_users : list User;
  db_customers : list Customer;
  db_transactions : list Transaction;
  customers_id_seq : Z;
  transactions_id_seq : Z
}.

(** A JavaScript number used as an [id]: an integer or [NaN]. *)
Inductive number :=
| NaN
| Num (z : Z).

Definition isNaN (n : number) : bool :=
  match n with
  | NaN => true
  | Num _ => false
  end.

(** The error of the database for a parameter of an integer column that
    is not an integer. *)
Definition invalid_integer : Error :=
  {| message := "invalid input syntax for type integer: NaN"; status := None |}.

(** [eq(column, v)] on a nullable column: [NULL] equals no value. *)
Definition eq_text (column : option string) (v : string) : bool :=
  match column with
  | Some s => String.eqb s v
  | None => false
  end.

Definition eq_int (column : option Z) (v : Z) : bool :=
  match column with
  | Some z => Z.eqb z v
  | None => false
  end.

Definition is_null {A} (column : option A) : bool :=
  match column with
  | Some _ => false
  | None => true
  end.

(** The statements sent to the database. *)
Inductive Statement :=
| SelectUserById (id : string)
| SelectUserByBusinessName (name : string)
| SelectUserByEmail (email : string)
| SelectFirstUser
| InsertUser (row : User)
| UpdateUserBusinessName (id name : string)
| UpdateUserPin (id pinHash : string)
| SelectCustomerById (id : number)
| SelectCustomerByPhone (phone userId : string)
| SelectCustomerByPhoneAndNetwork (phone network userId : string)
| InsertCustomer (name phone network userId : string)
| SelectOrphanedCustomers
| UpdateCustomerUserId (id : Z) (userId : string)
| SelectTransactionsOn (date userId : string)
| SelectTransactionsOf (userId : string)
| SelectTransactionOfCustomer (id : Z)
| InsertTransaction (userId : string)
| DeleteTransaction (id : number).

(** What a call reads from outside the tables: the values of
    [randomUUID()], of the clock and of the library functions, the
    verdicts of the input schemas of the two settings routes, the value
    of [Math.floor(1000 + Math.random() * 9000)], the environment
    variable [NODE_ENV], the text a [decimal(12, 2)] column holds for a
    text written to it (["200"] is kept as ["200.00"]), and for each
    statement whether the database rejects it, and with which error. *)
Record Runtime := {
  randomUUID : string;
  Date_now : Z;
  Date_toISOString : string;
  bcrypt_hash : string -> string;
  bcrypt_compare : string -> string -> bool;
  trim : string -> string;
  parseInt : string -> number;
  Number_of : string -> number;
  businessName_valid : string -> bool;
  updatePin_valid : string -> string -> bool;
  Math_random_pin : Z;
  NODE_ENV : option string;
  decimal : string -> string;
  rejects : Statement -> option Error
}.

(** ** Computations over the database *)

Definition Q (A : Type) : Type := Runtime -> Database -> Outcome A * Database.

Definition qret {A} (a : A) : Q A := fun _ d => (Ok a, d).

Definition qbind {A B} (c : Q A) (k : A -> Q B) : Q B :=
  fun rt d =>
    match c rt d with
    | (Ok a, d') => k a rt d'
    | (Throw e, d') => (Throw e, d')
    | (Exit e, d') => (Exit e, d')
    end.

(** [try { body } catch (e) { handler }] *)
Definition qtry {A} (body : Q A) (handler : Error -> Q A) : Q A :=
  fun rt d =>
    match body rt d with
    | (Ok a, d') => (Ok a, d')
    | (Throw e, d') => handler e rt d'
    | (Exit e, d') => (Exit e, d')
    end.

Definition runtime : Q Runtime := fun rt d => (Ok rt, d).

Declare Scope db_scope.
Delimit Scope db_scope with db.
Notation "x <- c ;; k" := (qbind c (fun x => k))
  (at level 61, c at next level, right associativity) : db_scope.
Notation "c ;; k" := (qbind c (fun _ => k))
  (at level 61, right associativity) : db_scope.

(** One awaited statement: rejected with the error of the database, or
    run on the tables. *)
Definition query {A} (st : Statement) (run : Database -> A * Database) : Q A :=
  fun rt d =>
    match rejects rt st with
    | Some e => (Throw e, d)
    | None => let (a, d') := run d in (Ok a, d')
    end.

(** [const [row] = rows] *)
Definition first_row {A} (rows : list A) : option A := hd_error rows.

Definition set_db_users (rows : list User) (d : Database) : Database :=
  {| db_users := rows; db_customers := db_customers d;
     db_transactions := db_transactions d;
     customers_id_seq := customers_id_seq d;
     transactions_id_seq := transactions_id_seq d |}.

Definition set_db_customers (rows : list Customer) (d : Database) : Database :=
  {| db_users := db_users d; db_customers := rows;
     db_transactions := db_transactions d;
     customers_id_seq := customers_id_seq d;
     transactions_id_seq := transactions_id_seq d |}.

Definition set_db_transactions (rows : list Transaction) (d : Database) : Database :=
  {| db_users := db_users d; db_customers := db_customers d;
     db_transactions := rows;
     customers_id_seq := customers_id_seq d;
     transactions_id_seq := transactions_id_seq d |}.

(** [db.insert(customers).values(row).returning()]: the database assigns
    the [id]. *)
Definition insert_customer (row : Z -> Customer) (d : Database) : Customer * Database :=
  let c := row (customers_id_seq d) in
  (c, {| db_users := db_users d; db_customers := (db_customers d ++ [c])%list;
         db_transactions := db_transactions d;
         customers_id_seq := customers_id_seq d + 1;
         transactions_id_seq := transactions_id_seq d |}).

Definition insert_transaction (row : Z -> Transaction) (d : Database)
  : Transaction * Database :=
  let t := row (transactions_id_seq d) in
  (t, {| db_users := db_users d; db_customers := db_customers d;
         db_transactions := (db_transactions d ++ [t])%list;
         customers_id_seq := customers_id_seq d;
         transactions_id_seq := transactions_id_seq d + 1 |}).

(** ** [DatabaseStorage]: users *)

Definition getUser (id : string) : Q (option User) :=
  query (SelectUserById id) (fun d =>
    (first_row (filter (fun u => String.eqb (user_id u) id) (db_users d)), d)).

Definition getUserByBusinessName (name : string) : Q (option User) :=
  query (SelectUserByBusinessName name) (fun d =>
    (first_row (filter (fun u => String.eqb (businessName u) name) (db_users d)), d)).

Definition getUserByEmail (email_ : string) : Q (option User) :=
  query (SelectUserByEmail email_) (fun d =>
    (first_row (filter (fun u => eq_text (email u) email_) (db_users d)), d)).

Definition getFirstUser : Q (option User) :=
  query SelectFirstUser (fun d => (first_row (firstn 1 (db_users d)), d)).

(** [createUser(user)]: [pin] is [user.pinHash], the plain PIN. *)
Definition createUser (businessName_ pin : string) (email_ : option string) : Q User :=
  (rt <- runtime ;;
   let id := randomUUID rt in
   let pinHash_ := bcrypt_hash rt pin in
   let row :=
     {| user_id := id; businessName := businessName_; pinHash := pinHash_;
        email := email_; createdAt := Date_now rt; storageUsed := 0;
        storageLimit := 15 * 1024 * 1024 * 1024;
        lastBusinessNameChange := None |} in
   query (InsertUser row) (fun d => (row, set_db_users (db_users d ++ [row])%list d)))%db.

Definition with_businessName (newName : string) (changed : Z) (u : User) : User :=
  {| user_id := user_id u; businessName := newName; pinHash := pinHash u;
     email := email u; createdAt := createdAt u; storageUsed := storageUsed u;
     storageLimit := storageLimit u; lastBusinessNameChange := Some changed |}.

Definition with_pinHash (newPinHash : string) (u : User) : User :=
  {| user_id := user_id u; businessName := businessName u; pinHash := newPinHash;
     email := email u; createdAt := createdAt u; storageUsed := storageUsed u;
     storageLimit := storageLimit u;
     lastBusinessNameChange := lastBusinessNameChange u |}.

(** [db.update(users).set(change).where(eq(users.id, userId)).returning()] *)
Definition update_users (change : User -> User) (userId : string) (d : Database)
  : list User * Database :=
  let rows :=
    map (fun u => if String.eqb (user_id u) userId then change u else u) (db_users d) in
  (filter (fun u => String.eqb (user_id u) userId) rows, set_db_users rows d).

Definition updateBusinessName (userId newName : string) : Q (option User) :=
  (rt <- runtime ;;
   query (UpdateUserBusinessName userId newName) (fun d =>
     let (returning, d') := update_users (with_businessName newName (Date_now rt)) userId d in
     (first_row returning, d')))%db.

Definition updatePin (userId newPinHash : string) : Q (option User) :=
  query (UpdateUserPin userId newPinHash) (fun d =>
    let (returning, d') := update_users (with_pinHash newPinHash) userId d in
    (first_row returning, d')).

Definition validatePin (userId pin : string) : Q bool :=
  (user <- getUser userId ;;
   match user with
   | None => qret false
   | Some u =>
       rt <- runtime ;;
       qret (bcrypt_compare rt pin (pinHash u))
   end)%db.

(** ** [DatabaseStorage]: customers *)

Definition getCustomer (id : number) : Q (option Customer) :=
  match id with
  | NaN => qret None
  | Num z =>
      query (SelectCustomerById id) (fun d =>
        (first_row (filter (fun c => Z.eqb (customer_id c) z) (db_customers d)), d))
  end.

Definition getCustomerByPhone (phone userId : string) : Q (option Customer) :=
  (rt <- runtime ;;
   let trimmedPhone := trim rt phone in
   query (SelectCustomerByPhone trimmedPhone userId) (fun d =>
     (first_row
        (filter (fun c => String.eqb (phoneNumber c) trimmedPhone
                          && eq_text (customer_userId c) userId)
                (db_customers d)), d)))%db.

Definition getCustomerByPhoneAndNetwork (phone network_ userId : string)
  : Q (option Customer) :=
  (rt <- runtime ;;
   let trimmedPhone := trim rt phone in
   query (SelectCustomerByPhoneAndNetwork trimmedPhone network_ userId) (fun d =>
     (first_row
        (filter (fun c => String.eqb (phoneNumber c) trimmedPhone
                          && String.eqb (network c) network_
                          && eq_text (customer_userId c) userId)
                (db_customers d)), d)))%db.

Definition createCustomer (name_ phone network_ userId : string) : Q Customer :=
  (rt <- runtime ;;
   query (InsertCustomer name_ (trim rt phone) network_ userId)
     (insert_customer (fun id =>
        {| customer_id := id; customer_name := name_;
           phoneNumber := trim rt phone; network := network_;
           customer_userId := Some userId; customer_createdAt := Date_now rt |})))%db.

(** ** [DatabaseStorage]: transactions *)

(** The argument of [createTransaction]: [in_amount] is the text
    [String(tx.amount)], [in_fee] the text [String(tx.fee)] of a fee that
    is not [undefined]. *)
Record TransactionInput := {
  in_type : string;
  in_amount : string;
  in_fee : option string;
  in_date : string;
  in_time : string;
  in_notes : option string;
  customerName : string;
  in_phoneNumber : string;
  in_network : string
}.

Definition createTransaction (tx : TransactionInput) (userId : string) : Q Transaction :=
  (found <- getCustomerByPhoneAndNetwork (in_phoneNumber tx) (in_network tx) userId ;;
   customer <- match found with
               | Some c => qret c
               | None =>
                   createCustomer (customerName tx) (in_phoneNumber tx) (in_network tx) userId
               end ;;
   rt <- runtime ;;
   query (InsertTransaction userId)
     (insert_transaction (fun id =>
        {| tx_id := id;
           tx_date := in_date tx;
           tx_time := in_time tx;
           tx_type := in_type tx;
           tx_amount := decimal rt (in_amount tx);
           tx_fee := Some (decimal rt (match in_fee tx with Some f => f | None => "0" end));
           tx_notes := Some (if Str.truthy (in_notes tx)
                             then match in_notes tx with Some n => n | None => "" end
                             else "");
           tx_customerId := Some (customer_id customer);
           tx_userId := Some userId;
           tx_createdAt := Date_now rt |})))%db.

(** [NaN] is sent as a parameter of the statement like any number, and
    the database rejects it. *)
Definition deleteTransaction (id : number) : Q unit :=
  match id with
  | NaN =>
      fun rt d =>
        (Throw match rejects rt (DeleteTransaction NaN) with
               | Some e => e
               | None => invalid_integer
               end, d)
  | Num z =>
      query (DeleteTransaction id) (fun d =>
        (tt, set_db_transactions
               (filter (fun t => negb (Z.eqb (tx_id t) z)) (db_transactions d)) d))
  end.

(** ** [DatabaseStorage]: the dashboard *)

(** [s.split('T')[0]] *)
Fixpoint before_T (s : string) : string :=
  match s with
  | EmptyString => EmptyString
  | String c s' => if Ascii.eqb c "T" then EmptyString else String c (before_T s')
  end.

Section Dashboard.

(** The numbers of the totals, with [0], [+] and [Number(text)]. *)
Variable num : Type.
Variable zero : num.
Variable plus : num -> num -> num.
Variable Number : string -> num.

Record DashboardStats := {
  todayCount : Z;
  totalCashIn : num;
  totalCashOut : num;
  totalFees : num;
  netProfit : num
}.

(** The body of [allTx.forEach]. *)
Definition add_to_stats (stats : DashboardStats) (tx : Transaction) : DashboardStats :=
  let amount := Number (tx_amount tx) in
  let fee := if Str.truthy (tx_fee tx)
             then match tx_fee tx with Some f => Number f | None => zero end
             else zero in
  {| todayCount := todayCount stats;
     totalCashIn := if String.eqb (tx_type tx) "Cash In"
                    then plus (totalCashIn stats) amount else totalCashIn stats;
     totalCashOut := if String.eqb (tx_type tx) "Cash Out"
                     then plus (totalCashOut stats) amount else totalCashOut stats;
     totalFees := plus (totalFees stats) fee;
     netProfit := netProfit stats |}.

Definition getDashboardStats (userId : string) : Q DashboardStats :=
  (rt <- runtime ;;
   let today := before_T (Date_toISOString rt) in
   todaysTx <- query (SelectTransactionsOn today userId) (fun d =>
     (filter (fun t => String.eqb (tx_date t) today && eq_text (tx_userId t) userId)
             (db_transactions d), d)) ;;
   allTx <- query (SelectTransactionsOf userId) (fun d =>
     (filter (fun t => eq_text (tx_userId t) userId) (db_transactions d), d)) ;;
   let stats :=
     fold_left add_to_stats allTx
       {| todayCount := Z.of_nat (length todaysTx); totalCashIn := zero;
          totalCashOut := zero; totalFees := zero; netProfit := zero |} in
   qret {| todayCount := todayCount stats; totalCashIn := totalCashIn stats;
           totalCashOut := totalCashOut stats; totalFees := totalFees stats;
           netProfit := totalFees stats |})%db.

End Dashboard.

Arguments todayCount {num} _.
Arguments totalCashIn {num} _.
Arguments totalCashOut {num} _.
Arguments totalFees {num} _.
Arguments netProfit {num} _.

(** ** [DatabaseStorage]: the migration of customers without owner *)

Definition with_customer_userId (userId : string) (c : Customer) : Customer :=
  {| customer_id := customer_id c; customer_name := customer_name c;
     phoneNumber := phoneNumber c; network := network c;
     customer_userId := Some userId; customer_createdAt := customer_createdAt c |}.

(** [db.update(customers).set({ userId }).where(eq(customers.id, id))] *)
Definition update_customers_set_userId (userId : string) (id : Z)
  (rows : list Customer) : list Customer :=
  map (fun c => if Z.eqb (customer_id c) id then with_customer_userId userId c else c)
      rows.

(** The body of the loop. *)
Definition migrate_customer (customer : Customer) : Q unit :=
  (tx <- query (SelectTransactionOfCustomer (customer_id customer)) (fun d =>
     (first_row
        (firstn 1 (filter (fun t => eq_int (tx_customerId t) (customer_id customer))
                          (db_transactions d))), d)) ;;
   match tx with
   | Some t =>
       if Str.truthy (tx_userId t) then
         match tx_userId t with
         | Some owner =>
             query (UpdateCustomerUserId (customer_id customer) owner) (fun d =>
               (tt, set_db_customers
                      (update_customers_set_userId owner (customer_id customer)
                         (db_customers d)) d))
         | None => qret tt
         end
       else qret tt
   | None => qret tt
   end)%db.

(** [for (const x of xs) { await body(x) }] *)
Fixpoint for_of {A} (xs : list A) (body : A -> Q unit) : Q unit :=
  match xs with
  | [] => qret tt
  | x :: xs' => (body x ;; for_of xs' body)%db
  end.

Definition migrateOrphanedCustomers : Q unit :=
  (orphanedCustomers <- query SelectOrphanedCustomers (fun d =>
     (filter (fun c => is_null (customer_userId c)) (db_customers d), d)) ;;
   for_of orphanedCustomers migrate_customer)%db.

(** ** The routes *)

Inductive Payload :=
| NoContent
| Message (m : string)
| UserJson (u : option User)
| CustomerJson (c : Customer)
| ResetJson (m : string) (tempPin : string)
| BackupJson (r : BackupResult)
| BackupsJson (l : list BackupRecord).

Record Response := {
  statusCode : Z;
  payload : Payload
}.

(** [res.status(code).json(body)]; [res.json(body)] has status 200. *)
Definition json (code : Z) (body : Payload) : Response :=
  {| statusCode := code; payload := body |}.

(** What [requireAuth] makes of a request: it answers itself, or calls
    [next()] with [req.session.userId] set. *)
Inductive Auth :=
| Answered (res : Response)
| Next (userId : string).

(** [requireAuth]: [session] is [req.session.userId], [header] is
    [req.headers['x-user-id']]. *)
Definition requireAuth (session header : option string) : Auth :=
  if negb (Str.truthy session) then
    if Str.truthy header then
      match header with
      | Some authHeader => Next authHeader
      | None => Answered (json 401 (Message "Unauthorized"))
      end
    else Answered (json 401 (Message "Unauthorized"))
  else
    match session with
    | Some userId => Next userId
    | None => Answered (json 401 (Message "Unauthorized"))
    end.

(** A route registered as [app.METHOD(path, requireAuth, handler)]: the
    result is [req.session.userId] as the request leaves it, and the
    response. *)
Definition authenticated (session header : option string)
  (handler : string -> Q Response) : Q (option string * Response) :=
  match requireAuth session header with
  | Answered res => qret (session, res)
  | Next userId => (res <- handler userId ;; qret (Some userId, res))%db
  end.

(** [Math.ceil(x / 60000)] *)
Definition ceil_minutes (x : Z) : Z := - ((- x) / 60000).

(** [`${n}`] of an integer *)
Definition show_number (n : Z) : string := NilZero.string_of_int (Z.to_int n).

Arguments ceil_minutes : simpl never.
Arguments show_number : simpl never.

(** The handler of [api.auth.settings.updateBusinessName]; [businessName_]
    is [req.body.businessName]. *)
Definition update_business_name_handler (businessName_ : string) (userId : string)
  : Q Response :=
  qtry
    (rt <- runtime ;;
     if negb (businessName_valid rt businessName_) then
       qret (json 400 (Message "UPDATE_BIZ_NAME_VALIDATION_ERROR"))
     else
       user <- getUser userId ;;
       match user with
       | None => qret (json 401 NoContent)
       | Some u =>
           let cooldown := 30 * 60 * 1000 in
           let go :=
             (updatedUser <- updateBusinessName (user_id u) businessName_ ;;
              qret (json 200 (UserJson updatedUser))) in
           match lastBusinessNameChange u with
           | Some changed =>
               let timeSinceLastChange := Date_now rt - changed in
               if timeSinceLastChange <? cooldown then
                 let remainingMinutes := ceil_minutes (cooldown - timeSinceLastChange) in
                 qret (json 400 (Message ("Please wait " ++ show_number remainingMinutes
                         ++ " minutes before changing business name again.")))
               else go
           | None => go
           end
       end)%db
    (fun e => qret (json 500 (Message "Failed to update business name"))).

Definition update_business_name_route (session header : option string)
  (businessName_ : string) : Q (option string * Response) :=
  authenticated session header (update_business_name_handler businessName_).

(** The handler of [api.transactions.delete]; [id] is [req.params.id]. *)
Definition delete_transaction_handler (id : string) (userId : string) : Q Response :=
  (rt <- runtime ;;
   deleteTransaction (Number_of rt id) ;;
   qret (json 204 NoContent))%db.

Definition delete_transaction_route (session header : option string) (id : string)
  : Q (option string * Response) :=
  authenticated session header (delete_transaction_handler id).

(** The handler of [api.customers.get]; [idParam] is [req.params.id]. *)
Definition get_customer_handler (idParam : string) (userId : string) : Q Response :=
  (rt <- runtime ;;
   let id := parseInt rt idParam in
   if isNaN id then qret (json 400 (Message "Invalid customer ID format"))
   else
     customer <- getCustomer id ;;
     match customer with
     | None => qret (json 404 (Message "Customer not found"))
     | Some c =>
         if negb (eq_text (customer_userId c) userId)
         then qret (json 404 (Message "Customer not found"))
         else qret (json 200 (CustomerJson c))
     end)%db.

Definition get_customer_route (session header : option string) (idParam : string)
  : Q (option string * Response) :=
  authenticated session header (get_customer_handler idParam).

(** The handler of [api.auth.setup]; [input] is the value of
    [api.auth.setup.input.parse(req.body)], [None] when it throws. *)
Record SetupInput := {
  setup_businessName : string;
  setup_pin : string;
  setup_email : option string
}.

Definition setup_route (session : option string) (input : option SetupInput)
  : Q (option string * Response) :=
  qtry
    (match input with
     | None => fun _ d => (Throw (mkError "ZodError"), d)
     | Some i =>
         existing <- getUserByBusinessName (setup_businessName i) ;;
         match existing with
         | Some _ => qret (session, json 400 (Message "Business name already taken"))
         | None =>
             let create :=
               (user <- createUser (setup_businessName i) (setup_pin i) (setup_email i) ;;
                qret (Some (user_id user), json 201 (UserJson (Some user)))) in
             if Str.truthy (setup_email i) then
               match setup_email i with
               | Some e =>
                   existingEmail <- getUserByEmail e ;;
                   match existingEmail with
                   | Some _ => qret (session, json 400 (Message "Email already registered"))
                   | None => create
                   end
               | None => create
               end
             else create
         end
     end)%db
    (fun e => qret (session, json 400 (Message "SETUP_ROUTE_INVALID_INPUT"))).

(** The handler of [api.auth.login], for a body with the two texts
    [email] and [pin]. *)
Definition login_route (session : option string) (email_ pin : string)
  : Q (option string * Response) :=
  qtry
    (user <- getUserByEmail email_ ;;
     match user with
     | None => qret (session, json 401 (Message "Invalid email or PIN"))
     | Some u =>
         isValid <- validatePin (user_id u) pin ;;
         if isValid then qret (Some (user_id u), json 200 (UserJson (Some u)))
         else qret (session, json 401 (Message "Invalid email or PIN"))
     end)%db
    (fun e => qret (session, json 500 (Message "Internal server error"))).

(** The handler of [api.auth.forgotPin], for a body with the text
    [email].  A key whose value is [undefined] is not part of the JSON
    sent. *)
Definition forgot_pin_route (email_ : string) : Q Response :=
  qtry
    (user <- getUserByEmail email_ ;;
     match user with
     | None =>
         qret (json 200 (Message
           "If an account exists with this email, a reset code has been sent."))
     | Some u =>
         rt <- runtime ;;
         let tempPin := show_number (Math_random_pin rt) in
         let pinHash_ := bcrypt_hash rt tempPin in
         updatePin (user_id u) pinHash_ ;;
         if negb (eq_text (NODE_ENV rt) "production")
         then qret (json 200 (ResetJson
                "If an account exists with this email, a reset code has been sent."
                tempPin))
         else qret (json 200 (Message
                "If an account exists with this email, a reset code has been sent."))
     end)%db
    (fun e => qret (json 500 (Message "Internal server error"))).

(** The handler of [api.auth.settings.updatePin], for a body with the
    two texts [currentPin] and [newPin]. *)
Definition update_pin_handler (currentPin newPin : string) (userId : string)
  : Q Response :=
  qtry
    (rt <- runtime ;;
     if negb (updatePin_valid rt currentPin newPin) then
       qret (json 400 (Message "UPDATE_PIN_VALIDATION_ERROR"))
     else
       user <- getUser userId ;;
       match user with
       | None => qret (json 401 NoContent)
       | Some u =>
           isValid <- validatePin (user_id u) currentPin ;;
           if negb isValid then qret (json 400 (Message "UPDATE_PIN_INCORRECT_CURRENT"))
           else
             let newPinHash := bcrypt_hash rt newPin in
             updatePin (user_id u) newPinHash ;;
             qret (json 200 (Message "PIN updated successfully"))
       end)%db
    (fun e => qret (json 500 (Message "Failed to update PIN"))).

Definition update_pin_route (session header : option string)
  (currentPin newPin : string) : Q (option string * Response) :=
  authenticated session header (update_pin_handler currentPin newPin).

(** The backup routes run the backup service in place of the storage. *)
Definition authenticated_backup (session header : option string)
  (handler : string -> M Response) : M (option string * Response) :=
  match requireAuth session header with
  | Answered res => ret (session, res)
  | Next userId => res <- handler userId ;; ret (Some userId, res)
  end.

Definition backup_create_route (session header : option string)
  : M (option string * Response) :=
  authenticated_backup session header (fun userId =>
    result <- createBackup userId ;;
    if success result then ret (json 200 (BackupJson result))
    else ret (json 400 (Message (msg result)))).

Definition backup_list_route (session header : option string)
  : M (option string * Response) :=
  authenticated_backup session header (fun userId =>
    backups <- listBackups userId ;;
    ret (json 200 (BackupsJson backups))).

(** [backupId] is [req.body.backupId], a text. *)
Definition backup_restore_route (session header : option string) (backupId : string)
  : M (option string * Response) :=
  authenticated_backup session header (fun userId =>
    restored <- restoreBackup userId backupId ;;
    if restored
    then ret (json 200 (Message "Restore initiated (Not fully implemented in web version)"))
    else ret (json 400 (Message "Restore failed"))).

(** ** Vocabulary of the properties *)

(** *** What a run leaves behind

    [new_events w w'] are the calls made between [w] and [w'].
    [follows P w w'] says that from [w] to [w'] the instance is the
    same object with the same fields, that only calls satisfying [P]
    were made, and that the [users] table is unchanged when [P] admits
    no update of it. *)

Definition new_events (w w' : World) : list Event :=
  skipn (length (trace w)) (trace w').

Definition follows (P : Event -> Prop) (w w' : World) : Prop :=
  this w' = this w /\
  (exists evs, trace w' = (trace w ++ evs)%list /\ Forall P evs) /\
  ((forall u b, ~ P (UpdateUsersStorageUsed u b)) -> users w' = users w).

(** A step that is not a call: nothing of the above moves. *)
Definition silent (w w' : World) : Prop :=
  this w' = this w /\ trace w' = trace w /\ users w' = users w.

(** [steps env t0 P c]: run on a state whose instance is [t0], [c]
    only makes calls that satisfy [P] and leaves the instance alone. *)
Definition steps (env : Env) (t0 : BackupService) (P : Event -> Prop) {A} (c : M A)
  : Prop :=
  forall w, this w = t0 -> follows P w (snd (c env w)).

(** [returns env V c]: a value [c] returns satisfies [V]. *)
Definition returns (env : Env) {A} (V : A -> Prop) (c : M A) : Prop :=
  forall w a w1, c env w = (Ok a, w1) -> V a.

Definition any_event : Event -> Prop := fun _ => True.


Definition writes_only_to (target : path) (ev : Event) : Prop :=
  match ev with
  | WriteFile p _ => p = target
  | _ => True
  end.

Definition usage_calls (evs : list Event) : list (string * Z) :=
  flat_map (fun ev => match ev with
                      | UpdateUsersStorageUsed u b => [(u, b)]
                      | _ => []
                      end) evs.

Definition no_usage_update (ev : Event) : Prop :=
  match ev with
  | UpdateUsersStorageUsed _ _ => False
  | _ => True
  end.

(** Orders on a key, for the result of a sort. *)
Definition not_below {A} (key : A -> Z) (a b : A) : Prop := key b <= key a.
Definition above {A} (key : A -> Z) (a b : A) : Prop := key b < key a.

Definition record_of (file : string) (n : Node) : BackupRecord :=
  {| id := file; name := file; rsize := st_size (FS.stats_of n);
     created_at := st_birthtime (FS.stats_of n) |}.

Definition node_at (f : FileSystem) (p : path) : Node :=
  match FS.lookup f p with
  | Some n => n
  | None => Dir 0 0
  end.

(** *** What each operation touches *)

Definition in_owner_dir (root : path) (userId : string) (p : path) : Prop :=
  Path.is_prefix (root ++ [userId])%list p = true.

(** An object key of the owner's folder: it starts with the owner's id
    and a separator, and it still lies in that folder when its ["."] and
    [".."] segments are resolved. *)
Definition owner_key (userId key : string) : Prop :=
  (exists rest, key = userId ++ "/" ++ rest) /\
  Path.is_prefix [userId] (Path.normalize (Str.split_slash key)) = true.

(** A call that stays inside the namespace of [userId].  A path is in
    the owner's directory, with three exceptions, files of the working
    directory that belong to no owner: [database.db] is tested and
    archived; the staging archive is written by the archiver, measured,
    read, moved into the owner's directory or removed; [restore_temp.zip]
    is written and removed.  An object is in the one bucket, under a key
    of the owner's folder; a listing is of the owner's folder; the bucket
    is the one bucket; and the usage update is of the owner's rows. *)
Definition confined (env : Env) (root : path) (userId : string) (ev : Event) : Prop :=
  match ev with
  | EnsureDir p | Readdir p => in_owner_dir root userId p
  | PathExists p => in_owner_dir root userId p \/ p = db_path env
  | Stat p | ReadFile p => in_owner_dir root userId p \/ p = temp_path env
  | WriteFile p _ => in_owner_dir root userId p \/ p = restore_temp_path env
  | Remove p =>
      in_owner_dir root userId p \/ p = temp_path env \/ p = restore_temp_path env
  | Move src dst => src = temp_path env /\ in_owner_dir root userId dst
  | Zip source out => source = db_path env /\ out = temp_path env
  | GetBucket b | CreateBucket b _ => b = BUCKET
  | Upload b key _ _ | Download b key => b = BUCKET /\ owner_key userId key
  | ListObjects b folder _ => b = BUCKET /\ folder = userId
  | UpdateUsersStorageUsed u _ => u = userId
  end.


(** [s.includes(c)] for one character. *)
Fixpoint has_char (c : ascii) (s : string) : bool :=
  match s with
  | EmptyString => false
  | String x s' => Ascii.eqb x c || has_char c s'
  end.

(** *** Where a backup ends up *)

(** The instance keeps its backups in [<cwd>/backups], as the
    constructor sets it. *)
Definition well_placed (env : Env) (w : World) : Prop :=
  localBackupDir (this w) = Path.join (cwd env) ["backups"].

(** The owner's directory and the file of a local backup made in [env]. *)
Definition owner_backup_dir (env : Env) (userId : string) : path :=
  (Path.normalize (cwd env) ++ ["backups"; userId])%list.

Definition owner_target (env : Env) (userId : string) : path :=
  (Path.normalize (cwd env) ++ ["backups"; userId; backup_file_name env])%list.

(** The key of a cloud backup made in [env]. *)
Definition owner_object_key (env : Env) (userId : string) : string :=
  userId ++ "/" ++ backup_file_name env.

(** No call fails for a reason outside the state. *)
Definition no_faults (env : Env) : Prop := forall ev, fault env ev = None.

(** The instance is one the constructor can leave: cloud mode has a client. *)
Definition consistent_mode (t : BackupService) : Prop :=
  deployMode t = cloud -> client t <> None.

(** ** Vocabulary of the storage properties *)

(** The database rejects no statement. *)
Definition accepts_all (rt : Runtime) : Prop := forall st, rejects rt st = None.

(** The customer rows of [userId] with this phone number and network. *)
Definition known_as (phone network_ userId : string) (c : Customer) : bool :=
  String.eqb (phoneNumber c) phone && String.eqb (network c) network_
  && eq_text (customer_userId c) userId.

(** The owner of the first transaction of a customer, when it has one. *)
Definition first_owner (txs : list Transaction) (c : Customer) : option string :=
  match first_row (filter (fun t => eq_int (tx_customerId t) (customer_id c)) txs) with
  | Some t => if Str.truthy (tx_userId t) then tx_userId t else None
  | None => None
  end.

(** A customer row after the migration. *)
Definition migrated (txs : list Transaction) (c : Customer) : Customer :=
  if is_null (customer_userId c) then
    match first_owner txs c with
    | Some owner => with_customer_userId owner c
    | None => c
    end
  else c.

(** What one round of the migration loop, for the customer [o], does to
    a row [c], and what the rounds for [os] do. *)
Definition migrate_row (txs : list Transaction) (o c : Customer) : Customer :=
  match first_owner txs o with
  | Some owner =>
      if Z.eqb (customer_id c) (customer_id o) then with_customer_userId owner c else c
  | None => c
  end.


Definition migrate_rows (txs : list Transaction) (os : list Customer) (c : Customer)
  : Customer :=
  fold_left (fun c' o => migrate_row txs o c') os c.

(** ** Concrete runs *)

Module Demo.

Definition no_fault : Event -> option Error := fun _ => None.

Definition clock : list IsoChar :=
  Eval cbv in Iso.of_string "2024-05-06T07:08:09.123Z".

Definition env0 : Env :=
  {| cwd := ["srv"; "app"];
     SUPABASE_URL := None;
     SUPABASE_KEY := None;
     createClient := fun u k => Some {| supabaseUrl := u; supabaseKey := k |};
     iso_now := clock;
     now_ms := 1714979289123;
     archive := fun c => (Byte.x50 :: Byte.x4b :: c)%list;
     archive_directory := [Byte.x50; Byte.x4b; Byte.x2f];
     archive_empty := [Byte.x50; Byte.x4b];
     fault := no_fault;
     stream_fault := fun _ => None;
     garbled := fun _ => None |}.

Definition env_cloud : Env :=
  {| cwd := cwd env0;
     SUPABASE_URL := Some "https://x.supabase.co";
     SUPABASE_KEY := Some "key";
     createClient := createClient env0;
     iso_now := iso_now env0; now_ms := now_ms env0;
     archive := archive env0; archive_directory := archive_directory env0;
     archive_empty := archive_empty env0; fault := no_fault;
     stream_fault := stream_fault env0; garbled := garbled env0 |}.

Definition with_fault (env : Env) (f : Event -> option Error) : Env :=
  {| cwd := cwd env; SUPABASE_URL := SUPABASE_URL env; SUPABASE_KEY := SUPABASE_KEY env;
     createClient := createClient env; iso_now := iso_now env;
     now_ms := now_ms env;
     archive := archive env; archive_directory := archive_directory env;
     archive_empty := archive_empty env; fault := f;
     stream_fault := stream_fault env; garbled := garbled env |}.

Definition db : path * Node := (["srv"; "app"; "database.db"], File [Byte.x01; Byte.x02; Byte.x03] 5).

Definition boot : World :=
  {| this := fresh_instance; fs := [db];
     store := {| buckets := []; objects := [] |};
     users := [ {| user_id := "A"; businessName := "Shop A"; pinHash := "h"; email := None;
                   createdAt := 1; storageUsed := 0; storageLimit := 4;
                   lastBusinessNameChange := None |};
                {| user_id := "B"; businessName := "Shop B"; pinHash := "g"; email := None;
                   createdAt := 2; storageUsed := 7; storageLimit := 100;
                   lastBusinessNameChange := None |} ];
     trace := [] |}.

(** The state after module load. *)
Definition started (env : Env) : World := snd (constructor env boot).

Definition upload_fails (ev : Event) : option Error :=
  match ev with
  | Upload _ _ _ _ => Some {| message := "upload failed"; status := Some 500 |}
  | _ => None
  end.

Definition db_fails (ev : Event) : option Error :=
  match ev with
  | UpdateUsersStorageUsed _ _ => Some (mkError "connection terminated")
  | _ => None
  end.

Definition list_fails (ev : Event) : option Error :=
  match ev with
  | ListObjects _ _ _ => Some {| message := "fetch failed"; status := None |}
  | _ => None
  end.

Definition zip_fails (ev : Event) : option Error :=
  match ev with
  | Zip _ _ => Some (mkError "EACCES: permission denied, read")
  | _ => None
  end.

(** An environment in which no file of the working directory can be
    opened for writing. *)
Definition read_only_cwd (env : Env) : Env :=
  {| cwd := cwd env; SUPABASE_URL := SUPABASE_URL env; SUPABASE_KEY := SUPABASE_KEY env;
     createClient := createClient env; iso_now := iso_now env;
     now_ms := now_ms env;
     archive := archive env; archive_directory := archive_directory env;
     archive_empty := archive_empty env; fault := fault env;
     stream_fault := fun p => Some (mkError "EACCES: permission denied, open");
     garbled := garbled env |}.

(** An environment in which the storage server answers a listing with
    status 200 and the body [g]. *)
Definition list_answers (env : Env) (g : Garbled) : Env :=
  {| cwd := cwd env; SUPABASE_URL := SUPABASE_URL env; SUPABASE_KEY := SUPABASE_KEY env;
     createClient := createClient env; iso_now := iso_now env;
     now_ms := now_ms env;
     archive := archive env; archive_directory := archive_directory env;
     archive_empty := archive_empty env; fault := list_fails;
     stream_fault := stream_fault env;
     garbled := fun ev => match ev with ListObjects _ _ _ => Some g | _ => None end |}.

(** Local mode, after owner B has made a backup. *)
Definition local_with_backup_of_B : World :=
  snd (createBackup "B" env0 (started env0)).

(** Cloud mode, after owner A has made a backup. *)
Definition cloud_with_backup_of_A : World :=
  snd (createBackup "A" env_cloud (started env_cloud)).

Definition backup_name : string := "backup_2024-05-06T07-08-09_GMT.zip".

(** A local instance whose owner A has three backups, listed by the
    file system in the order second, third, first. *)
Definition three_local : World :=
  {| this := {| client := None; deployMode := local;
                localBackupDir := ["srv"; "app"; "backups"] |};
     fs := [ (["srv"; "app"; "backups"], Dir 0 1);
             (["srv"; "app"; "backups"; "A"], Dir 0 2);
             (["srv"; "app"; "backups"; "A"; "b2.zip"], File [Byte.x02; Byte.x02] 20);
             (["srv"; "app"; "backups"; "A"; "b3.zip"], File [Byte.x03] 30);
             (["srv"; "app"; "backups"; "A"; "b1.zip"], File [] 10);
             (["srv"; "app"; "backups"; "B"], Dir 0 3);
             (["srv"; "app"; "backups"; "B"; "other.zip"], File [Byte.x09] 40) ];
     store := {| buckets := []; objects := [] |};
     users := [];
     trace := [] |}.

Definition object_of (t : Z) : StoredObject :=
  {| body := [Byte.x01]; meta_size := Some 1; obj_created_at := t |}.

(** A cloud instance whose owner A has three objects, held by the store
    in the order third, first, second. *)
Definition three_cloud : World :=
  {| this := {| client := Some {| supabaseUrl := "https://x.supabase.co";
                                  supabaseKey := "key" |};
                deployMode := cloud;
                localBackupDir := ["srv"; "app"; "backups"] |};
     fs := [];
     store := {| buckets := [("momo-backups", bucket_options)];
                 objects := [ ("momo-backups", "A/b3.zip", object_of 30);
                              ("momo-backups", "B/other.zip", object_of 40);
                              ("momo-backups", "A/b1.zip", object_of 10);
                              ("momo-backups", "A/b2.zip", object_of 20) ] |};
     users := [];
     trace := [] |}.

End Demo.

(** Further concrete environments and states. *)
Module Cases.

Definition create_bucket_fails (ev : Event) : option Error :=
  match ev with
  | CreateBucket _ _ => Some {| message := "permission denied"; status := Some 403 |}
  | _ => None
  end.

Definition local_start : World := Demo.started Demo.env0.
Definition cloud_start : World := Demo.started Demo.env_cloud.

Definition local_after_backup : World :=
  Eval cbv in snd (createBackup "A" Demo.env0 local_start).
Definition cloud_after_backup : World :=
  Eval cbv in snd (createBackup "A" Demo.env_cloud cloud_start).

Definition ok_local : BackupResult :=
  {| success := true; size := 5; msg := "Backup successful (local)" |}.
Definition ok_cloud : BackupResult :=
  {| success := true; size := 5; msg := "Backup successful (cloud)" |}.

End Cases.

(** A shop with two users, three customers and two transactions. *)
Module Shop.

Definition accept (st : Statement) : option Error := None.

(** [trim] on texts whose blanks are spaces. *)
Fixpoint drop_spaces (s : list ascii) : list ascii :=
  match s with
  | c :: s' => if Ascii.eqb c " " then drop_spaces s' else s
  | [] => []
  end.

Definition trim_spaces (s : string) : string :=
  string_of_list_ascii
    (rev (drop_spaces (rev (drop_spaces (list_ascii_of_string s))))).

(** [parseInt] on a text without blanks, sign or radix prefix: the
    number its leading decimal digits spell, [NaN] when it has none. *)
Fixpoint leading_digits (acc : option Z) (s : string) : option Z :=
  match s with
  | EmptyString => acc
  | String c s' =>
      let n := Z.of_nat (nat_of_ascii c) in
      if (48 <=? n) && (n <=? 57)
      then leading_digits
             (Some (10 * match acc with Some a => a | None => 0 end + (n - 48))) s'
      else acc
  end.

Definition parse_int (s : string) : number :=
  match leading_digits None s with
  | Some z => Num z
  | None => NaN
  end.

(** [Number] on such a text: the number its decimal digits spell, [0]
    for the empty text, [NaN] when another character occurs. *)
Fixpoint digits (acc : Z) (s : string) : option Z :=
  match s with
  | EmptyString => Some acc
  | String c s' =>
      let n := Z.of_nat (nat_of_ascii c) in
      if (48 <=? n) && (n <=? 57) then digits (10 * acc + (n - 48)) s' else None
  end.

Definition to_number (s : string) : number :=
  match digits 0 s with
  | Some z => Num z
  | None => NaN
  end.

(** The text a [decimal(12, 2)] column holds for a text of decimal
    digits written to it. *)
Definition two_places (s : string) : string :=
  if has_char "." s then s else s ++ ".00".

Fixpoint without_dot (s : string) : string :=
  match s with
  | EmptyString => EmptyString
  | String c s' => if Ascii.eqb c "." then without_dot s' else String c (without_dot s')
  end.

(** [Number] on the text of such a column, counted in hundredths. *)
Definition amount_of (s : string) : Z :=
  match digits 0 (without_dot s) with
  | Some z => z
  | None => 0
  end.

Definition salted (pin : string) : string := "$2a$10$" ++ pin.

Definition rt0 : Runtime :=
  {| randomUUID := "u-3";
     Date_now := 1700000000000;
     Date_toISOString := "2023-11-14T22:13:20.000Z";
     bcrypt_hash := salted;
     bcrypt_compare := fun pin hash => String.eqb hash (salted pin);
     trim := trim_spaces;
     parseInt := parse_int;
     Number_of := to_number;
     businessName_valid := fun name => negb (String.eqb name "");
     updatePin_valid := fun currentPin newPin => Nat.eqb (String.length newPin) 4;
     Math_random_pin := 4711;
     NODE_ENV := Some "development";
     decimal := two_places;
     rejects := accept |}.

(** The same runtime at a later time. *)
Definition later (ms : Z) : Runtime :=
  {| randomUUID := "u-4";
     Date_now := Date_now rt0 + ms;
     Date_toISOString := Date_toISOString rt0;
     bcrypt_hash := bcrypt_hash rt0;
     bcrypt_compare := bcrypt_compare rt0;
     trim := trim rt0;
     parseInt := parseInt rt0;
     Number_of := Number_of rt0;
     businessName_valid := businessName_valid rt0;
     updatePin_valid := updatePin_valid rt0;
     Math_random_pin := Math_random_pin rt0;
     NODE_ENV := NODE_ENV rt0;
     decimal := decimal rt0;
     rejects := rejects rt0 |}.

(** A database that rejects every update of a customer. *)
Definition read_only_customers : Runtime :=
  {| randomUUID := "u-4";
     Date_now := Date_now rt0;
     Date_toISOString := Date_toISOString rt0;
     bcrypt_hash := bcrypt_hash rt0;
     bcrypt_compare := bcrypt_compare rt0;
     trim := trim rt0;
     parseInt := parseInt rt0;
     Number_of := Number_of rt0;
     businessName_valid := businessName_valid rt0;
     updatePin_valid := updatePin_valid rt0;
     Math_random_pin := Math_random_pin rt0;
     NODE_ENV := NODE_ENV rt0;
     decimal := decimal rt0;
     rejects := fun st =>
       match st with
       | UpdateCustomerUserId _ _ => Some (mkError "permission denied for table customers")
       | _ => None
       end |}.

Definition user (id name : string) : User :=
  {| user_id := id; businessName := name; pinHash := salted "1234";
     email := Some (name ++ "@example.com"); createdAt := 0; storageUsed := 0;
     storageLimit := 15 * 1024 * 1024 * 1024; lastBusinessNameChange := None |}.

Definition kwame : Customer :=
  {| customer_id := 1; customer_name := "Kwame Mensah"; phoneNumber := "0244123456";
     network := "MTN MoMo"; customer_userId := Some "u-1"; customer_createdAt := 10 |}.

Definition ama : Customer :=
  {| customer_id := 2; customer_name := "Ama Owusu"; phoneNumber := "0200000000";
     network := "Telecel"; customer_userId := None; customer_createdAt := 20 |}.

Definition kofi : Customer :=
  {| customer_id := 3; customer_name := "Kofi Boateng"; phoneNumber := "0270000000";
     network := "AT Money"; customer_userId := Some "u-2"; customer_createdAt := 30 |}.

Definition sold (id customer : Z) (owner : string) : Transaction :=
  {| tx_id := id; tx_date := "2023-11-14"; tx_time := "10:30"; tx_type := "Cash In";
     tx_amount := "500.00"; tx_fee := Some "5.00"; tx_notes := Some "";
     tx_customerId := Some customer; tx_userId := Some owner; tx_createdAt := 40 |}.

Definition shop : Database :=
  {| db_users := [user "u-1" "MoMo Vendor"; user "u-2" "Other Vendor"];
     db_customers := [kwame; ama; kofi];
     db_transactions := [sold 1 2 "u-2"; sold 2 3 "u-2"];
     customers_id_seq := 4;
     transactions_id_seq := 3 |}.

(** A sale to a known customer, and a sale to a new one. *)
Definition sale (phone : string) : TransactionInput :=
  {| in_type := "Cash Out"; in_amount := "200"; in_fee := None;
     in_date := "2023-11-14"; in_time := "11:00"; in_notes := None;
     customerName := "Yaw Darko"; in_phoneNumber := phone; in_network := "MTN MoMo" |}.

Definition after_sale : Database :=
  Eval cbv in snd (createTransaction (sale " 0244123456 ") "u-1" rt0 shop).
Definition sale_row : Transaction :=
  Eval cbv in
    match fst (createTransaction (sale " 0244123456 ") "u-1" rt0 shop) with
    | Ok t => t
    | _ => sold 0 0 ""
    end.

Definition after_new : Database :=
  Eval cbv in snd (createTransaction (sale "0555000111") "u-1" rt0 shop).
Definition new_row : Transaction :=
  Eval cbv in
    match fst (createTransaction (sale "0555000111") "u-1" rt0 shop) with
    | Ok t => t
    | _ => sold 0 0 ""
    end.
Definition after_second : Database :=
  Eval cbv in snd (createTransaction (sale "0555000111 ") "u-1" (later 1000) after_new).
Definition second_row : Transaction :=
  Eval cbv in
    match fst (createTransaction (sale "0555000111 ") "u-1" (later 1000) after_new) with
    | Ok t => t
    | _ => sold 0 0 ""
    end.

Definition renamed : Database :=
  Eval cbv in snd (update_business_name_handler "MoMo Hub" "u-1" rt0 shop).
Definition renamed_user : User :=
  Eval cbv in with_businessName "MoMo Hub" (Date_now rt0) (user "u-1" "MoMo Vendor").

Definition newcomer : SetupInput :=
  {| setup_businessName := "New Vendor"; setup_pin := "4321";
     setup_email := Some "new@example.com" |}.
Definition after_setup : Database :=
  Eval cbv in snd (setup_route None (Some newcomer) rt0 shop).
Definition newcomer_row : User :=
  {| user_id := "u-3"; businessName := "New Vendor"; pinHash := salted "4321";
     email := Some "new@example.com"; createdAt := 1700000000000; storageUsed := 0;
     storageLimit := 16106127360; lastBusinessNameChange := None |}.

End Shop.

Lemma new_events_app w w' evs :
  trace w' = (trace w ++ evs)%list -> new_events w w' = evs.
Proof.
  intros H. unfold new_events. rewrite H.
  rewrite skipn_app, skipn_all, Nat.sub_diag. reflexivity.
Qed.

Lemma follows_refl P w : follows P w w.
Proof.
  repeat split; auto. exists []. rewrite app_nil_r. auto.
Qed.

Lemma follows_trans P w1 w2 w3 :
  follows P w1 w2 -> follows P w2 w3 -> follows P w1 w3.
Proof.
  intros (Ht & (e1 & Htr1 & HP1) & Hu) (Ht' & (e2 & Htr2 & HP2) & Hu').
  repeat split.
  - congruence.
  - exists (e1 ++ e2)%list. split.
    + rewrite Htr2, Htr1, app_assoc. reflexivity.
    + apply Forall_app; auto.
  - intros H. rewrite Hu', Hu; auto.
Qed.

Lemma follows_log (P : Event -> Prop) ev w w' :
  P ev -> silent (log ev w) w' ->
  (forall u b, ev <> UpdateUsersStorageUsed u b) ->
  follows P w w'.
Proof.
  intros HP (Ht & Htr & Hu) Hne. repeat split.
  - rewrite Ht. reflexivity.
  - exists [ev]. rewrite Htr. simpl. auto.
  - intros _. rewrite Hu. reflexivity.
Qed.

Lemma follows_new_events P w w' :
  follows P w w' -> Forall P (new_events w w').
Proof.
  intros (_ & (evs & Htr & HP) & _). rewrite (new_events_app _ _ _ Htr). exact HP.
Qed.

Section Steps.
Variable env : Env.
Variable t0 : BackupService.
Variable P : Event -> Prop.

Lemma steps_ret {A} (a : A) : steps env t0 P (ret a).
Proof. intros w _. apply follows_refl. Qed.

Lemma steps_throw {A} (e : Error) : steps env t0 P (@throw A e).
Proof. intros w _. apply follows_refl. Qed.

Lemma steps_bind {A B} (c : M A) (k : A -> M B) :
  steps env t0 P c -> (forall a, steps env t0 P (k a)) -> steps env t0 P (bind c k).
Proof.
  intros Hc Hk w Hw. unfold bind.
  specialize (Hc w Hw). destruct (c env w) as [[a | e | e] w1]; simpl in *.
  - eapply follows_trans; [exact Hc |]. apply Hk.
    destruct Hc as (Ht & _). congruence.
  - exact Hc.
  - exact Hc.
Qed.

Lemma returns_ret {A} (V : A -> Prop) a : V a -> returns env V (ret a).
Proof. intros H w a' w1 E. inversion E. subst. exact H. Qed.

Lemma returns_throw {A} (V : A -> Prop) e : returns env V (throw e).
Proof. intros w a' w1 E. inversion E. Qed.

Lemma returns_bind {A B} (V : B -> Prop) (c : M A) (k : A -> M B) :
  (forall a, returns env V (k a)) -> returns env V (bind c k).
Proof.
  intros Hk w b w1. unfold bind.
  destruct (c env w) as [[a | e | e] w2]; [apply Hk | discriminate | discriminate].
Qed.

Lemma steps_bind_val {A B} (V : A -> Prop) (c : M A) (k : A -> M B) :
  returns env V c -> steps env t0 P c -> (forall a, V a -> steps env t0 P (k a)) -> steps env t0 P (bind c k).
Proof.
  intros Hv Hc Hk w Hw. unfold bind.
  specialize (Hc w Hw). specialize (Hv w).
  destruct (c env w) as [[a | e | e] w1]; simpl in *.
  - eapply follows_trans; [exact Hc |]. apply Hk; [eapply Hv; reflexivity |].
    destruct Hc as (Ht & _). congruence.
  - exact Hc.
  - exact Hc.
Qed.

Lemma steps_ask {B} (k : Env -> M B) : steps env t0 P (k env) -> steps env t0 P (bind ask k).
Proof. intros Hk w Hw. exact (Hk w Hw). Qed.

Lemma steps_get_this {B} (k : BackupService -> M B) :
  steps env t0 P (k t0) -> steps env t0 P (bind get_this k).
Proof.
  intros Hk w Hw. unfold bind, get_this. rewrite Hw. exact (Hk w Hw).
Qed.

Lemma steps_try_catch {A} (body : M A) (handler : Error -> M A) :
  steps env t0 P body -> (forall e, steps env t0 P (handler e)) -> steps env t0 P (try_catch body handler).
Proof.
  intros Hb Hh w Hw. unfold try_catch.
  specialize (Hb w Hw). destruct (body env w) as [[a | e | e] w1]; simpl in *.
  - exact Hb.
  - eapply follows_trans; [exact Hb |]. apply Hh.
    destruct Hb as (Ht & _). congruence.
  - exact Hb.
Qed.

Lemma steps_call {A} ev (act : Env -> World -> Outcome A * World) :
  P ev -> (forall u b, ev <> UpdateUsersStorageUsed u b) ->
  (forall w, silent w (snd (act env w))) ->
  steps env t0 P (call ev act).
Proof.
  intros HP Hne Hact w _. unfold call.
  destruct (fault env ev).
  - simpl. apply (follows_log P ev); auto. repeat split.
  - apply (follows_log P ev); auto.
Qed.

Lemma steps_client_call {A} ev (act : Env -> World -> (Error + A) * World) :
  P ev -> (forall u b, ev <> UpdateUsersStorageUsed u b) ->
  (forall w, silent w (snd (act env w))) ->
  steps env t0 P (client_call ev act).
Proof.
  intros HP Hne Hact w _. unfold client_call.
  destruct (fault env ev).
  - simpl. apply (follows_log P ev); auto. repeat split.
  - specialize (Hact (log ev w)).
    destruct (act env (log ev w)) as [r w2]. simpl in *.
    apply (follows_log P ev); auto.
Qed.

Ltac silent_act :=
  intros; simpl;
  repeat match goal with
         | |- context [match ?x with _ => _ end] => destruct x
         end;
  simpl; repeat split.

Lemma write_node_silent w p buf w' :
  write_node env w p buf = Some w' -> silent w w'.
Proof.
  unfold write_node. intros H.
  destruct (FS.lookup (fs w) p) as [[c b | s b] |]; inversion H; repeat split.
Qed.

Lemma steps_ensureDir p : P (EnsureDir p) -> steps env t0 P (ensureDir p).
Proof. intros. apply steps_call; auto; [discriminate | silent_act]. Qed.

Lemma steps_pathExists p : P (PathExists p) -> steps env t0 P (pathExists p).
Proof.
  intros HP w _. unfold pathExists. simpl.
  apply (follows_log P (PathExists p)); auto; [repeat split | discriminate].
Qed.

Lemma steps_stat p : P (Stat p) -> steps env t0 P (stat p).
Proof. intros. apply steps_call; auto; [discriminate | silent_act]. Qed.

Lemma steps_readdir p : P (Readdir p) -> steps env t0 P (readdir p).
Proof. intros. apply steps_call; auto; [discriminate | silent_act]. Qed.

Lemma steps_readFile p : P (ReadFile p) -> steps env t0 P (readFile p).
Proof. intros. apply steps_call; auto; [discriminate | silent_act]. Qed.

Lemma steps_writeFile p buf : P (WriteFile p buf) -> steps env t0 P (writeFile p buf).
Proof.
  intros. apply steps_call; auto; [discriminate |].
  intros w. destruct (write_node env w p buf) eqn:E; simpl.
  - eapply write_node_silent; eauto.
  - repeat split.
Qed.

Lemma steps_move src dst : P (Move src dst) -> steps env t0 P (move src dst).
Proof. intros. apply steps_call; auto; [discriminate | silent_act]. Qed.

Lemma steps_remove p : P (Remove p) -> steps env t0 P (remove p).
Proof. intros. apply steps_call; auto; [discriminate | silent_act]. Qed.

Lemma steps_zipDatabase source out :
  P (Zip source out) -> steps env t0 P (zipDatabase source out).
Proof.
  intros HP w _. unfold zipDatabase.
  assert (Hlog : follows P w (log (Zip source out) w)).
  { apply (follows_log P (Zip source out)); auto; [repeat split | discriminate]. }
  assert (Hsil : forall w1 w2, silent (log (Zip source out) w) w1 -> silent w1 w2 ->
                   follows P w w2).
  { intros w1 w2 (a & b & c) (a' & b' & c').
    apply (follows_log P (Zip source out)); auto; [| discriminate].
    repeat split; congruence. }
  destruct (stream_fault env out); [exact Hlog |].
  destruct (write_node env (log (Zip source out) w) out []) as [w2 |] eqn:E1;
    [| exact Hlog].
  apply write_node_silent in E1.
  assert (Hw2 : follows P w w2) by (apply (Hsil w2 w2); auto; repeat split).
  destruct (fault env (Zip source out)); [exact Hw2 |].
  destruct (write_node env w2 out _) as [w3 |] eqn:E2; [| exact Hw2].
  apply write_node_silent in E2. apply (Hsil w2 w3); auto.
Qed.

Lemma steps_getBucket b : P (GetBucket b) -> steps env t0 P (getBucket b).
Proof. intros. apply steps_client_call; auto; [discriminate | silent_act]. Qed.

Lemma steps_createBucket b o : P (CreateBucket b o) -> steps env t0 P (createBucket b o).
Proof. intros. apply steps_client_call; auto; [discriminate | silent_act]. Qed.

Lemma steps_upload b k buf o : P (Upload b k buf o) -> steps env t0 P (upload b k buf o).
Proof. intros. apply steps_client_call; auto; [discriminate | silent_act]. Qed.

Lemma steps_list_objects b f o : P (ListObjects b f o) -> steps env t0 P (list_objects b f o).
Proof.
  intros HP w _. unfold list_objects. cbv zeta.
  assert (Hlog : follows P w (log (ListObjects b f o) w)).
  { apply (follows_log P (ListObjects b f o)); auto; [repeat split | discriminate]. }
  destruct (fault env _); [destruct (garbled env _); exact Hlog |].
  destruct (Store.bucket_lookup _ b); exact Hlog.
Qed.

Lemma steps_data_map data : steps env t0 P (data_map data).
Proof.
  destruct data as [| | items]; simpl; try apply steps_throw.
  destruct (map_items items); [apply steps_throw | apply steps_ret].
Qed.

Lemma steps_download b k : P (Download b k) -> steps env t0 P (download b k).
Proof. intros. apply steps_client_call; auto; [discriminate | silent_act]. Qed.

Lemma steps_updateStorageUsage u b :
  P (UpdateUsersStorageUsed u b) -> steps env t0 P (updateStorageUsage u b).
Proof.
  intros HP w _. unfold updateStorageUsage, call.
  destruct (fault env _); simpl; repeat split;
    try (exists [UpdateUsersStorageUsed u b]; simpl; auto);
    intros Hno; exfalso; exact (Hno _ _ HP).
Qed.

Lemma steps_promise_all {A} (cs : list (M A)) :
  Forall (steps env t0 P) cs -> steps env t0 P (promise_all cs).
Proof.
  induction 1 as [| c cs Hc _ IH]; simpl.
  - apply steps_ret.
  - intros w Hw. specialize (Hc w Hw).
    destruct (c env w) as [[a | e | e] w1]; simpl in *.
    + assert (Hw1 : this w1 = t0) by (destruct Hc as (Ht & _); congruence).
      specialize (IH w1 Hw1).
      destruct (promise_all cs env w1) as [[l | e | e] w2]; simpl in *;
        eapply follows_trans; eauto.
    + assert (Hw1 : this w1 = t0) by (destruct Hc as (Ht & _); congruence).
      specialize (IH w1 Hw1).
      destruct (promise_all cs env w1) as [[l | e' | e'] w2]; simpl in *;
        eapply follows_trans; eauto.
    + exact Hc.
Qed.

End Steps.

Ltac steps_go :=
  repeat lazymatch goal with
    | |- forall _, _ => intro
    | |- steps _ _ _ (match ?x with _ => _ end) => destruct x eqn:?
    | |- steps _ _ _ (bind ask _) => apply steps_ask
    | |- steps _ _ _ (bind get_this _) => apply steps_get_this
    | |- steps _ _ _ (bind _ _) => apply steps_bind
    | |- steps _ _ _ (ret _) => apply steps_ret
    | |- steps _ _ _ (throw _) => apply steps_throw
    | |- steps _ _ _ (try_catch _ _) => apply steps_try_catch
    | |- steps _ _ _ (ensureDir _) => apply steps_ensureDir
    | |- steps _ _ _ (pathExists _) => apply steps_pathExists
    | |- steps _ _ _ (stat _) => apply steps_stat
    | |- steps _ _ _ (readdir _) => apply steps_readdir
    | |- steps _ _ _ (readFile _) => apply steps_readFile
    | |- steps _ _ _ (writeFile _ _) => apply steps_writeFile
    | |- steps _ _ _ (move _ _) => apply steps_move
    | |- steps _ _ _ (remove _) => apply steps_remove
    | |- steps _ _ _ (zipDatabase _ _) => apply steps_zipDatabase
    | |- steps _ _ _ (getBucket _) => apply steps_getBucket
    | |- steps _ _ _ (createBucket _ _) => apply steps_createBucket
    | |- steps _ _ _ (upload _ _ _ _) => apply steps_upload
    | |- steps _ _ _ (list_objects _ _ _) => apply steps_list_objects
    | |- steps _ _ _ (data_map _) => apply steps_data_map
    | |- steps _ _ _ (download _ _) => apply steps_download
    | |- steps _ _ _ (updateStorageUsage _ _) => apply steps_updateStorageUsage
    end.

(** ** The cloud listing *)

Lemma map_items_some items :
  map_items (map Some items) = inr (map cloud_record items).
Proof.
  induction items as [| item items IH]; simpl; [reflexivity |].
  rewrite IH. reflexivity.
Qed.

(** A malformed answer makes [data.map] throw. *)
Lemma data_map_garbled g env w :
  exists e, data_map (garbled_data g) env w = (Throw e, w).
Proof. destruct g; eexists; reflexivity. Qed.

(** The cloud branch of [listBackups], case by case. *)
Lemma listBackups_cloud env w userId c :
  cloud_client (this w) = Some c ->
  let ev := ListObjects BUCKET userId list_options in
  listBackups userId env w
  = match fault env ev with
    | Some e =>
        match garbled env ev with
        | Some g => data_map (garbled_data g) env (log ev w)
        | None => (Ok [], log ev w)
        end
    | None =>
        match Store.bucket_lookup (store w) BUCKET with
        | None => (Ok [], log ev w)
        | Some _ =>
            (Ok (map cloud_record (Store.list_items (store w) BUCKET userId list_options)),
             log ev w)
        end
    end.
Proof.
  intros Hc. unfold listBackups, bind, get_this. rewrite Hc.
  unfold list_objects. cbv zeta.
  destruct (fault env _); [destruct (garbled env _); reflexivity |].
  change (store (log (ListObjects BUCKET userId list_options) w)) with (store w).
  destruct (Store.bucket_lookup (store w) BUCKET); [| reflexivity].
  unfold data_map. rewrite map_items_some. reflexivity.
Qed.

(** Where a listing gives the empty array: an error answer of the
    client, and any error thrown in the local branch; an owner without
    backups - no directory, no entry in it, no bucket, or no object
    under the owner's folder - when the call goes as the state says. *)
Lemma listBackups_empty (env : Env) (w : World) (userId : string) :
  (forall c e,
     cloud_client (this w) = Some c ->
     fault env (ListObjects BUCKET userId list_options) = Some e ->
     garbled env (ListObjects BUCKET userId list_options) = None ->
     fst (listBackups userId env w) = Ok []) /\
  (forall e w1,
     cloud_client (this w) = None ->
     listBackups_local_try (this w) userId env w = (Throw e, w1) ->
     listBackups userId env w = (Ok [], w1)) /\
  (cloud_client (this w) = None ->
   FS.exists_ (fs w) (Path.join (localBackupDir (this w)) [userId]) = false ->
   fst (listBackups userId env w) = Ok []) /\
  (cloud_client (this w) = None ->
   FS.children (fs w) (Path.join (localBackupDir (this w)) [userId]) = [] ->
   fst (listBackups userId env w) = Ok []) /\
  (forall c,
     cloud_client (this w) = Some c ->
     fault env (ListObjects BUCKET userId list_options) = None ->
     Store.items_in BUCKET userId (objects (store w)) = [] ->
     fst (listBackups userId env w) = Ok []).
Proof.
  split; [| split; [| split; [| split]]].
  - intros c e Hc Hf Hg. rewrite (listBackups_cloud env w userId c Hc). cbv zeta.
    rewrite Hf, Hg. reflexivity.
  - intros e w1 Hc H. unfold listBackups, bind, get_this. rewrite Hc.
    unfold try_catch. rewrite H. reflexivity.
  - intros Hc Hdir. unfold listBackups, bind, get_this. rewrite Hc.
    unfold try_catch, listBackups_local_try, bind, pathExists. rewrite Hdir.
    destruct (fault env _); reflexivity.
  - intros Hc Hdir. unfold listBackups, bind, get_this. rewrite Hc.
    unfold try_catch, listBackups_local_try, bind, pathExists.
    destruct (match fault env _ with Some _ => false | None => _ end);
      [| reflexivity].
    cbn [negb]. unfold readdir, call.
    destruct (fault env (Readdir _)); [reflexivity |].
    cbn [fs log]. rewrite Hdir.
    destruct (FS.lookup (fs w) _) as [[c b | s b] |]; reflexivity.
  - intros c Hc Hf Hitems. rewrite (listBackups_cloud env w userId c Hc). cbv zeta.
    rewrite Hf. destruct (Store.bucket_lookup _ _); [| reflexivity].
    unfold Store.list_items. rewrite Hitems. reflexivity.
Qed.

(** ** The instance after construction *)

Lemma createBackup_keeps_this env w userId :
  this (snd (createBackup userId env w)) = this w.
Proof.
  assert (H : steps env (this w) any_event (createBackup userId)).
  { unfold createBackup, createBackup_try, stage_and_store, store_archive, ensure_bucket.
    steps_go; exact I. }
  exact (proj1 (H w eq_refl)).
Qed.

Lemma listBackups_keeps_this env w userId :
  this (snd (listBackups userId env w)) = this w.
Proof.
  assert (H : steps env (this w) any_event (listBackups userId)).
  { unfold listBackups, listBackups_local_try.
    steps_go; try exact I.
    apply steps_promise_all. apply Forall_forall. intros c Hc.
    apply in_map_iff in Hc. destruct Hc as (f & <- & _).
    unfold local_record. steps_go; exact I. }
  exact (proj1 (H w eq_refl)).
Qed.

Lemma restoreBackup_keeps_this env w userId backupId :
  this (snd (restoreBackup userId backupId env w)) = this w.
Proof.
  assert (H : steps env (this w) any_event (restoreBackup userId backupId)).
  { unfold restoreBackup, restoreBackup_try. steps_go; exact I. }
  exact (proj1 (H w eq_refl)).
Qed.

Lemma truthy_spec o :
  Str.truthy o = true <-> exists s, o = Some s /\ s <> "".
Proof.
  destruct o as [s |]; simpl.
  - rewrite negb_true_iff, String.eqb_neq. split.
    + intros H. exists s. auto.
    + intros (s' & E & H). inversion E. subst. exact H.
  - split; [discriminate | intros (s & E & _); discriminate].
Qed.

(** C2. Mode resolution.  When the constructor returns, the mode is
    cloud exactly if both variables are set to a non-empty string, the
    endpoint starts with "http" and [createClient] did not throw; in
    every other case it is local.  In cloud mode the client is set.  No
    later operation changes any field of the instance. *)
Theorem mode_resolution (env : Env) (w w' : World) :
  constructor env w = (Ok tt, w') ->
  (deployMode (this w') = cloud <->
     exists url key c,
       SUPABASE_URL env = Some url /\ SUPABASE_KEY env = Some key /\
       url <> "" /\ key <> "" /\ Str.startsWith url "http" = true /\
       createClient env url key = Some c) /\
  (deployMode (this w') <> cloud -> deployMode (this w') = local) /\
  (deployMode (this w') = cloud -> client (this w') <> None) /\
  (forall env2 w2 userId backupId,
      this (snd (createBackup userId env2 w2)) = this w2 /\
      this (snd (listBackups userId env2 w2)) = this w2 /\
      this (snd (restoreBackup userId backupId env2 w2)) = this w2).
Proof.
  intros Hrun.
  assert (Hlocal : deployMode (this w') <> cloud -> deployMode (this w') = local).
  { destruct (deployMode (this w')); congruence. }
  assert (Hlater : forall env2 w2 userId backupId,
      this (snd (createBackup userId env2 w2)) = this w2 /\
      this (snd (listBackups userId env2 w2)) = this w2 /\
      this (snd (restoreBackup userId backupId env2 w2)) = this w2).
  { intros. split; [apply createBackup_keeps_this |].
    split; [apply listBackups_keeps_this | apply restoreBackup_keeps_this]. }
  refine (conj _ (conj Hlocal (conj _ Hlater))); clear Hlocal Hlater;
    unfold constructor, bind, ask, assign_localBackupDir, get_this, ensureDir, call in Hrun;
    simpl in Hrun;
    (destruct (fault env _); [discriminate |]);
    (destruct (FS.mkdirs _ _ _ _); [| discriminate]);
    simpl in Hrun;
    destruct (remote_configured env) eqn:Hcfg.
  - (* configured: the mode follows [createClient] *)
    unfold remote_configured in Hcfg.
    apply andb_prop in Hcfg. destruct Hcfg as (Hcfg & Hpre).
    apply andb_prop in Hcfg. destruct Hcfg as (Hu & Hk).
    apply truthy_spec in Hu. destruct Hu as (url & Eu & Hune).
    apply truthy_spec in Hk. destruct Hk as (key & Ek & Hkne).
    rewrite Eu in Hpre. rewrite Eu, Ek in Hrun.
    unfold try_catch, bind, createClient_, assign_client, assign_deployMode in Hrun.
    destruct (createClient env url key) as [c |] eqn:Ec; simpl in Hrun;
      inversion Hrun; subst w'; simpl.
    + split; [intros _ | reflexivity].
      exists url, key, c. repeat split; auto.
    + split; [discriminate |].
      intros (url' & key' & c' & Eu' & Ek' & _ & _ & _ & Ec').
      rewrite Eu in Eu'. rewrite Ek in Ek'. inversion Eu'. inversion Ek'. subst.
      rewrite Ec in Ec'. discriminate.
  - (* not configured *)
    assert (Hw' : deployMode (this w') = local).
    { unfold assign_deployMode in Hrun. inversion Hrun. reflexivity. }
    rewrite Hw'. split; [discriminate |].
    intros (url & key & c & Eu & Ek & Hune & Hkne & Hpre & _).
    unfold remote_configured in Hcfg. rewrite Eu, Ek in Hcfg. simpl in Hcfg.
    rewrite Hpre in Hcfg.
    apply String.eqb_neq in Hune. apply String.eqb_neq in Hkne.
    rewrite Hune, Hkne in Hcfg. discriminate.
  - (* cloud mode has a client *)
    unfold remote_configured in Hcfg.
    destruct (SUPABASE_URL env) as [url |]; [| discriminate].
    destruct (SUPABASE_KEY env) as [key |];
      [| rewrite andb_false_r in Hcfg; discriminate].
    unfold try_catch, bind, createClient_, assign_client, assign_deployMode in Hrun.
    destruct (createClient env url key) as [c |]; simpl in Hrun;
      inversion Hrun; subst w'; simpl; discriminate.
  - unfold assign_deployMode in Hrun. inversion Hrun. simpl. discriminate.
Qed.

(** ** The public boundary *)

Lemma createBackup_try_success env w userId r w1 :
  createBackup_try userId env w = (Ok r, w1) -> success r = true.
Proof.
  unfold createBackup_try, bind.
  destruct (stage_and_store userId env w) as [[n | e | e] w0]; try discriminate.
  destruct (updateStorageUsage userId n env w0) as [[[] | e | e] w2]; try discriminate.
  unfold get_this, ret. intros H. inversion H. reflexivity.
Qed.

(** What the two [try] blocks convert.  When the [try] block of
    [createBackup] throws [e], in either mode, the value is
    [{ success: false, size: 0, message: e.message }], no result with
    [success: false] carries another size, and [createBackup] never
    rejects; when the [try] block of [restoreBackup] throws, the value is
    [false]. *)
Lemma try_blocks_convert (env : Env) (w : World) (userId backupId : string) :
  (forall e w1, createBackup_try userId env w = (Throw e, w1) ->
     createBackup userId env w
     = (Ok {| success := false; size := 0; msg := message e |}, w1)) /\
  (forall r w', createBackup userId env w = (Ok r, w') ->
     success r = false -> size r = 0) /\
  (forall e w', createBackup userId env w <> (Throw e, w')) /\
  (forall e w1, restoreBackup_try userId backupId env w = (Throw e, w1) ->
     restoreBackup userId backupId env w = (Ok false, w1)).
Proof.
  unfold createBackup, restoreBackup, try_catch, ret.
  split; [| split; [| split]].
  - intros e w1 H. rewrite H. reflexivity.
  - intros r w'.
    destruct (createBackup_try userId env w) as [[r0 | e | e] w1] eqn:E;
      intros H; inversion H; subst; [| reflexivity].
    apply createBackup_try_success in E. congruence.
  - intros e w'.
    destruct (createBackup_try userId env w) as [[r0 | e0 | e0] w1]; discriminate.
  - intros e w1 H. rewrite H. reflexivity.
Qed.

(** C5. Missing source.  When [database.db] is absent, [createBackup]
    returns the failure result with the message of line 44, and the only
    call it has made is the existence test: the file system, the object
    store and the [users] table are as before. *)
Theorem missing_source (env : Env) (w : World) (userId : string) :
  FS.exists_ (fs w) (Path.join (cwd env) ["database.db"]) = false ->
  let w' := snd (createBackup userId env w) in
  fst (createBackup userId env w)
  = Ok {| success := false; size := 0;
          msg := "Database file (database.db) not found" |} /\
  new_events w w' = [PathExists (Path.join (cwd env) ["database.db"])] /\
  fs w' = fs w /\ store w' = store w /\ users w' = users w.
Proof.
  intros Hmiss.
  assert (E : createBackup userId env w
              = (Ok {| success := false; size := 0;
                       msg := "Database file (database.db) not found" |},
                 log (PathExists (Path.join (cwd env) ["database.db"])) w)).
  { unfold createBackup, try_catch, createBackup_try, stage_and_store, bind, ask,
      pathExists, db_path.
    rewrite Hmiss.
    destruct (fault env (PathExists (Path.join (cwd env) ["database.db"])));
      reflexivity. }
  rewrite E. simpl. repeat split.
  apply new_events_app. reflexivity.
Qed.

(** ** The usage column *)

Lemma update_users_nth bytes userId rows i u :
  nth_error rows i = Some u ->
  nth_error (update_users_set_storageUsed bytes userId rows) i
  = Some (if String.eqb (user_id u) userId then with_storageUsed bytes u else u).
Proof.
  intros H. unfold update_users_set_storageUsed.
  rewrite nth_error_map, H. reflexivity.
Qed.

(** C10. [updateStorageUsage(userId, bytes)], when the database accepts
    the update, writes [bytes] into [storageUsed] of every row whose id
    is [userId], whatever [storageLimit] is; the other columns of that
    row, all other rows, the number and order of rows, and the rest of
    the state are as before. *)
Theorem updateStorageUsage_frame (env : Env) (w : World) (userId : string) (bytes : Z) :
  fault env (UpdateUsersStorageUsed userId bytes) = None ->
  let w' := snd (updateStorageUsage userId bytes env w) in
  fst (updateStorageUsage userId bytes env w) = Ok tt /\
  length (users w') = length (users w) /\
  (forall i u, nth_error (users w) i = Some u ->
     exists u', nth_error (users w') i = Some u' /\
       (user_id u = userId -> storageUsed u' = bytes) /\
       (user_id u <> userId -> u' = u) /\
       user_id u' = user_id u /\ businessName u' = businessName u /\
       pinHash u' = pinHash u /\ email u' = email u /\
       createdAt u' = createdAt u /\ storageLimit u' = storageLimit u /\
       lastBusinessNameChange u' = lastBusinessNameChange u) /\
  this w' = this w /\ fs w' = fs w /\ store w' = store w.
Proof.
  intros Hf. unfold updateStorageUsage, call. rewrite Hf. simpl.
  repeat split.
  - unfold update_users_set_storageUsed. apply length_map.
  - intros i u Hi. eexists. split; [apply update_users_nth; exact Hi |].
    destruct (String.eqb (user_id u) userId) eqn:E.
    + repeat split. intros Hne. apply String.eqb_eq in E. contradiction.
    + apply String.eqb_neq in E. repeat split. intros He. contradiction.
Qed.

(** ** The temporary file of a cloud restore *)

Lemma restoreBackup_steps env w userId backupId :
  steps env (this w) (writes_only_to (Path.join (cwd env) ["restore_temp.zip"]))
    (restoreBackup userId backupId).
Proof.
  unfold restoreBackup, restoreBackup_try, restore_temp_path.
  steps_go; simpl; auto.
Qed.

Lemma client_call_trace {A} ev (act : Env -> World -> (Error + A) * World) env w r w1 :
  (forall w0, trace (snd (act env w0)) = trace w0) ->
  client_call ev act env w = (Ok r, w1) -> trace w1 = (trace w ++ [ev])%list.
Proof.
  intros Hact. unfold client_call.
  destruct (fault env ev).
  - intros H. inversion H. reflexivity.
  - specialize (Hact (log ev w)).
    destruct (act env (log ev w)) as [r' w2]. intros H. inversion H. subst.
    exact Hact.
Qed.

Lemma download_trace env w b k r w1 :
  download b k env w = (Ok r, w1) -> trace w1 = (trace w ++ [Download b k])%list.
Proof.
  apply client_call_trace. intros w0.
  destruct (Store.object_lookup (store w0) b k); reflexivity.
Qed.

Lemma new_events_in w w' evs ev :
  trace w' = (trace w ++ evs)%list -> In ev evs -> In ev (new_events w w').
Proof.
  intros H Hin. rewrite (new_events_app _ _ _ H). exact Hin.
Qed.

Lemma writeFile_trace env w p buf :
  trace (snd (writeFile p buf env w)) = (trace w ++ [WriteFile p buf])%list.
Proof.
  unfold writeFile, call. destruct (fault env _); [reflexivity |].
  destruct (write_node env (log (WriteFile p buf) w) p buf) as [w2 |] eqn:E;
    [| reflexivity].
  unfold write_node in E.
  destruct (FS.lookup _ _) as [[c b | s b] |]; inversion E; reflexivity.
Qed.

(** C9. In cloud mode [restoreBackup] writes to no other path than
    [restore_temp.zip] in the working directory, whatever the owner and
    the backup are, and it does write the downloaded bytes there
    whenever the download succeeds. *)
Theorem cloud_restore_temp_path (env : Env) (w : World) (userId backupId : string)
  (c : Client) :
  cloud_client (this w) = Some c ->
  let w' := snd (restoreBackup userId backupId env w) in
  (forall p buf, In (WriteFile p buf) (new_events w w') ->
     p = Path.join (cwd env) ["restore_temp.zip"]) /\
  (forall buf w1,
     download BUCKET (userId ++ "/" ++ backupId) env w = (Ok (inr buf), w1) ->
     In (WriteFile (Path.join (cwd env) ["restore_temp.zip"]) buf) (new_events w w')).
Proof.
  intros Hc. split.
  - intros p buf Hin.
    pose proof (follows_new_events _ _ _
                  (restoreBackup_steps env w userId backupId w eq_refl)) as Hall.
    rewrite Forall_forall in Hall. exact (Hall _ Hin).
  - intros buf w1 Hd.
    pose proof (download_trace _ _ _ _ _ _ Hd) as Htr1.
    unfold restoreBackup, try_catch, restoreBackup_try, bind, ask, get_this.
    rewrite Hc, Hd. unfold restore_temp_path.
    pose proof (writeFile_trace env w1 (Path.join (cwd env) ["restore_temp.zip"]) buf)
      as Htr2.
    destruct (writeFile (Path.join (cwd env) ["restore_temp.zip"]) buf env w1)
      as [[[] | e | e] w2]; simpl in Htr2; unfold ret.
    + destruct (deployMode (this w2)); unfold remove, call;
        try destruct (fault env _);
        (eapply new_events_in;
         [simpl; rewrite Htr2, Htr1, <- ?app_assoc; reflexivity | simpl; auto]).
    + eapply new_events_in;
        [simpl; rewrite Htr2, Htr1, <- ?app_assoc; reflexivity | simpl; auto].
    + eapply new_events_in;
        [simpl; rewrite Htr2, Htr1, <- ?app_assoc; reflexivity | simpl; auto].
Qed.

(** ** Usage accounting *)

Lemma path_eqb_eq p q : Path.eqb p q = true <-> p = q.
Proof.
  revert q. induction p as [| a p IH]; intros [| b q]; simpl;
    try (split; [discriminate | discriminate]); try tauto.
  rewrite andb_true_iff, String.eqb_eq, IH. split.
  - intros (-> & ->). reflexivity.
  - intros H. inversion H. auto.
Qed.

Lemma path_eqb_refl p : Path.eqb p p = true.
Proof. apply path_eqb_eq. reflexivity. Qed.

Lemma lookup_app_none f g p :
  FS.lookup f p = None -> FS.lookup (f ++ g)%list p = FS.lookup g p.
Proof.
  induction f as [| (q, n) f IH]; simpl; auto.
  destruct (Path.eqb q p); [discriminate | exact IH].
Qed.

Lemma lookup_filter_other f p :
  FS.lookup (filter (fun e => negb (Path.eqb (fst e) p)) f) p = None.
Proof.
  induction f as [| (q, n) f IH]; simpl; auto.
  destruct (Path.eqb q p) eqn:E; simpl; auto. rewrite E. exact IH.
Qed.

Lemma lookup_put_eq f p n : FS.lookup (FS.put f p n) p = Some n.
Proof.
  unfold FS.put. rewrite lookup_app_none by apply lookup_filter_other.
  simpl. rewrite path_eqb_refl. reflexivity.
Qed.

Lemma write_node_lookup env w p buf w' :
  write_node env w p buf = Some w' ->
  exists b, FS.lookup (fs w') p = Some (File buf b).
Proof.
  unfold write_node.
  destruct (FS.lookup (fs w) p) as [[c b | s b] |]; intros H; inversion H; simpl;
    eexists; apply lookup_put_eq.
Qed.

(** A resolved [zipDatabase] has left at [out] the archive of what was
    at [source]. *)
Lemma zipDatabase_ok env w source out w2 :
  zipDatabase source out env w = (Ok tt, w2) ->
  exists b',
    FS.lookup (fs w2) out
    = Some (File (archive_of env (FS.lookup (fs w) source)) b').
Proof.
  unfold zipDatabase.
  destruct (stream_fault env out); [discriminate |].
  destruct (write_node env (log (Zip source out) w) out []) as [w1 |]; [| discriminate].
  destruct (fault env (Zip source out)); [discriminate |].
  change (fs (log (Zip source out) w)) with (fs w).
  destruct (write_node env w1 out _) as [w3 |] eqn:E; [| discriminate].
  intros H. inversion H. subst w3.
  exact (write_node_lookup _ _ _ _ _ E).
Qed.

Lemma usage_calls_none evs : Forall no_usage_update evs -> usage_calls evs = [].
Proof.
  induction 1 as [| ev evs Hev _ IH]; simpl; auto.
  destruct ev; simpl in *; auto; contradiction.
Qed.

Lemma usage_calls_app (e1 e2 : list Event) :
  usage_calls (e1 ++ e2)%list = (usage_calls e1 ++ usage_calls e2)%list.
Proof. unfold usage_calls. apply flat_map_app. Qed.

(** Lines 35-106 never touch the [users] table. *)
Lemma stage_and_store_quiet env w userId :
  follows no_usage_update w (snd (stage_and_store userId env w)).
Proof.
  assert (H : steps env (this w) no_usage_update (stage_and_store userId)).
  { unfold stage_and_store, store_archive, ensure_bucket. steps_go; exact I. }
  exact (H w eq_refl).
Qed.

(** The value of lines 35-106 is the size of the archive made of what
    is at [database.db], a file or a directory. *)
Lemma stage_and_store_size env w userId n w1 :
  stage_and_store userId env w = (Ok n, w1) ->
  exists node,
    FS.lookup (fs w) (db_path env) = Some node /\
    n = Z.of_nat (length (archive_of env (Some node))).
Proof.
  unfold stage_and_store, bind, ask, pathExists.
  destruct (negb _) eqn:Efound; [discriminate |]. unfold ret at 1.
  destruct (zipDatabase (db_path env) (temp_path env) env
              (log (PathExists (db_path env)) w)) as [[[] | e | e] w2] eqn:EZ;
    try discriminate.
  apply zipDatabase_ok in EZ. destruct EZ as (b' & Hout).
  change (fs (log (PathExists (db_path env)) w)) with (fs w) in Hout.
  unfold stat, call. destruct (fault env (Stat (temp_path env))); [discriminate |].
  change (fs (log (Stat (temp_path env)) w2)) with (fs w2). rewrite Hout.
  destruct (store_archive _ _ _ _ _) as [[[] | e | e] w3]; try discriminate.
  unfold ret. intros H. inversion H. subst.
  apply negb_false_iff in Efound.
  destruct (fault env (PathExists (db_path env))); [discriminate |].
  unfold FS.exists_ in Efound.
  destruct (FS.lookup (fs w) (db_path env)) as [node |]; [| discriminate].
  exists node. split; reflexivity.
Qed.

(** C6, as the code has it.  A successful [createBackup] has called
    [updateStorageUsage] exactly once, with the owner and the size of
    the archive - the archive made of what is at [database.db] - and the
    owner's rows then hold exactly that size (it replaces the former
    value).  A failed [createBackup] leaves the table as it was; it has
    made no such call, unless the update itself is the step that failed,
    in which case it has made that one call. *)
Theorem usage_accounting (env : Env) (w : World) (userId : string)
  (r : BackupResult) (w' : World) :
  createBackup userId env w = (Ok r, w') ->
  (success r = true ->
     usage_calls (new_events w w') = [(userId, size r)] /\
     users w' = update_users_set_storageUsed (size r) userId (users w) /\
     (forall u, In u (users w') -> user_id u = userId -> storageUsed u = size r) /\
     (exists node, FS.lookup (fs w) (db_path env) = Some node /\
                   size r = Z.of_nat (length (archive_of env (Some node))))) /\
  (success r = false ->
     users w' = users w /\
     (usage_calls (new_events w w') = [] \/
      exists n, usage_calls (new_events w w') = [(userId, n)] /\
                fault env (UpdateUsersStorageUsed userId n) <> None)).
Proof.
  unfold createBackup, try_catch, createBackup_try, bind.
  pose proof (stage_and_store_quiet env w userId) as Hq.
  pose proof (stage_and_store_size env w userId) as Hsz.
  destruct (stage_and_store userId env w) as [[n | e | e] w1]; simpl in Hq;
    [| | discriminate].
  - destruct Hq as (_ & (evs & Htr & Hev) & Hu).
    assert (Hus : users w1 = users w) by (apply Hu; intros u b H; exact H).
    apply usage_calls_none in Hev.
    destruct (Hsz n w1 eq_refl) as (node & Hdb & Hn).
    unfold updateStorageUsage, call.
    destruct (fault env (UpdateUsersStorageUsed userId n)) eqn:Hf;
      unfold ret, get_this; intros H; inversion H; subst r w'; simpl;
      (split; [| intros Hs; try discriminate]); try discriminate.
    + (* the update failed *)
      split; [exact Hus |]. right. exists n. split; [| congruence].
      rewrite (new_events_app w _ (evs ++ [UpdateUsersStorageUsed userId n])%list).
      * rewrite usage_calls_app, Hev. reflexivity.
      * simpl. rewrite Htr, app_assoc. reflexivity.
    + (* success *)
      intros _. repeat split.
      * rewrite (new_events_app w _ (evs ++ [UpdateUsersStorageUsed userId n])%list).
        -- rewrite usage_calls_app, Hev. reflexivity.
        -- simpl. rewrite Htr, app_assoc. reflexivity.
      * rewrite Hus. reflexivity.
      * intros u Hin Hid. unfold update_users_set_storageUsed in Hin.
        apply in_map_iff in Hin. destruct Hin as (u0 & Hu0 & _).
        destruct (String.eqb (user_id u0) userId) eqn:E; subst u; simpl in *.
        -- reflexivity.
        -- apply String.eqb_neq in E. contradiction.
      * exists node. auto.
  - destruct Hq as (_ & (evs & Htr & Hev) & Hu).
    unfold ret. intros H. inversion H. subst r w'. simpl.
    split; [discriminate |]. intros _.
    split; [apply Hu; intros u b H0; exact H0 |].
    left. rewrite (new_events_app _ _ _ Htr). apply usage_calls_none. exact Hev.
Qed.

(** ** Order of a listing *)

Section SortByKey.
Context {A : Type} (key : A -> Z) (cmp : A -> A -> Z).
Hypothesis cmp_key : forall a b, cmp a b = key b - key a.

Lemma sort_insert_perm x l : Permutation (sort_insert cmp x l) (x :: l).
Proof.
  induction l as [| y l IH]; simpl; auto.
  destruct (cmp x y <=? 0); auto.
  rewrite IH. apply perm_swap.
Qed.

Lemma array_sort_perm l : Permutation (array_sort cmp l) l.
Proof.
  induction l as [| x l IH]; simpl; auto.
  rewrite sort_insert_perm. auto.
Qed.

Lemma sort_insert_sorted x l :
  StronglySorted (not_below key) l -> StronglySorted (not_below key) (sort_insert cmp x l).
Proof.
  induction 1 as [| y l Hs IH Hy]; simpl.
  - repeat constructor.
  - rewrite cmp_key. destruct (Z.leb_spec (key y - key x) 0) as [Hle | Hgt].
    + constructor; [constructor; auto |].
      constructor; [unfold not_below; lia |].
      eapply Forall_impl; [| exact Hy]. unfold not_below. intros z Hz. lia.
    + constructor; auto.
      rewrite Forall_forall. intros z Hz.
      apply (Permutation_in _ (sort_insert_perm x l)) in Hz.
      destruct Hz as [<- | Hz].
      * unfold not_below. lia.
      * rewrite Forall_forall in Hy. auto.
Qed.

Lemma array_sort_sorted l : StronglySorted (not_below key) (array_sort cmp l).
Proof.
  induction l as [| x l IH]; simpl; [constructor | apply sort_insert_sorted; exact IH].
Qed.

(** Two orderings of the same elements, one without ties, are the same list. *)
Lemma sorted_perm_unique l l' :
  Permutation l l' -> StronglySorted (not_below key) l -> StronglySorted (above key) l' -> l = l'.
Proof.
  intros Hp Hs. revert l Hp Hs.
  induction l' as [| x l' IH]; intros l Hp Hs Hs'.
  - apply Permutation_sym, Permutation_nil in Hp. exact Hp.
  - destruct l as [| y l].
    { apply Permutation_nil in Hp. discriminate. }
    apply StronglySorted_inv in Hs. destruct Hs as (Hs & Hy).
    apply StronglySorted_inv in Hs'. destruct Hs' as (Hs' & Hx).
    rewrite Forall_forall in Hy, Hx.
    assert (Hyx : y = x).
    { assert (Hin : In y (x :: l')) by (apply (Permutation_in _ Hp); left; auto).
      destruct Hin as [E | Hin]; [auto |].
      assert (Hin' : In x (y :: l)).
      { apply (Permutation_in _ (Permutation_sym Hp)). left; auto. }
      specialize (Hx _ Hin). unfold above in Hx.
      destruct Hin' as [E | Hin']; [auto |].
      specialize (Hy _ Hin'). unfold not_below in Hy. lia. }
    subst y. f_equal. apply IH; auto.
    eapply Permutation_cons_inv. exact Hp.
Qed.

Lemma array_sort_canonical l l' :
  Permutation l l' -> StronglySorted (above key) l' -> array_sort cmp l = l'.
Proof.
  intros Hp Hs. apply sorted_perm_unique; auto using array_sort_sorted.
  rewrite array_sort_perm. exact Hp.
Qed.
End SortByKey.

(** When every [stat] succeeds, [Promise.all] yields one record per name. *)
Lemma promise_all_local env f dir files :
  (forall file, In file files ->
     fault env (Stat (Path.join dir [file])) = None /\
     FS.lookup f (Path.join dir [file]) <> None) ->
  forall w, fs w = f ->
    fst (promise_all (map (local_record dir) files) env w)
    = Ok (map (fun file => record_of file (node_at f (Path.join dir [file]))) files).
Proof.
  induction files as [| file files IH]; intros Hall w Hw; [reflexivity |].
  destruct (Hall file (or_introl eq_refl)) as (Hf & Hl).
  cbn [map promise_all].
  unfold local_record at 1. unfold bind, stat, call. rewrite Hf.
  change (fs (log (Stat (Path.join dir [file])) w)) with (fs w). rewrite Hw.
  unfold node_at at 1.
  destruct (FS.lookup f (Path.join dir [file])) as [n |]; [| contradiction].
  unfold ret.
  specialize (IH (fun x Hx => Hall x (or_intror Hx))
                 (log (Stat (Path.join dir [file])) w) Hw).
  destruct (promise_all (map (local_record dir) files) env
              (log (Stat (Path.join dir [file])) w)) as [[l | e | e] w2];
    simpl in IH; inversion IH. reflexivity.
Qed.

Lemma newest_first_key a b : newest_first a b = created_at b - created_at a.
Proof. reflexivity. Qed.

Lemma item_cmp_key a b :
  Store.item_cmp (col_created_at, desc) a b = item_created_at b - item_created_at a.
Proof. unfold Store.item_cmp. simpl. lia. Qed.

Lemma three_descending {A} (key : A -> Z) a b c :
  key a < key b -> key b < key c -> StronglySorted (above key) [c; b; a].
Proof.
  intros H1 H2. unfold above.
  repeat constructor; simpl; lia.
Qed.

(** C7. Listing order.  An owner has exactly three backups, created at
    [t1 < t2 < t3], held by the backend in any order; when the calls of
    the listing succeed, [listBackups] returns them as [t3, t2, t1], in
    local mode (the directory entries, sorted by the service) and in
    cloud mode (the objects of the owner's folder, sorted by the store
    as requested). *)
Theorem listing_order (env : Env) (w : World) (userId : string) :
  (forall n1 n2 n3 c1 c2 c3 t1 t2 t3 s b,
     cloud_client (this w) = None ->
     let dir := Path.join (localBackupDir (this w)) [userId] in
     fault env (PathExists dir) = None ->
     fault env (Readdir dir) = None ->
     (forall file, fault env (Stat (Path.join dir [file])) = None) ->
     FS.lookup (fs w) dir = Some (Dir s b) ->
     Permutation (FS.children (fs w) dir) [n1; n2; n3] ->
     FS.lookup (fs w) (Path.join dir [n1]) = Some (File c1 t1) ->
     FS.lookup (fs w) (Path.join dir [n2]) = Some (File c2 t2) ->
     FS.lookup (fs w) (Path.join dir [n3]) = Some (File c3 t3) ->
     t1 < t2 -> t2 < t3 ->
     fst (listBackups userId env w)
     = Ok [record_of n3 (File c3 t3); record_of n2 (File c2 t2);
           record_of n1 (File c1 t1)]) /\
  (forall c bo i1 i2 i3,
     cloud_client (this w) = Some c ->
     fault env (ListObjects BUCKET userId list_options) = None ->
     Store.bucket_lookup (store w) BUCKET = Some bo ->
     Permutation (Store.items_in BUCKET userId (objects (store w))) [i1; i2; i3] ->
     item_created_at i1 < item_created_at i2 ->
     item_created_at i2 < item_created_at i3 ->
     fst (listBackups userId env w)
     = Ok [cloud_record i3; cloud_record i2; cloud_record i1]).
Proof.
  split.
  - intros n1 n2 n3 c1 c2 c3 t1 t2 t3 s b Hc dir Hf1 Hf2 Hf3 Hdir Hperm H1 H2 H3 Ht12 Ht23.
    unfold listBackups, bind, get_this. rewrite Hc.
    unfold try_catch, listBackups_local_try, bind, pathExists.
    fold dir. rewrite Hf1. unfold FS.exists_. rewrite Hdir. cbn [negb].
    unfold readdir, call. rewrite Hf2.
    change (fs (log (Readdir dir) (log (PathExists dir) w))) with (fs w).
    rewrite Hdir.
    set (w2 := log (Readdir dir) (log (PathExists dir) w)).
    assert (Hall : forall file, In file (FS.children (fs w) dir) ->
              fault env (Stat (Path.join dir [file])) = None /\
              FS.lookup (fs w) (Path.join dir [file]) <> None).
    { intros file Hin. split; [apply Hf3 |].
      apply (Permutation_in _ Hperm) in Hin.
      destruct Hin as [<- | [<- | [<- | []]]]; congruence. }
    pose proof (promise_all_local env (fs w) dir _ Hall w2 eq_refl) as Hpa.
    destruct (promise_all (map (local_record dir) (FS.children (fs w) dir)) env w2)
      as [[l | e | e] w3]; simpl in Hpa; inversion Hpa. subst l.
    unfold ret. cbn [fst]. f_equal.
    apply (array_sort_canonical created_at newest_first newest_first_key).
    + set (g := fun file => record_of file (node_at (fs w) (Path.join dir [file]))).
      replace [record_of n3 (File c3 t3); record_of n2 (File c2 t2);
               record_of n1 (File c1 t1)] with (rev (map g [n1; n2; n3])).
      * rewrite <- Permutation_rev. apply Permutation_map. exact Hperm.
      * unfold g, node_at. simpl. rewrite H1, H2, H3. reflexivity.
    + apply three_descending; simpl; assumption.
  - intros c bo i1 i2 i3 Hc Hf Hb Hperm H12 H23.
    unfold listBackups, bind, get_this. rewrite Hc.
    unfold list_objects. cbv zeta. rewrite Hf.
    change (store (log (ListObjects BUCKET userId list_options) w)) with (store w).
    rewrite Hb. unfold data_map. rewrite map_items_some. unfold ret. cbn [fst]. f_equal.
    unfold Store.list_items.
    rewrite (array_sort_canonical item_created_at _ item_cmp_key _ [i3; i2; i1]).
    + reflexivity.
    + rewrite Hperm. change [i3; i2; i1] with (rev [i1; i2; i3]). apply Permutation_rev.
    + apply three_descending; assumption.
Qed.

(** ** Paths and the owner's namespace *)

Lemma append_snoc acc c s : ((acc ++ String c "") ++ s)%string = (acc ++ String c s)%string.
Proof. induction acc as [| a acc IH]; simpl; [reflexivity | rewrite IH; reflexivity]. Qed.

Lemma split_slash_acc_plain acc s :
  Str.has_slash s = false -> Str.split_slash_acc acc s = [(acc ++ s)%string].
Proof.
  revert acc. induction s as [| c s IH]; intros acc H; simpl in *.
  - replace (acc ++ "")%string with acc; [reflexivity |].
    induction acc as [| a acc IHa]; simpl; [reflexivity | rewrite <- IHa; reflexivity].
  - apply orb_false_iff in H. destruct H as (Hc & Hs). rewrite Hc.
    rewrite IH by exact Hs. rewrite append_snoc. reflexivity.
Qed.

Lemma split_slash_plain s : Str.has_slash s = false -> Str.split_slash s = [s].
Proof. intros H. unfold Str.split_slash. rewrite split_slash_acc_plain; auto. Qed.

Lemma plain_segment_inv s :
  Path.plain_segment s = true -> Path.kept s = true /\ Str.has_slash s = false.
Proof.
  unfold Path.plain_segment, Path.kept.
  destruct (String.eqb s ""), (String.eqb s "."), (String.eqb s ".."),
    (Str.has_slash s); simpl; intros H; try discriminate; auto.
Qed.

Lemma normalize_from_kept (stack l1 l2 : list string) :
  Path.is_normal l1 = true ->
  Path.normalize_from stack (l1 ++ l2)%list = Path.normalize_from (rev l1 ++ stack)%list l2.
Proof.
  revert stack. induction l1 as [| s l1 IH]; intros stack H; simpl in *; auto.
  apply andb_prop in H. destruct H as (Hs & Hl).
  unfold Path.kept in Hs. apply andb_prop in Hs. destruct Hs as (Hs1 & Hs2).
  rewrite negb_true_iff in Hs1, Hs2. rewrite Hs1, Hs2.
  rewrite IH by exact Hl. rewrite <- app_assoc. reflexivity.
Qed.

(** Without a [".."] segment, normalizing only appends to what is kept. *)
Lemma normalize_from_no_dotdot stack segs :
  forallb (fun x => negb (String.eqb x "..")) segs = true ->
  exists rest, Path.normalize_from stack segs = (rev stack ++ rest)%list.
Proof.
  revert stack. induction segs as [| s segs IH]; intros stack H; simpl in *.
  - exists []. rewrite app_nil_r. reflexivity.
  - apply andb_prop in H. destruct H as (Hs & Hl). rewrite negb_true_iff in Hs.
    rewrite Hs. destruct (String.eqb s "" || String.eqb s ".").
    + apply IH. exact Hl.
    + destruct (IH (s :: stack) Hl) as (rest & E). rewrite E. simpl.
      exists (s :: rest). rewrite <- app_assoc. reflexivity.
Qed.

Lemma is_prefix_app (p q : path) : Path.is_prefix p (p ++ q)%list = true.
Proof.
  induction p as [| a p IH]; simpl; auto. rewrite String.eqb_refl. exact IH.
Qed.

Lemma is_prefix_refl p : Path.is_prefix p p = true.
Proof. rewrite <- (app_nil_r p) at 2. apply is_prefix_app. Qed.

Lemma join_owner root userId :
  Path.is_normal root = true -> Path.plain_segment userId = true ->
  Path.join root [userId] = (root ++ [userId])%list.
Proof.
  intros Hr Hu. apply plain_segment_inv in Hu. destruct Hu as (Hk & Hs).
  unfold Path.join, Path.normalize. simpl. rewrite split_slash_plain by exact Hs.
  simpl. rewrite <- (app_nil_r (root ++ [userId])%list) at 1.
  rewrite normalize_from_kept.
  - simpl. rewrite app_nil_r, rev_involutive. reflexivity.
  - unfold Path.is_normal in *. rewrite forallb_app, Hr. simpl. rewrite Hk. reflexivity.
Qed.

Lemma join_owner_file root userId file :
  Path.is_normal root = true -> Path.plain_segment userId = true ->
  Path.plain_segment file = true ->
  Path.join (root ++ [userId])%list [file] = (root ++ [userId; file])%list.
Proof.
  intros Hr Hu Hf.
  replace (root ++ [userId; file])%list with ((root ++ [userId]) ++ [file])%list
    by (rewrite <- app_assoc; reflexivity).
  apply join_owner; auto.
  apply plain_segment_inv in Hu. destruct Hu as (Hk & _).
  unfold Path.is_normal in *. rewrite forallb_app, Hr. simpl. rewrite Hk. reflexivity.
Qed.

(** The path a local restore resolves stays inside the owner's
    directory when the backup id has no [".."] segment. *)
Lemma join_owner_backup root userId backupId :
  Path.is_normal root = true -> Path.plain_segment userId = true ->
  Path.no_dotdot backupId = true ->
  Path.is_prefix (root ++ [userId])%list (Path.join root [userId; backupId]) = true.
Proof.
  intros Hr Hu Hb. apply plain_segment_inv in Hu. destruct Hu as (Hk & Hs).
  unfold Path.join, Path.normalize. simpl. rewrite split_slash_plain by exact Hs.
  rewrite app_nil_r.
  replace (root ++ [userId] ++ Str.split_slash backupId)%list
    with ((root ++ [userId]) ++ Str.split_slash backupId)%list
    by (rewrite <- app_assoc; reflexivity).
  rewrite normalize_from_kept.
  - destruct (normalize_from_no_dotdot (rev (root ++ [userId]) ++ [])%list _ Hb) as (rest & E).
    rewrite E, app_nil_r, rev_involutive. apply is_prefix_app.
  - unfold Path.is_normal in *. rewrite forallb_app, Hr. simpl. rewrite Hk. reflexivity.
Qed.

Lemma child_name_spec d q n : FS.child_name d q = Some n -> q = (d ++ [n])%list.
Proof.
  revert q. induction d as [| a d IH]; intros q H; simpl in *.
  - destruct q as [| b [| c q]]; inversion H. reflexivity.
  - destruct q as [| b q]; [discriminate |].
    destruct (String.eqb a b) eqn:E; [| discriminate].
    apply String.eqb_eq in E. subst b. rewrite (IH q H). reflexivity.
Qed.

Lemma children_spec f d n :
  In n (FS.children f d) -> exists node, In ((d ++ [n])%list, node) f.
Proof.
  induction f as [| (q, node) f IH]; simpl; [tauto |].
  destruct (FS.child_name d q) as [m |] eqn:E.
  - intros [<- | Hin].
    + apply child_name_spec in E. subst q. eauto.
    + destruct (IH Hin) as (node' & H'). eauto.
  - intros Hin. destruct (IH Hin) as (node' & H'). eauto.
Qed.

Lemma children_plain f d n :
  FS.wf f = true -> In n (FS.children f d) -> Path.plain_segment n = true.
Proof.
  intros Hwf Hin. destruct (children_spec _ _ _ Hin) as (node & H).
  unfold FS.wf in Hwf. rewrite forallb_forall in Hwf.
  specialize (Hwf _ H). simpl in Hwf. rewrite forallb_app in Hwf.
  apply andb_prop in Hwf. destruct Hwf as (_ & Hn). simpl in Hn.
  rewrite andb_true_r in Hn. exact Hn.
Qed.

Lemma has_slash_has_char s : Str.has_slash s = has_char "/" s.
Proof. induction s as [| c s IH]; simpl; [reflexivity | rewrite IH; reflexivity]. Qed.

Lemma has_char_append c a b : has_char c (a ++ b) = has_char c a || has_char c b.
Proof.
  induction a as [| x a IH]; simpl; [reflexivity |].
  rewrite IH, orb_assoc. reflexivity.
Qed.

Lemma has_char_substring0 c n s :
  has_char c s = false -> has_char c (String.substring 0 n s) = false.
Proof.
  revert n. induction s as [| x s IH]; intros n H.
  - destruct n; reflexivity.
  - simpl in H. apply orb_false_iff in H. destruct H as (Hx & Hs).
    destruct n; simpl; [reflexivity |]. rewrite Hx. apply IH. exact Hs.
Qed.

Lemma length_substring0 n s :
  String.length (String.substring 0 n s) = Nat.min n (String.length s).
Proof.
  revert n. induction s as [| x s IH]; intros [| n]; simpl; auto.
Qed.

Lemma length_replace_colon_dot s :
  String.length (Str.replace_colon_dot s) = String.length s.
Proof. induction s as [| x s IH]; simpl; auto. Qed.

Lemma replace_colon_dot_clean s :
  has_char ":" (Str.replace_colon_dot s) = false /\
  has_char "." (Str.replace_colon_dot s) = false.
Proof.
  induction s as [| x s (IH1 & IH2)]; simpl; [auto |].
  rewrite IH1, IH2, !orb_false_r.
  destruct (Ascii.eqb x ":") eqn:E1; [split; reflexivity |].
  destruct (Ascii.eqb x ".") eqn:E2; [split; reflexivity |].
  simpl. auto.
Qed.

Lemma replace_colon_dot_slash s :
  has_char "/" (Str.replace_colon_dot s) = has_char "/" s.
Proof.
  induction s as [| x s IH]; simpl; [reflexivity |]. rewrite IH. f_equal.
  destruct (Ascii.eqb x ":") eqn:E1.
  { apply Ascii.eqb_eq in E1. subst x. reflexivity. }
  destruct (Ascii.eqb x ".") eqn:E2.
  { apply Ascii.eqb_eq in E2. subst x. reflexivity. }
  reflexivity.
Qed.

Lemma backup_file_name_plain env :
  Str.has_slash (now_iso env) = false ->
  Path.plain_segment (backup_file_name env) = true.
Proof.
  intros H. unfold Path.plain_segment.
  assert (Hs : Str.has_slash (backup_file_name env) = false).
  { unfold backup_file_name, Str.slice0. rewrite has_slash_has_char, !has_char_append.
    rewrite has_char_substring0.
    - reflexivity.
    - rewrite replace_colon_dot_slash, <- has_slash_has_char. exact H. }
  rewrite Hs. unfold backup_file_name. reflexivity.
Qed.

(** An ISO clock string has no ['/'], so the generated file name is a
    plain file name. *)
Lemma now_iso_no_slash env : Str.has_slash (now_iso env) = false.
Proof.
  unfold now_iso. induction (iso_now env) as [| c l IH]; [reflexivity |].
  simpl. rewrite IH. destruct c; reflexivity.
Qed.

Lemma file_name_plain env : Path.plain_segment (backup_file_name env) = true.
Proof. apply backup_file_name_plain, now_iso_no_slash. Qed.

(** *** What each operation touches *)

Lemma split_slash_acc_prefix acc u b :
  Str.has_slash u = false ->
  Str.split_slash_acc acc (u ++ "/" ++ b)
  = ((acc ++ u)%string :: Str.split_slash b).
Proof.
  revert acc. induction u as [| c u IH]; intros acc H.
  - simpl. f_equal.
    induction acc as [| a acc IHa]; simpl; [reflexivity | rewrite <- IHa; reflexivity].
  - simpl in H. apply orb_false_iff in H. destruct H as (Hc & Hu).
    cbn [append Str.split_slash_acc]. rewrite Hc, (IH _ Hu), append_snoc. reflexivity.
Qed.

(** The key of an object of the owner stays in the owner's folder when
    the name has no [".."] segment. *)
Lemma owner_key_of userId name_ :
  Path.plain_segment userId = true -> Path.no_dotdot name_ = true ->
  owner_key userId (userId ++ "/" ++ name_).
Proof.
  intros Hu Hb. apply plain_segment_inv in Hu. destruct Hu as (Hk & Hs).
  split; [exists name_; reflexivity |].
  unfold Str.split_slash. rewrite (split_slash_acc_prefix "" userId name_ Hs).
  cbn [append]. unfold Path.normalize. cbn [Path.normalize_from].
  unfold Path.kept in Hk. apply andb_prop in Hk. destruct Hk as (Hk1 & Hk2).
  rewrite negb_true_iff in Hk1, Hk2. rewrite Hk1, Hk2.
  destruct (normalize_from_no_dotdot [userId] _ Hb) as (rest & E).
  rewrite E. simpl. rewrite String.eqb_refl. reflexivity.
Qed.

Lemma plain_no_dotdot s : Path.plain_segment s = true -> Path.no_dotdot s = true.
Proof.
  intros H. pose proof (plain_segment_inv s H) as (Hk & Hs).
  unfold Path.no_dotdot. rewrite (split_slash_plain s Hs). simpl.
  unfold Path.kept in Hk. apply andb_prop in Hk. destruct Hk as (_ & ->). reflexivity.
Qed.

Ltac confined_solve :=
  simpl; unfold in_owner_dir;
  first [ exact I | reflexivity | solve [eauto 6] ].

Section Confinement.
Variable env : Env.
Variable w : World.
Variable userId : string.
Let root := localBackupDir (this w).
Hypothesis root_normal : Path.is_normal root = true.
Hypothesis owner_plain : Path.plain_segment userId = true.

Lemma createBackup_confined :
  steps env (this w) (confined env root userId) (createBackup userId).
Proof.
  pose proof (file_name_plain env) as Hname.
  unfold createBackup, createBackup_try, stage_and_store, store_archive, ensure_bucket.
  steps_go; try confined_solve.
  - (* upload under the owner's key *)
    split; [reflexivity |]. apply owner_key_of; [exact owner_plain |].
    apply plain_no_dotdot. exact Hname.
  - (* ensureDir of the owner's directory *)
    fold root. rewrite (join_owner root userId root_normal owner_plain). apply is_prefix_refl.
  - (* move into the owner's directory *)
    split; [reflexivity |]. fold root.
    rewrite (join_owner root userId root_normal owner_plain).
    rewrite join_owner_file by auto.
    change (root ++ [userId; backup_file_name env])%list
      with (root ++ [userId] ++ [backup_file_name env])%list.
    rewrite app_assoc. apply is_prefix_app.
Qed.

Lemma restoreBackup_confined backupId :
  Path.no_dotdot backupId = true ->
  steps env (this w) (confined env root userId) (restoreBackup userId backupId).
Proof.
  intros Hid. unfold restoreBackup, restoreBackup_try.
  apply steps_try_catch; [| steps_go].
  apply steps_ask. apply steps_get_this.
  apply (steps_bind_val env (this w) _
           (fun p => in_owner_dir root userId p \/ p = restore_temp_path env)).
  - destruct (cloud_client (this w)) eqn:Hc.
    + apply returns_bind. intros [e | buf]; [apply returns_throw |].
      apply returns_bind. intros _. apply returns_ret. right. reflexivity.
    + apply returns_bind. intros found.
      destruct (negb found); [apply returns_throw | apply returns_ret].
      left. apply join_owner_backup; auto.
  - steps_go; try confined_solve.
    + split; [reflexivity |]. apply owner_key_of; assumption.
    + left. apply join_owner_backup; auto.
  - intros p Hp. steps_go. simpl. tauto.
Qed.

Lemma follows_log1 (P : Event -> Prop) ev w0 :
  P ev -> (forall u b, ev <> UpdateUsersStorageUsed u b) -> follows P w0 (log ev w0).
Proof. intros HP Hne. apply (follows_log P ev); auto. repeat split. Qed.

Lemma listBackups_confined :
  (cloud_client (this w) = None -> FS.wf (fs w) = true) ->
  follows (confined env root userId) w (snd (listBackups userId env w)).
Proof.
  intros Hwf. unfold listBackups, bind, get_this.
  destruct (cloud_client (this w)) eqn:Hc.
  - assert (H : steps env (this w) (confined env root userId)
                  (r <- list_objects BUCKET userId list_options ;;
                   match r with
                   | inl _ => ret []
                   | inr data => data_map data
                   end)).
    { steps_go. confined_solve. }
    exact (H w eq_refl).
  - specialize (Hwf eq_refl).
    unfold try_catch, listBackups_local_try, bind, pathExists.
    fold root. rewrite (join_owner root userId root_normal owner_plain).
    set (dir := (root ++ [userId])%list).
    assert (Hdir : confined env root userId (PathExists dir)
                   /\ confined env root userId (Readdir dir)).
    { split; [left |]; apply is_prefix_refl. }
    destruct Hdir as (Hpe & Hrd).
    assert (H1 : follows (confined env root userId) w (log (PathExists dir) w)).
    { apply follows_log1; [exact Hpe | discriminate]. }
    destruct (negb match fault env (PathExists dir) with
                   | Some _ => false
                   | None => FS.exists_ (fs w) dir
                   end); [exact H1 |].
    set (w1 := log (PathExists dir) w) in *.
    assert (H2 : follows (confined env root userId) w (log (Readdir dir) w1)).
    { eapply follows_trans; [exact H1 |]. apply follows_log1; [exact Hrd | discriminate]. }
    unfold readdir, call.
    destruct (fault env (Readdir dir)); [exact H2 |].
    change (fs (log (Readdir dir) w1)) with (fs w).
    destruct (FS.lookup (fs w) dir) as [[c b | s b] |]; try exact H2.
    set (w2 := log (Readdir dir) w1) in *.
    assert (H3 : follows (confined env root userId) w2
                   (snd (promise_all (map (local_record dir) (FS.children (fs w) dir))
                           env w2))).
    { apply (steps_promise_all env (this w)); [| reflexivity].
      apply Forall_forall. intros c Hin. apply in_map_iff in Hin.
      destruct Hin as (file & <- & Hfile).
      unfold local_record. steps_go. left.
      unfold dir, root. rewrite join_owner_file; auto.
      - change (localBackupDir (this w) ++ [userId; file])%list
          with (localBackupDir (this w) ++ [userId] ++ [file])%list.
        rewrite app_assoc. apply is_prefix_app.
      - eapply children_plain; eauto. }
    destruct (promise_all (map (local_record dir) (FS.children (fs w) dir)) env w2)
      as [[l | e | e] w3]; simpl in H3 |- *; eapply follows_trans; eauto.
Qed.
End Confinement.

(** *** What a listing returns *)

Lemma promise_all_ids env dir files :
  forall w l w',
    promise_all (map (local_record dir) files) env w = (Ok l, w') -> map id l = files.
Proof.
  induction files as [| file files IH]; intros w l w' H.
  - inversion H. reflexivity.
  - cbn [map promise_all] in H.
    destruct (local_record dir file env w) as [[r | e | e] w1] eqn:E1.
    + destruct (promise_all (map (local_record dir) files) env w1) as [[l1 | e | e] w2] eqn:E2;
        inversion H. subst. simpl. f_equal; [| eapply IH; eauto].
      unfold local_record, bind, stat, call, ret in E1.
      destruct (fault env _); [discriminate |].
      destruct (FS.lookup _ _); inversion E1. reflexivity.
    + destruct (promise_all (map (local_record dir) files) env w1) as [[l1 | e' | e'] w2];
        discriminate.
    + discriminate.
Qed.

Lemma in_firstn {A} n (l : list A) x : In x (firstn n l) -> In x l.
Proof.
  intros H. rewrite <- (firstn_skipn n l). apply in_or_app. left. exact H.
Qed.

Lemma in_skipn {A} n (l : list A) x : In x (skipn n l) -> In x l.
Proof.
  intros H. rewrite <- (firstn_skipn n l). apply in_or_app. right. exact H.
Qed.

Lemma string_app_assoc (a b c : string) : ((a ++ b) ++ c)%string = (a ++ b ++ c)%string.
Proof. induction a as [| x a IH]; simpl; [reflexivity | rewrite IH; reflexivity]. Qed.

Lemma strip_prefix_spec p s r : Store.strip_prefix p s = Some r -> s = (p ++ r)%string.
Proof.
  revert s. induction p as [| a p IH]; intros s H; simpl in *.
  - inversion H. reflexivity.
  - destruct s as [| b s]; [discriminate |].
    destruct (Ascii.eqb a b) eqn:E; [| discriminate].
    apply Ascii.eqb_eq in E. subst b. rewrite (IH s H). reflexivity.
Qed.

Lemma listed_name_spec folder key n :
  folder <> "" -> Store.listed_name folder key = Some n ->
  key = folder ++ "/" ++ n.
Proof.
  intros Hne. unfold Store.listed_name.
  apply String.eqb_neq in Hne. rewrite Hne.
  destruct (Store.strip_prefix (folder ++ "/") key) as [r |] eqn:E; [| discriminate].
  destruct (String.eqb r "" || Str.has_slash r); [discriminate |].
  intros H. inversion H. subst r.
  apply strip_prefix_spec in E. rewrite E. apply string_app_assoc.
Qed.

Lemma items_in_spec b folder objs item :
  folder <> "" -> In item (Store.items_in b folder objs) ->
  exists o, In (b, folder ++ "/" ++ item_name item, o) objs.
Proof.
  intros Hne. induction objs as [| [[b' k] o] objs IH]; simpl; [tauto |].
  destruct (String.eqb b' b) eqn:Eb.
  - destruct (Store.listed_name folder k) as [n |] eqn:En.
    + intros [<- | Hin].
      * apply String.eqb_eq in Eb. subst b'.
        pose proof (listed_name_spec _ _ _ Hne En) as Hk. subst k.
        exists o. left. reflexivity.
      * destruct (IH Hin) as (o' & H'). eauto.
    + intros Hin. destruct (IH Hin) as (o' & H'). eauto.
  - intros Hin. destruct (IH Hin) as (o' & H'). eauto.
Qed.

Lemma plain_segment_nonempty s : Path.plain_segment s = true -> s <> "".
Proof. intros H ->. discriminate. Qed.

Lemma listBackups_records env w userId l w' r :
  Path.is_normal (localBackupDir (this w)) = true ->
  Path.plain_segment userId = true ->
  listBackups userId env w = (Ok l, w') -> In r l ->
  match cloud_client (this w) with
  | None => exists node, In ((localBackupDir (this w) ++ [userId; id r])%list, node) (fs w)
  | Some _ => exists o, In (BUCKET, userId ++ "/" ++ id r, o) (objects (store w))
  end.
Proof.
  intros Hroot Hplain.
  destruct (cloud_client (this w)) as [c |] eqn:Hc.
  - rewrite (listBackups_cloud env w userId c Hc). cbv zeta.
    destruct (fault env _).
    { destruct (garbled env _) as [g |].
      - destruct (data_map_garbled g env (log (ListObjects BUCKET userId list_options) w))
          as (e' & ->). discriminate.
      - intros H; inversion H; subst; contradiction. }
    destruct (Store.bucket_lookup (store w) BUCKET);
      intros H; inversion H; subst; [| contradiction].
    intros Hin. apply in_map_iff in Hin. destruct Hin as (item & <- & Hin).
    unfold Store.list_items in Hin.
    apply in_firstn, in_skipn in Hin.
    apply (Permutation_in _ (array_sort_perm _ _)) in Hin.
    simpl. apply items_in_spec; [apply plain_segment_nonempty; exact Hplain | exact Hin].
  - unfold listBackups, bind, get_this. rewrite Hc.
    unfold try_catch, listBackups_local_try, bind, pathExists.
    rewrite join_owner by assumption.
    set (dir := (localBackupDir (this w) ++ [userId])%list).
    destruct (negb _); [unfold ret; intros H; inversion H; subst; contradiction |].
    unfold readdir, call.
    destruct (fault env (Readdir dir));
      [unfold ret; intros H; inversion H; subst; contradiction |].
    change (fs (log (Readdir dir) (log (PathExists dir) w))) with (fs w).
    destruct (FS.lookup (fs w) dir) as [[c b | s b] |];
      try (unfold ret; intros H; inversion H; subst; contradiction).
    destruct (promise_all _ env _) as [[recs | e | e] w3] eqn:Ep;
      unfold ret; intros H; inversion H; subst; [| contradiction].
    intros Hin.
    apply (Permutation_in _ (array_sort_perm _ _)) in Hin.
    apply promise_all_ids in Ep.
    assert (Hid : In (id r) (FS.children (fs w) dir)).
    { rewrite <- Ep. apply in_map. exact Hin. }
    destruct (children_spec _ _ _ Hid) as (node & Hnode).
    exists node. unfold dir in Hnode. rewrite <- app_assoc in Hnode. exact Hnode.
Qed.

(** The namespaces of two owners with different plain ids share nothing. *)
Lemma owner_dirs_disjoint (root : path) (a b : string) (rest : path) :
  a <> b -> Path.is_prefix (root ++ [b])%list (root ++ a :: rest)%list = false.
Proof.
  intros Hne. induction root as [| s root IH]; simpl.
  - apply String.eqb_neq in Hne. rewrite String.eqb_sym, Hne. reflexivity.
  - rewrite String.eqb_refl. exact IH.
Qed.

Lemma owner_keys_disjoint (a b r1 r2 : string) :
  Str.has_slash a = false -> Str.has_slash b = false ->
  a ++ "/" ++ r1 = b ++ "/" ++ r2 -> a = b.
Proof.
  revert b. induction a as [| x a IH]; intros [| y b] Ha Hb H; simpl in *.
  - reflexivity.
  - inversion H. subst y. simpl in Hb. discriminate.
  - inversion H. subst x. simpl in Ha. discriminate.
  - apply orb_false_iff in Ha. apply orb_false_iff in Hb.
    inversion H. subst y. f_equal. apply IH; tauto.
Qed.

(** What [normalize] returns has only segments it keeps. *)
Lemma normalize_from_normal stack segs :
  Path.is_normal stack = true -> Path.is_normal (Path.normalize_from stack segs) = true.
Proof.
  revert stack. induction segs as [| s segs IH]; intros stack H; simpl.
  - unfold Path.is_normal in *. rewrite forallb_forall in *.
    intros x Hx. apply H. apply in_rev. exact Hx.
  - destruct (String.eqb s "" || String.eqb s ".") eqn:E1; [apply IH; exact H |].
    destruct (String.eqb s "..") eqn:E2.
    + apply IH. destruct stack as [| a stack]; [reflexivity |].
      simpl in H. apply andb_prop in H. apply H.
    + apply IH. simpl. unfold Path.kept at 1. rewrite E1, E2. exact H.
Qed.

Lemma normalize_from_app (stack l1 l2 : list string) :
  Path.normalize_from stack (l1 ++ l2)%list
  = Path.normalize_from (rev (Path.normalize_from stack l1)) l2.
Proof.
  revert stack. induction l1 as [| s l1 IH]; intros stack; simpl.
  - rewrite rev_involutive. reflexivity.
  - destruct (String.eqb s "" || String.eqb s "."); [apply IH |].
    destruct (String.eqb s ".."); apply IH.
Qed.

(** Joining one plain name appends it to the normalized base. *)
Lemma join_plain (base : path) (seg : string) :
  Path.plain_segment seg = true ->
  Path.join base [seg] = (Path.normalize base ++ [seg])%list.
Proof.
  intros Hseg. apply plain_segment_inv in Hseg. destruct Hseg as (Hk & Hs).
  unfold Path.join, Path.normalize. simpl. rewrite split_slash_plain by exact Hs.
  simpl. rewrite normalize_from_app. simpl.
  unfold Path.kept in Hk. apply andb_prop in Hk. destruct Hk as (H1 & H2).
  rewrite negb_true_iff in H1, H2. rewrite H1, H2. simpl.
  rewrite rev_involutive. reflexivity.
Qed.

Lemma normalize_normal (p : path) : Path.is_normal p = true -> Path.normalize p = p.
Proof.
  intros H. unfold Path.normalize. rewrite <- (app_nil_r p) at 1.
  rewrite normalize_from_kept by exact H. simpl. rewrite app_nil_r, rev_involutive.
  reflexivity.
Qed.

Lemma normalize_is_normal (p : path) : Path.is_normal (Path.normalize p) = true.
Proof. apply normalize_from_normal. reflexivity. Qed.

Lemma is_normal_snoc (p : path) (seg : string) :
  Path.is_normal p = true -> Path.plain_segment seg = true ->
  Path.is_normal (p ++ [seg])%list = true.
Proof.
  intros Hp Hs. apply plain_segment_inv in Hs. destruct Hs as (Hk & _).
  unfold Path.is_normal in *. rewrite forallb_app, Hp. simpl. rewrite Hk. reflexivity.
Qed.

Lemma db_path_eq env : db_path env = (Path.normalize (cwd env) ++ ["database.db"])%list.
Proof. apply join_plain. reflexivity. Qed.

Lemma temp_path_eq env :
  Path.plain_segment (backup_file_name env) = true ->
  temp_path env = (Path.normalize (cwd env) ++ [backup_file_name env])%list.
Proof. intros H. apply join_plain. exact H. Qed.

Lemma restore_temp_path_eq env :
  restore_temp_path env = (Path.normalize (cwd env) ++ ["restore_temp.zip"])%list.
Proof. apply join_plain. reflexivity. Qed.

Lemma root_eq env w :
  well_placed env w ->
  localBackupDir (this w) = (Path.normalize (cwd env) ++ ["backups"])%list.
Proof. intros H. rewrite H. apply join_plain. reflexivity. Qed.

Lemma is_prefix_longer (base : path) (a b x : string) :
  Path.is_prefix (base ++ [a; b])%list (base ++ [x])%list = false.
Proof.
  induction base as [| s base IH]; simpl.
  - apply andb_false_r.
  - rewrite String.eqb_refl. exact IH.
Qed.

(** The three files of the working directory are inside [<root>/<id>]
    for no id. *)
Lemma working_files_apart env w other p :
  well_placed env w ->
  p = db_path env \/ p = temp_path env \/ p = restore_temp_path env ->
  Path.is_prefix (localBackupDir (this w) ++ [other])%list p = false.
Proof.
  intros Hw Hp. rewrite (root_eq env w Hw), <- app_assoc.
  destruct Hp as [-> | [-> | ->]].
  - rewrite db_path_eq. apply is_prefix_longer.
  - rewrite (temp_path_eq env (file_name_plain env)). apply is_prefix_longer.
  - rewrite restore_temp_path_eq. apply is_prefix_longer.
Qed.


(** The constructor leaves a normalized backup root. *)
Lemma constructor_root_normal env w w' :
  constructor env w = (Ok tt, w') ->
  Path.is_normal (localBackupDir (this w')) = true.
Proof.
  intros Hrun.
  assert (Hn : Path.is_normal (Path.join (cwd env) ["backups"]) = true)
    by (apply normalize_from_normal; reflexivity).
  unfold constructor, bind, ask, assign_localBackupDir, get_this, ensureDir, call in Hrun.
  simpl in Hrun.
  destruct (fault env _); [discriminate |].
  destruct (FS.mkdirs _ _ _ _); [| discriminate].
  simpl in Hrun.
  destruct (remote_configured env).
  - destruct (SUPABASE_URL env) as [url |], (SUPABASE_KEY env) as [key |];
      unfold try_catch, bind, createClient_, assign_client, assign_deployMode in Hrun;
      try destruct (createClient env url key);
      simpl in Hrun; inversion Hrun; exact Hn.
  - unfold assign_deployMode in Hrun. inversion Hrun. exact Hn.
Qed.

(** ** Runs that show where the code departs *)


(** C3: an error of the write stream escapes.  [zipDatabase] listens
    for ['error'] on the archiver and not on the write stream.  When the
    stream cannot open the staging archive - the working directory is
    not writable, or a directory is at that path - its ['error'] event is
    an uncaught exception: [createBackup] returns no result, the [catch]
    of line 113 is not entered.  An error of the archiver at the same
    step is caught and becomes the failure result. *)
Lemma stream_error_escapes :
  let w := Demo.started Demo.env0 in
  let staged := ["srv"; "app"; Demo.backup_name] in
  fst (createBackup "A" (Demo.read_only_cwd Demo.env0) w)
  = Exit (mkError "EACCES: permission denied, open") /\
  fst (createBackup "A" Demo.env0 (set_fs (FS.put (fs w) staged (Dir 0 0)) w))
  = Exit (mkError "EISDIR: illegal operation on a directory, open") /\
  fst (createBackup "A" (Demo.with_fault Demo.env0 Demo.zip_fails) w)
  = Ok {| success := false; size := 0; msg := "EACCES: permission denied, read" |}.
Proof. vm_compute. repeat split. Qed.

(** In cloud mode, whenever the listing is answered with a malformed
    body, [listBackups] rejects, having made the one call. *)
Lemma malformed_listing_rejects env w userId c e g :
  cloud_client (this w) = Some c ->
  fault env (ListObjects BUCKET userId list_options) = Some e ->
  garbled env (ListObjects BUCKET userId list_options) = Some g ->
  exists e', listBackups userId env w
             = (Throw e', log (ListObjects BUCKET userId list_options) w).
Proof.
  intros Hc Hf Hg. rewrite (listBackups_cloud env w userId c Hc). cbv zeta.
  rewrite Hf, Hg. apply data_map_garbled.
Qed.

(** When a directory is at [database.db], the existence test passes,
    the archiver adds the directory entry, and the backup succeeds with
    the size of that archive. *)
Lemma backup_of_a_directory :
  let w := Demo.started Demo.env0 in
  let w_dir := set_fs (FS.put (fs w) ["srv"; "app"; "database.db"] (Dir 0 0)) w in
  fst (createBackup "A" Demo.env0 w_dir)
  = Ok {| success := true; size := 3; msg := "Backup successful (local)" |}.
Proof. vm_compute. reflexivity. Qed.

(** C8: a listing that fails upward.  In cloud mode the storage server
    answers the listing with status 200 and a body that is not the array
    of objects - [null], an object, an array with a [null] element; the
    client returns it as [data], [data.map] of line 135 throws, and
    [listBackups] rejects: nothing around the cloud branch catches,
    whereas the local branch is a [try] whose [catch] returns the empty
    array, and an error answer of the client gives the empty array. *)
Lemma cloud_listing_fails_upward :
  let w := Demo.three_cloud in
  fst (listBackups "A" (Demo.list_answers Demo.env_cloud answer_null) w)
  = Throw (mkError "Cannot read properties of null (reading 'map')") /\
  fst (listBackups "A" (Demo.list_answers Demo.env_cloud answer_object) w)
  = Throw (mkError "data.map is not a function") /\
  fst (listBackups "A" (Demo.list_answers Demo.env_cloud answer_null_item) w)
  = Throw (mkError "Cannot read properties of null (reading 'name')") /\
  fst (listBackups "A" (Demo.with_fault Demo.env_cloud Demo.list_fails) w) = Ok [] /\
  fst (listBackups "A" (Demo.with_fault Demo.env0 (fun _ => Some (mkError "EIO")))
         Demo.three_local) = Ok [].
Proof. vm_compute. repeat split. Qed.

(** C4: the staging archive survives a failed upload.  In cloud mode
    the upload returns an error; [createBackup] reports the failure and
    the archive built at the temporary path is still there, whereas the
    same call with a successful upload removes it. *)
Lemma staging_archive_left_after_failed_upload :
  let env := Demo.with_fault Demo.env_cloud Demo.upload_fails in
  let w := Demo.started Demo.env_cloud in
  let r := createBackup "A" env w in
  fst r = Ok {| success := false; size := 0; msg := "upload failed" |} /\
  temp_path env = ["srv"; "app"; Demo.backup_name] /\
  FS.exists_ (fs w) (temp_path env) = false /\
  FS.exists_ (fs (snd r)) (temp_path env) = true /\
  FS.exists_ (fs (snd (createBackup "A" Demo.env_cloud w))) (temp_path env) = false.
Proof. vm_compute. repeat split. Qed.

(** C6, as stated, fails in its last part.  The database rejects the
    update: [createBackup] reports a failure, and it has called
    [updateStorageUsage] once. *)
Lemma failed_backup_has_called_usage_update :
  let env := Demo.with_fault Demo.env0 Demo.db_fails in
  let w := Demo.started Demo.env0 in
  let r := createBackup "A" env w in
  fst r = Ok {| success := false; size := 0; msg := "connection terminated" |} /\
  usage_calls (new_events w (snd r)) = [("A", 5)] /\
  usage_calls (new_events w (snd r)) <> [].
Proof. vm_compute. repeat split. discriminate. Qed.

(** ** The theorems at concrete states *)

Lemma mode_resolution_witness :
  constructor Demo.env_cloud Demo.boot = (Ok tt, Demo.started Demo.env_cloud) /\
  deployMode (this (Demo.started Demo.env_cloud)) = cloud.
Proof.
  split; [reflexivity |].
  apply (proj1 (mode_resolution Demo.env_cloud Demo.boot
                  (Demo.started Demo.env_cloud) eq_refl)).
  exists "https://x.supabase.co", "key",
    {| supabaseUrl := "https://x.supabase.co"; supabaseKey := "key" |}.
  repeat split; try reflexivity; discriminate.
Defined.

Lemma missing_source_witness :
  FS.exists_ (fs Demo.three_cloud) (Path.join (cwd Demo.env0) ["database.db"]) = false /\
  fst (createBackup "A" Demo.env0 Demo.three_cloud)
  = Ok {| success := false; size := 0;
          msg := "Database file (database.db) not found" |}.
Proof.
  split; [reflexivity |].
  exact (proj1 (missing_source Demo.env0 Demo.three_cloud "A" eq_refl)).
Defined.

Lemma usage_accounting_witness :
  let w := Demo.started Demo.env0 in
  let w' := snd (createBackup "A" Demo.env0 w) in
  usage_calls (new_events w w') = [("A", 5)] /\
  users w' = update_users_set_storageUsed 5 "A" (users w).
Proof.
  intros w w'.
  assert (Hrun : createBackup "A" Demo.env0 w
                 = (Ok {| success := true; size := 5;
                          msg := "Backup successful (local)" |}, w'))
    by (vm_compute; reflexivity).
  destruct (proj1 (usage_accounting Demo.env0 w "A" _ w' Hrun) eq_refl)
    as (Hcalls & Husers & _).
  split; [exact Hcalls | exact Husers].
Defined.

Lemma listing_order_witness :
  fst (listBackups "A" Demo.env0 Demo.three_local)
  = Ok [ {| id := "b3.zip"; name := "b3.zip"; rsize := 1; created_at := 30 |};
         {| id := "b2.zip"; name := "b2.zip"; rsize := 2; created_at := 20 |};
         {| id := "b1.zip"; name := "b1.zip"; rsize := 0; created_at := 10 |} ] /\
  fst (listBackups "A" Demo.env_cloud Demo.three_cloud)
  = Ok [ {| id := "b3.zip"; name := "b3.zip"; rsize := 1; created_at := 30 |};
         {| id := "b2.zip"; name := "b2.zip"; rsize := 1; created_at := 20 |};
         {| id := "b1.zip"; name := "b1.zip"; rsize := 1; created_at := 10 |} ].
Proof.
  split.
  - apply (proj1 (listing_order Demo.env0 Demo.three_local "A")
             "b1.zip" "b2.zip" "b3.zip" [] [Byte.x02; Byte.x02] [Byte.x03] 10 20 30 0 2);
      try reflexivity; try lia.
    change (Permutation (["b2.zip"; "b3.zip"] ++ ["b1.zip"])
                        (["b1.zip"] ++ ["b2.zip"; "b3.zip"])).
    apply Permutation_app_comm.
  - apply (proj2 (listing_order Demo.env_cloud Demo.three_cloud "A")
             {| supabaseUrl := "https://x.supabase.co"; supabaseKey := "key" |}
             bucket_options
             {| item_name := "b1.zip"; item_metadata_size := Some 1; item_created_at := 10 |}
             {| item_name := "b2.zip"; item_metadata_size := Some 1; item_created_at := 20 |}
             {| item_name := "b3.zip"; item_metadata_size := Some 1; item_created_at := 30 |});
      try reflexivity; try (simpl; lia).
    vm_compute. apply (Permutation_app_comm [_] [_; _]).
Defined.

Lemma cloud_restore_temp_path_witness :
  let w := Demo.cloud_with_backup_of_A in
  In (WriteFile ["srv"; "app"; "restore_temp.zip"]
        [Byte.x50; Byte.x4b; Byte.x01; Byte.x02; Byte.x03])
     (new_events w (snd (restoreBackup "A" Demo.backup_name Demo.env_cloud w))).
Proof.
  intros w.
  eapply (proj2 (cloud_restore_temp_path Demo.env_cloud w "A" Demo.backup_name
                   {| supabaseUrl := "https://x.supabase.co"; supabaseKey := "key" |}
                   eq_refl)).
  vm_compute. reflexivity.
Defined.

(** The recorded usage may exceed the limit: owner A has a limit of 4
    bytes and a usage of 5 is written. *)
Lemma updateStorageUsage_frame_witness :
  let w' := snd (updateStorageUsage "A" 5 Demo.env0 Demo.boot) in
  exists u', nth_error (users w') 0 = Some u' /\
             storageUsed u' = 5 /\ storageLimit u' = 4 /\
             nth_error (users w') 1 = nth_error (users Demo.boot) 1.
Proof.
  intros w'.
  destruct (updateStorageUsage_frame Demo.env0 Demo.boot "A" 5 eq_refl)
    as (_ & _ & Hrows & _).
  destruct (Hrows 0%nat _ eq_refl) as (u' & Hu' & Hused & _ & _ & _ & _ & _ & _ & Hlim & _).
  destruct (Hrows 1%nat _ eq_refl) as (u1 & Hu1 & _ & Hsame & _).
  exists u'. split; [| split; [| split]].
  - exact Hu'.
  - apply Hused. reflexivity.
  - rewrite Hlim. reflexivity.
  - fold w' in Hu1. rewrite Hu1, Hsame; [reflexivity | discriminate].
Defined.


(** * Further properties of the backup service *)

(** ** Paths below the working directory *)

Lemma is_prefix_spec (p q : path) :
  Path.is_prefix p q = true <-> exists rest, q = (p ++ rest)%list.
Proof.
  revert q. induction p as [| a p IH]; intros q; simpl.
  - split; [intros _; exists q; reflexivity | reflexivity].
  - destruct q as [| b q].
    + split; [discriminate | intros (rest & H); discriminate].
    + rewrite andb_true_iff, String.eqb_eq, IH. split.
      * intros (-> & rest & ->). exists rest. reflexivity.
      * intros (rest & H). inversion H. subst. split; [reflexivity | eauto].
Qed.

Lemma is_prefix_skipn (p q : path) :
  Path.is_prefix p q = true -> q = (p ++ skipn (length p) q)%list.
Proof.
  intros H. apply is_prefix_spec in H. destruct H as (rest & ->).
  rewrite skipn_app, skipn_all, Nat.sub_diag. reflexivity.
Qed.

Lemma is_prefix_length (p q : path) :
  Path.is_prefix p q = true -> (length p <= length q)%nat.
Proof.
  intros H. apply is_prefix_spec in H. destruct H as (rest & ->).
  rewrite length_app. lia.
Qed.

(** Two different names in one directory: neither path is below the other. *)
Lemma siblings_apart (d : path) (a b : string) :
  a <> b -> Path.is_prefix (d ++ [a])%list (d ++ [b])%list = false.
Proof.
  intros Hne. induction d as [| s d IH]; simpl.
  - apply String.eqb_neq in Hne. rewrite Hne. reflexivity.
  - rewrite String.eqb_refl. exact IH.
Qed.

Lemma longer_not_prefix (p q : path) :
  (length q < length p)%nat -> Path.is_prefix p q = false.
Proof.
  intros H. destruct (Path.is_prefix p q) eqn:E; [| reflexivity].
  apply is_prefix_length in E. lia.
Qed.

(** ** File-system facts *)

Lemma lookup_app (f g : FileSystem) (p : path) :
  FS.lookup (f ++ g)%list p
  = match FS.lookup f p with Some n => Some n | None => FS.lookup g p end.
Proof.
  induction f as [| (q, n) f IH]; simpl; auto.
  destruct (Path.eqb q p); auto.
Qed.

Lemma lookup_in (f : FileSystem) (p : path) (n : Node) :
  FS.lookup f p = Some n -> In (p, n) f.
Proof.
  induction f as [| (q, m) f IH]; simpl; [discriminate |].
  destruct (Path.eqb q p) eqn:E.
  - apply path_eqb_eq in E. intros H. inversion H. subst. auto.
  - auto.
Qed.

Lemma in_lookup (f : FileSystem) (p : path) (n : Node) :
  In (p, n) f -> FS.lookup f p <> None.
Proof.
  induction f as [| (q, m) f IH]; simpl; [tauto |].
  intros [H | H].
  - inversion H. subst. rewrite path_eqb_refl. discriminate.
  - destruct (Path.eqb q p); [discriminate | auto].
Qed.

Lemma path_eqb_neq (p q : path) : Path.eqb p q = false <-> p <> q.
Proof.
  destruct (Path.eqb p q) eqn:E.
  - apply path_eqb_eq in E. split; [discriminate | contradiction].
  - split; [| reflexivity]. intros _ H. apply path_eqb_eq in H. congruence.
Qed.

Lemma lookup_put_ne (f : FileSystem) (p q : path) (n : Node) :
  p <> q -> FS.lookup (FS.put f p n) q = FS.lookup f q.
Proof.
  intros Hne. unfold FS.put. rewrite lookup_app. simpl.
  apply path_eqb_neq in Hne. rewrite Hne.
  assert (H : FS.lookup (filter (fun e => negb (Path.eqb (fst e) p)) f) q = FS.lookup f q).
  { induction f as [| (r, m) f IH]; simpl; auto.
    destruct (Path.eqb r p) eqn:E1; simpl.
    - apply path_eqb_eq in E1. subst r. rewrite Hne. exact IH.
    - destruct (Path.eqb r q); auto. }
  rewrite H. destruct (FS.lookup f q); reflexivity.
Qed.

(** [mkdir -p] keeps every entry that is there. *)
Lemma mkdirs_keeps now f base segs f' q n :
  FS.mkdirs now f base segs = Some f' ->
  FS.lookup f q = Some n -> FS.lookup f' q = Some n.
Proof.
  revert f base. induction segs as [| s segs IH]; intros f base H Hq; simpl in H.
  - inversion H. subst. exact Hq.
  - destruct (FS.lookup f (base ++ [s])%list) as [[c b | sz b] |].
    + discriminate.
    + exact (IH _ _ H Hq).
    + apply (IH _ _ H). rewrite lookup_app, Hq. reflexivity.
Qed.

(** ... and the directory asked for is there afterwards. *)
Lemma mkdirs_made now f base segs f' :
  FS.mkdirs now f base segs = Some f' -> segs <> [] ->
  exists sz b, FS.lookup f' (base ++ segs)%list = Some (Dir sz b).
Proof.
  revert f base. induction segs as [| s segs IH]; intros f base H Hne; [congruence |].
  simpl in H.
  replace (base ++ s :: segs)%list with ((base ++ [s]) ++ segs)%list
    by (rewrite <- app_assoc; reflexivity).
  destruct (FS.lookup f (base ++ [s])%list) as [[c b | sz b] |] eqn:E; [discriminate | |].
  - destruct segs as [| s' segs].
    + simpl in H. inversion H. subst. rewrite app_nil_r. eauto.
    + apply (IH _ _ H). discriminate.
  - destruct segs as [| s' segs].
    + simpl in H. inversion H. subst. rewrite app_nil_r.
      rewrite lookup_app, E. simpl. rewrite path_eqb_refl. eauto.
    + apply (IH _ _ H). discriminate.
Qed.

Lemma rename_lookup_dst f src dst :
  FS.lookup f dst = None ->
  FS.lookup (FS.rename f src dst) dst = FS.lookup f src.
Proof.
  induction f as [| (p, n) f IH]; simpl; [reflexivity |].
  destruct (Path.eqb p dst) eqn:Epd; [discriminate |]. intros Hnone.
  destruct (Path.is_prefix src p) eqn:Epre; simpl.
  - destruct (Path.eqb p src) eqn:Eps.
    + apply path_eqb_eq in Eps. subst p.
      rewrite skipn_all, app_nil_r, path_eqb_refl. reflexivity.
    + assert (Hne : Path.eqb (dst ++ skipn (length src) p)%list dst = false).
      { apply path_eqb_neq. intros H.
        rewrite <- (app_nil_r dst) in H at 2. apply app_inv_head in H.
        apply is_prefix_skipn in Epre. rewrite H, app_nil_r in Epre.
        apply path_eqb_neq in Eps. congruence. }
      rewrite Hne. apply IH. exact Hnone.
  - rewrite Epd.
    destruct (Path.eqb p src) eqn:Eps.
    + apply path_eqb_eq in Eps. subst p. rewrite is_prefix_refl in Epre. discriminate.
    + apply IH. exact Hnone.
Qed.

Lemma rename_lookup_src f src dst :
  Path.is_prefix dst src = false ->
  FS.lookup (FS.rename f src dst) src = None.
Proof.
  intros Hnp. induction f as [| (p, n) f IH]; simpl; [reflexivity |].
  destruct (Path.is_prefix src p) eqn:Epre; simpl.
  - assert (Hne : Path.eqb (dst ++ skipn (length src) p)%list src = false).
    { apply path_eqb_neq. intros H. rewrite <- H, is_prefix_app in Hnp. discriminate. }
    rewrite Hne. exact IH.
  - destruct (Path.eqb p src) eqn:Eps; [| exact IH].
    apply path_eqb_eq in Eps. subst p. rewrite is_prefix_refl in Epre. discriminate.
Qed.

Lemma rename_lookup_other f src dst q :
  Path.is_prefix src q = false -> Path.is_prefix dst q = false ->
  FS.lookup (FS.rename f src dst) q = FS.lookup f q.
Proof.
  intros Hs Hd. induction f as [| (p, n) f IH]; simpl; [reflexivity |].
  destruct (Path.is_prefix src p) eqn:Epre; simpl.
  - assert (Hne : Path.eqb (dst ++ skipn (length src) p)%list q = false).
    { apply path_eqb_neq. intros H. rewrite <- H, is_prefix_app in Hd. discriminate. }
    rewrite Hne.
    destruct (Path.eqb p q) eqn:Epq; [| exact IH].
    apply path_eqb_eq in Epq. subst p. congruence.
  - destruct (Path.eqb p q); [reflexivity | exact IH].
Qed.

Lemma remove_lookup_gone f p : FS.lookup (FS.remove f p) p = None.
Proof.
  unfold FS.remove. induction f as [| (q, n) f IH]; simpl; [reflexivity |].
  destruct (Path.is_prefix p q) eqn:E; simpl; [exact IH |].
  destruct (Path.eqb q p) eqn:Eq; [| exact IH].
  apply path_eqb_eq in Eq. subst q. rewrite is_prefix_refl in E. discriminate.
Qed.

Lemma remove_lookup_other f p q :
  Path.is_prefix p q = false -> FS.lookup (FS.remove f p) q = FS.lookup f q.
Proof.
  intros H. unfold FS.remove. induction f as [| (r, n) f IH]; simpl; [reflexivity |].
  destruct (Path.is_prefix p r) eqn:E; simpl.
  - destruct (Path.eqb r q) eqn:Eq; [| exact IH].
    apply path_eqb_eq in Eq. subst r. congruence.
  - destruct (Path.eqb r q); [reflexivity | exact IH].
Qed.

(** ** What each call does to the state *)

Lemma write_node_frame env w p buf w' :
  write_node env w p buf = Some w' ->
  this w' = this w /\ store w' = store w /\ users w' = users w /\ trace w' = trace w /\
  forall q, q <> p -> FS.lookup (fs w') q = FS.lookup (fs w) q.
Proof.
  unfold write_node.
  destruct (FS.lookup (fs w) p) as [[c b | s b] |]; intros H; inversion H; simpl;
    repeat split; intros q Hq; apply lookup_put_ne; congruence.
Qed.

Lemma zipDatabase_frame env w source out r w2 :
  zipDatabase source out env w = (r, w2) ->
  this w2 = this w /\ store w2 = store w /\ users w2 = users w /\
  forall q, q <> out -> FS.lookup (fs w2) q = FS.lookup (fs w) q.
Proof.
  unfold zipDatabase.
  destruct (stream_fault env out); [intros H; inversion H; repeat split |].
  destruct (write_node env (log (Zip source out) w) out []) as [w1 |] eqn:E1.
  - apply write_node_frame in E1. destruct E1 as (Ht & Hs & Hu & _ & Hfs).
    assert (Hw1 : this w1 = this w /\ store w1 = store w /\ users w1 = users w /\
                  forall q, q <> out -> FS.lookup (fs w1) q = FS.lookup (fs w) q).
    { repeat split; auto. }
    destruct (fault env (Zip source out)); [intros H; inversion H; subst; exact Hw1 |].
    destruct (write_node env w1 out _) as [w3 |] eqn:E2;
      intros H; inversion H; subst; [| exact Hw1].
    apply write_node_frame in E2. destruct E2 as (Ht' & Hs' & Hu' & _ & Hfs').
    destruct Hw1 as (A & B & C & D).
    repeat split; try congruence. intros q Hq. rewrite Hfs', D; auto.
  - intros H. inversion H. repeat split.
Qed.

Lemma stat_ok env w p st w2 :
  stat p env w = (Ok st, w2) ->
  w2 = log (Stat p) w /\ exists n, FS.lookup (fs w) p = Some n /\ st = FS.stats_of n.
Proof.
  unfold stat, call. destruct (fault env (Stat p)); [discriminate |].
  change (fs (log (Stat p) w)) with (fs w).
  destruct (FS.lookup (fs w) p) as [n |]; intros H; inversion H. eauto.
Qed.

Lemma ensureDir_ok env w p w2 :
  ensureDir p env w = (Ok tt, w2) ->
  exists f', FS.mkdirs (now_ms env) (fs w) [] p = Some f' /\
             w2 = set_fs f' (log (EnsureDir p) w).
Proof.
  unfold ensureDir, call. destruct (fault env (EnsureDir p)); [discriminate |].
  change (fs (log (EnsureDir p) w)) with (fs w).
  destruct (FS.mkdirs (now_ms env) (fs w) [] p) as [f' |]; intros H; inversion H. eauto.
Qed.

Lemma move_ok env w src dst w2 :
  move src dst env w = (Ok tt, w2) ->
  exists n f', FS.lookup (fs w) src = Some n /\
               FS.mkdirs (now_ms env) (fs w) [] (Path.parent dst) = Some f' /\
               FS.lookup f' dst = None /\
               w2 = set_fs (FS.rename f' src dst) (log (Move src dst) w).
Proof.
  unfold move, call. destruct (fault env (Move src dst)); [discriminate |].
  change (fs (log (Move src dst) w)) with (fs w).
  destruct (FS.lookup (fs w) src) as [n |]; [| discriminate].
  destruct (Path.eqb src dst); [discriminate |].
  destruct (FS.mkdirs (now_ms env) (fs w) [] (Path.parent dst)) as [f' |]; [| discriminate].
  unfold FS.exists_. destruct (FS.lookup f' dst) eqn:E; intros H; inversion H.
  exists n, f'. repeat split; auto.
Qed.

Lemma readFile_ok env w p buf w2 :
  readFile p env w = (Ok buf, w2) ->
  w2 = log (ReadFile p) w /\ exists b, FS.lookup (fs w) p = Some (File buf b).
Proof.
  unfold readFile, call. destruct (fault env (ReadFile p)); [discriminate |].
  change (fs (log (ReadFile p) w)) with (fs w).
  destruct (FS.lookup (fs w) p) as [[c b | s b] |]; intros H; inversion H. eauto.
Qed.

Lemma remove_ok env w p r w2 :
  remove p env w = (r, w2) ->
  (r = Ok tt -> w2 = set_fs (FS.remove (fs w) p) (log (Remove p) w)).
Proof.
  unfold remove, call. destruct (fault env (Remove p)); intros H; inversion H; auto.
  discriminate.
Qed.

Lemma updateStorageUsage_fs env w u n r w2 :
  updateStorageUsage u n env w = (r, w2) ->
  fs w2 = fs w /\ store w2 = store w /\ this w2 = this w.
Proof.
  unfold updateStorageUsage, call. destruct (fault env _); intros H; inversion H;
    repeat split.
Qed.

(** *** The bucket *)

Lemma bucket_lookup_add c b o :
  Store.bucket_lookup c b = None ->
  Store.bucket_lookup (Store.add_bucket c b o) b = Some o.
Proof.
  unfold Store.bucket_lookup, Store.add_bucket. simpl.
  induction (buckets c) as [| (b', o') l IH]; simpl.
  - rewrite String.eqb_refl. reflexivity.
  - destruct (String.eqb b' b); [discriminate | exact IH].
Qed.

Lemma bucket_lookup_add_keeps c b o b' o' :
  Store.bucket_lookup c b' = Some o' ->
  Store.bucket_lookup (Store.add_bucket c b o) b' = Some o'.
Proof.
  unfold Store.bucket_lookup, Store.add_bucket. simpl.
  induction (buckets c) as [| (b0, o0) l IH]; simpl; [discriminate |].
  destruct (String.eqb b0 b'); [auto | exact IH].
Qed.

Lemma not_found_is_not_found what : is_not_found (Store.not_found what) = true.
Proof. unfold is_not_found, Store.not_found. simpl. apply orb_true_r. Qed.

(** Whatever [ensure_bucket] returns, it has touched nothing but the
    list of buckets, and has dropped none. *)
Lemma ensure_bucket_frame env w r w2 :
  ensure_bucket env w = (r, w2) ->
  this w2 = this w /\ fs w2 = fs w /\ users w2 = users w /\
  objects (store w2) = objects (store w) /\
  (forall b o, Store.bucket_lookup (store w) b = Some o ->
               Store.bucket_lookup (store w2) b = Some o) /\
  (r = Ok tt -> Store.bucket_lookup (store w2) BUCKET <> None \/
                fault env (GetBucket BUCKET) <> None \/
                fault env (CreateBucket BUCKET bucket_options) <> None).
Proof.
  assert (Hcreate : forall w0,
    this w0 = this w -> fs w0 = fs w -> users w0 = users w -> store w0 = store w ->
    Store.bucket_lookup (store w) BUCKET = None \/ fault env (GetBucket BUCKET) <> None ->
    forall r' w',
      (r' <- createBucket BUCKET bucket_options ;;
       match r' with
       | inl createError =>
           throw (mkError ("Supabase bucket 'momo-backups' missing and auto-creation failed: "
                           ++ message createError ++ ". Please create it manually."))
       | inr _ => ret tt
       end) env w0 = (r', w') ->
      this w' = this w /\ fs w' = fs w /\ users w' = users w /\
      objects (store w') = objects (store w) /\
      (forall b o, Store.bucket_lookup (store w) b = Some o ->
                   Store.bucket_lookup (store w') b = Some o) /\
      (r' = Ok tt -> Store.bucket_lookup (store w') BUCKET <> None \/
                     fault env (GetBucket BUCKET) <> None \/
                     fault env (CreateBucket BUCKET bucket_options) <> None)).
  { intros w0 Ht Hf Hu Hs Hwhy r' w'. unfold bind, createBucket, client_call.
    destruct (fault env (CreateBucket BUCKET bucket_options)) as [e' |] eqn:Fc.
    - intros H. injection H as <- <-. cbn [this fs users store log].
      rewrite Hs. repeat split; auto. discriminate.
    - cbn [store log]. rewrite Hs.
      destruct (Store.bucket_lookup (store w) BUCKET) eqn:Eb;
        intros H; injection H as <- <-; cbn [this fs users store log set_store].
      + rewrite ?Hs. repeat split; auto. discriminate.
      + repeat split; auto.
        * intros b o Hb. apply bucket_lookup_add_keeps. exact Hb.
        * intros _. left. rewrite bucket_lookup_add by exact Eb. discriminate. }
  unfold ensure_bucket. unfold bind at 1. unfold getBucket, client_call.
  destruct (fault env (GetBucket BUCKET)) as [e |] eqn:Fg.
  - destruct (is_not_found e).
    + apply Hcreate; auto. right. discriminate.
    + intros H. injection H as <- <-. cbn [this fs users store log].
      repeat split; auto. discriminate.
  - cbn [store log].
    destruct (Store.bucket_lookup (store w) BUCKET) as [o |] eqn:Eb.
    + intros H. injection H as <- <-. cbn [this fs users store log].
      repeat split; auto. intros _. left. rewrite Eb. discriminate.
    + rewrite not_found_is_not_found. apply Hcreate; auto.
Qed.

(** ** A successful backup *)

Lemma backup_file_name_not_db env : backup_file_name env <> "database.db".
Proof. unfold backup_file_name. simpl. discriminate. Qed.

Lemma root_normal env w : well_placed env w -> Path.is_normal (localBackupDir (this w)) = true.
Proof.
  intros H. rewrite (root_eq env w H). apply is_normal_snoc; [| reflexivity].
  apply normalize_is_normal.
Qed.

Lemma owner_dir_eq env w userId :
  well_placed env w -> Path.plain_segment userId = true ->
  Path.join (localBackupDir (this w)) [userId] = owner_backup_dir env userId.
Proof.
  intros Hw Hu. rewrite (join_owner _ _ (root_normal env w Hw) Hu).
  rewrite (root_eq env w Hw). unfold owner_backup_dir.
  rewrite <- app_assoc. reflexivity.
Qed.

Lemma owner_backup_dir_normal env userId :
  Path.plain_segment userId = true -> Path.is_normal (owner_backup_dir env userId) = true.
Proof.
  intros Hu. unfold owner_backup_dir.
  change ["backups"; userId] with (["backups"] ++ [userId])%list.
  rewrite app_assoc. apply is_normal_snoc; [| exact Hu].
  apply is_normal_snoc; [apply normalize_is_normal | reflexivity].
Qed.

Lemma owner_target_eq env userId :
  Path.plain_segment userId = true ->
  Path.plain_segment (backup_file_name env) = true ->
  Path.join (owner_backup_dir env userId) [backup_file_name env] = owner_target env userId.
Proof.
  intros Hu Hn. rewrite join_plain by exact Hn.
  rewrite normalize_normal by (apply owner_backup_dir_normal; exact Hu).
  unfold owner_backup_dir, owner_target. rewrite <- app_assoc. reflexivity.
Qed.

Lemma owner_target_parent env userId :
  Path.parent (owner_target env userId) = owner_backup_dir env userId.
Proof.
  unfold Path.parent, owner_target, owner_backup_dir.
  change ["backups"; userId; backup_file_name env]
    with (["backups"; userId] ++ [backup_file_name env])%list.
  rewrite app_assoc. apply removelast_last.
Qed.

(** The result and final state of [createBackup] when it succeeds. *)
Lemma createBackup_success env w userId r w' :
  createBackup userId env w = (Ok r, w') -> success r = true ->
  exists w1,
    stage_and_store userId env w = (Ok (size r), w1) /\
    fs w' = fs w1 /\ store w' = store w1 /\ this w' = this w1.
Proof.
  unfold createBackup, try_catch, createBackup_try, bind.
  destruct (stage_and_store userId env w) as [[n | e | e] w1]; [| | discriminate].
  - destruct (updateStorageUsage userId n env w1) as [[[] | e | e] w2] eqn:EU;
      [| | discriminate].
    + apply updateStorageUsage_fs in EU. destruct EU as (A & B & C).
      unfold get_this, ret. intros H. injection H as <- <-. simpl. intros _.
      exists w1. auto.
    + unfold ret. intros H. injection H as <- <-. discriminate.
  - unfold ret. intros H. injection H as <- <-. discriminate.
Qed.

(** Local mode: the stages of a successful run. *)
Lemma stage_and_store_local env w userId n w1 :
  cloud_client (this w) = None ->
  well_placed env w ->
  Path.plain_segment userId = true ->
  Path.plain_segment (backup_file_name env) = true ->
  stage_and_store userId env w = (Ok n, w1) ->
  exists node b',
    FS.lookup (fs w) (db_path env) = Some node /\
    n = Z.of_nat (length (archive_of env (Some node))) /\
    FS.lookup (fs w) (owner_target env userId) = None /\
    FS.lookup (fs w1) (owner_target env userId)
    = Some (File (archive_of env (Some node)) b') /\
    FS.lookup (fs w1) (temp_path env) = None /\
    FS.lookup (fs w1) (db_path env) = Some node /\
    (exists sz bd, FS.lookup (fs w1) (owner_backup_dir env userId) = Some (Dir sz bd)) /\
    store w1 = store w.
Proof.
  intros Hc Hplace Hu Hn.
  pose proof (temp_path_eq env Hn) as Etemp.
  pose proof (db_path_eq env) as Edb.
  set (C := Path.normalize (cwd env)) in *.
  assert (Hdt : db_path env <> temp_path env).
  { rewrite Edb, Etemp. intros H. apply app_inv_head in H.
    apply (backup_file_name_not_db env). congruence. }
  assert (Htt : owner_target env userId <> temp_path env).
  { rewrite Etemp. unfold owner_target. fold C. intros H. apply app_inv_head in H.
    discriminate. }
  assert (Hpre1 : Path.is_prefix (owner_target env userId) (temp_path env) = false).
  { apply longer_not_prefix. rewrite Etemp. unfold owner_target. fold C.
    rewrite !length_app. simpl. lia. }
  assert (Hpre2 : Path.is_prefix (temp_path env) (db_path env) = false).
  { rewrite Etemp, Edb. apply siblings_apart. apply backup_file_name_not_db. }
  assert (Hpre3 : Path.is_prefix (owner_target env userId) (db_path env) = false).
  { apply longer_not_prefix. rewrite Edb. unfold owner_target. fold C.
    rewrite !length_app. simpl. lia. }
  assert (Hpre4 : Path.is_prefix (temp_path env) (owner_backup_dir env userId) = false).
  { rewrite Etemp. unfold owner_backup_dir. fold C.
    apply owner_dirs_disjoint. unfold backup_file_name. simpl. discriminate. }
  assert (Hpre5 : Path.is_prefix (owner_target env userId) (owner_backup_dir env userId)
                  = false).
  { apply longer_not_prefix. unfold owner_target, owner_backup_dir.
    rewrite !length_app. simpl. lia. }
  unfold stage_and_store, bind, ask, pathExists.
  destruct (negb _) eqn:Efound; [discriminate |]. unfold ret at 1.
  apply negb_false_iff in Efound.
  assert (Hsrc : exists node, FS.lookup (fs w) (db_path env) = Some node).
  { destruct (fault env (PathExists (db_path env))); [discriminate |].
    unfold FS.exists_ in Efound.
    destruct (FS.lookup (fs w) (db_path env)) as [node |]; [eauto | discriminate]. }
  destruct Hsrc as (node & Hsrc). clear Efound.
  destruct (zipDatabase (db_path env) (temp_path env) env
              (log (PathExists (db_path env)) w)) as [[[] | e | e] w2] eqn:EZ;
    try discriminate.
  pose proof (zipDatabase_ok _ _ _ _ _ EZ) as (b' & Hout).
  pose proof (zipDatabase_frame _ _ _ _ _ _ EZ) as (Ht2 & Hs2 & _ & Hfs2).
  cbn [fs this store log] in Hout, Ht2, Hs2, Hfs2. rewrite Hsrc in Hout.
  destruct (stat (temp_path env) env w2) as [[st | e | e] w3] eqn:ES; try discriminate.
  apply stat_ok in ES. destruct ES as (-> & nd & Hnd & ->).
  rewrite Hout in Hnd. injection Hnd as <-.
  unfold store_archive, bind, get_this. cbn [this log]. rewrite Ht2, Hc.
  rewrite (owner_dir_eq env w userId Hplace Hu).
  rewrite (owner_target_eq env userId Hu Hn).
  destruct (ensureDir (owner_backup_dir env userId) env (log (Stat (temp_path env)) w2))
    as [[[] | e | e] w4] eqn:EE; try discriminate.
  apply ensureDir_ok in EE. destruct EE as (f4 & Hmk4 & ->).
  cbn [fs log] in Hmk4.
  destruct (move (temp_path env) (owner_target env userId) env _) as [[[] | e | e] w5] eqn:EM;
    try discriminate.
  apply move_ok in EM. destruct EM as (nd & f5 & Hsrc5 & Hmk5 & Hdst5 & ->).
  cbn [fs log set_fs] in Hsrc5, Hmk5.
  rewrite owner_target_parent in Hmk5.
  unfold ret. intros H. injection H as <- <-. cbn [fs store set_fs log].
  assert (Htemp5 : FS.lookup f5 (temp_path env)
                   = Some (File (archive_of env (Some node)) b')).
  { eapply mkdirs_keeps; [exact Hmk5 |]. eapply mkdirs_keeps; [exact Hmk4 |]. exact Hout. }
  assert (Hdb5 : FS.lookup f5 (db_path env) = Some node).
  { eapply mkdirs_keeps; [exact Hmk5 |]. eapply mkdirs_keeps; [exact Hmk4 |].
    rewrite Hfs2 by exact Hdt. exact Hsrc. }
  exists node, b'. repeat split.
  - exact Hsrc.
  - destruct (FS.lookup (fs w) (owner_target env userId)) as [nd0 |] eqn:E0; [| reflexivity].
    rewrite <- (Hfs2 _ Htt) in E0.
    pose proof (mkdirs_keeps _ _ _ _ _ _ _ Hmk5 (mkdirs_keeps _ _ _ _ _ _ _ Hmk4 E0)) as Hx.
    congruence.
  - rewrite rename_lookup_dst by exact Hdst5. exact Htemp5.
  - apply rename_lookup_src. exact Hpre1.
  - rewrite rename_lookup_other by assumption. exact Hdb5.
  - destruct (mkdirs_made _ _ _ _ _ Hmk5) as (sz & bd & Hd).
    { unfold owner_backup_dir. destruct (Path.normalize (cwd env)); discriminate. }
    exists sz, bd. rewrite rename_lookup_other by assumption. exact Hd.
  - exact Hs2.
Qed.

(** X4. A successful local backup.  The instance is in local mode and
    keeps its backups in [<cwd>/backups]; the owner id is a plain name.
    When [createBackup] reports success, something was at [database.db],
    a file or a directory; the archive the archiver makes of it (of the
    content of the file; of the one directory entry) is the file
    [backups/<owner>/<file name>], which did not exist before; the
    reported size is its size; the staging file is gone; [database.db] is
    as before, and so is the object store. *)
Theorem local_backup_stored (env : Env) (w : World) (userId : string)
  (r : BackupResult) (w' : World) :
  cloud_client (this w) = None ->
  well_placed env w ->
  Path.plain_segment userId = true ->
  createBackup userId env w = (Ok r, w') -> success r = true ->
  exists node b',
    FS.lookup (fs w) (db_path env) = Some node /\
    size r = Z.of_nat (length (archive_of env (Some node))) /\
    FS.lookup (fs w) (owner_target env userId) = None /\
    FS.lookup (fs w') (owner_target env userId)
    = Some (File (archive_of env (Some node)) b') /\
    FS.lookup (fs w') (temp_path env) = None /\
    FS.lookup (fs w') (db_path env) = Some node /\
    store w' = store w.
Proof.
  intros Hc Hplace Hu Hrun Hok.
  destruct (createBackup_success _ _ _ _ _ Hrun Hok) as (w1 & Hst & Hfs & Hs & _).
  destruct (stage_and_store_local _ _ _ _ _ Hc Hplace Hu (file_name_plain env) Hst)
    as (node & b' & H1 & H2 & H3 & H4 & H5 & H6 & _ & H8).
  exists node, b'. rewrite Hfs, Hs. repeat split; assumption.
Qed.

Lemma find_key_filter b k (l : list (string * string * StoredObject)) :
  find (Store.key_is b k) (filter (fun e => negb (Store.key_is b k e)) l) = None.
Proof.
  induction l as [| e l IH]; simpl; auto.
  destruct (Store.key_is b k e) eqn:E; simpl; auto. rewrite E. exact IH.
Qed.

Lemma find_app_none {A} (f : A -> bool) (l1 l2 : list A) :
  find f l1 = None -> find f (l1 ++ l2) = find f l2.
Proof.
  induction l1 as [| x l1 IH]; simpl; auto. destruct (f x); [discriminate | exact IH].
Qed.

Lemma find_app_some {A} (f : A -> bool) (l1 l2 : list A) x :
  find f l1 = Some x -> find f (l1 ++ l2) = Some x.
Proof.
  induction l1 as [| y l1 IH]; simpl; [discriminate |]. destruct (f y); auto.
Qed.

Lemma object_lookup_put c b k o :
  Store.object_lookup (Store.put_object c b k o) b k = Some o.
Proof.
  unfold Store.object_lookup, Store.put_object. simpl.
  rewrite find_app_none by apply find_key_filter. simpl.
  unfold Store.key_is at 1. simpl. rewrite !String.eqb_refl. reflexivity.
Qed.

Lemma key_is_spec b k e :
  Store.key_is b k e = true <-> fst (fst e) = b /\ snd (fst e) = k.
Proof.
  unfold Store.key_is. rewrite andb_true_iff, !String.eqb_eq. tauto.
Qed.

Lemma object_lookup_put_ne c b k o b' k' :
  (b', k') <> (b, k) ->
  Store.object_lookup (Store.put_object c b k o) b' k' = Store.object_lookup c b' k'.
Proof.
  intros Hne. unfold Store.object_lookup, Store.put_object. simpl. f_equal.
  assert (Hlast : Store.key_is b' k' (b, k, o) = false).
  { destruct (Store.key_is b' k' (b, k, o)) eqn:E; [| reflexivity].
    apply key_is_spec in E. simpl in E. destruct E as (-> & ->). congruence. }
  induction (objects c) as [| e l IH]; simpl.
  - rewrite Hlast. reflexivity.
  - destruct (Store.key_is b k e) eqn:E1; simpl.
    + destruct (Store.key_is b' k' e) eqn:E2; [| exact IH].
      apply key_is_spec in E1. apply key_is_spec in E2.
      destruct E1 as (<- & <-). destruct E2 as (<- & <-). congruence.
    + destruct (Store.key_is b' k' e); [reflexivity | exact IH].
Qed.

Lemma upload_ok env w b key buf opts w2 :
  upload b key buf opts env w = (Ok (inr tt), w2) ->
  Store.bucket_lookup (store w) b <> None /\
  w2 = set_store (Store.put_object (store w) b key
                    {| body := buf; meta_size := Some (Z.of_nat (length buf));
                       obj_created_at := now_ms env |})
         (log (Upload b key buf opts) w).
Proof.
  unfold upload, client_call. destruct (fault env _); [discriminate |].
  cbn [store log].
  destruct (Store.bucket_lookup (store w) b) as [bo |]; [| discriminate].
  destruct (fileSizeLimit bo <? Z.of_nat (length buf)); [discriminate |].
  destruct (negb (mime_allowed bo (contentType opts))); [discriminate |].
  destruct (Store.object_lookup (store w) b key);
    [destruct (upsert opts); [| discriminate] |];
    intros H; injection H as <-; split; (discriminate || reflexivity).
Qed.

(** Cloud mode: the stages of a successful run. *)
Lemma stage_and_store_cloud env w userId n w1 cl :
  cloud_client (this w) = Some cl ->
  Path.plain_segment (backup_file_name env) = true ->
  stage_and_store userId env w = (Ok n, w1) ->
  exists node,
    FS.lookup (fs w) (db_path env) = Some node /\
    n = Z.of_nat (length (archive_of env (Some node))) /\
    (exists st, store w1
       = Store.put_object st BUCKET (owner_object_key env userId)
           {| body := archive_of env (Some node); meta_size := Some n;
              obj_created_at := now_ms env |}
       /\ objects st = objects (store w)
       /\ Store.bucket_lookup st BUCKET <> None) /\
    FS.lookup (fs w1) (temp_path env) = None /\
    FS.lookup (fs w1) (db_path env) = Some node.
Proof.
  intros Hc Hn.
  pose proof (temp_path_eq env Hn) as Etemp.
  pose proof (db_path_eq env) as Edb.
  assert (Hdt : db_path env <> temp_path env).
  { rewrite Edb, Etemp. intros H. apply app_inv_head in H.
    apply (backup_file_name_not_db env). congruence. }
  assert (Hpre : Path.is_prefix (temp_path env) (db_path env) = false).
  { rewrite Etemp, Edb. apply siblings_apart. apply backup_file_name_not_db. }
  unfold stage_and_store, bind, ask, pathExists.
  destruct (negb _) eqn:Efound; [discriminate |]. unfold ret at 1.
  apply negb_false_iff in Efound.
  assert (Hsrc : exists node, FS.lookup (fs w) (db_path env) = Some node).
  { destruct (fault env (PathExists (db_path env))); [discriminate |].
    unfold FS.exists_ in Efound.
    destruct (FS.lookup (fs w) (db_path env)) as [node |]; [eauto | discriminate]. }
  destruct Hsrc as (node & Hsrc). clear Efound.
  destruct (zipDatabase (db_path env) (temp_path env) env
              (log (PathExists (db_path env)) w)) as [[[] | e | e] w2] eqn:EZ;
    try discriminate.
  pose proof (zipDatabase_ok _ _ _ _ _ EZ) as (b' & Hout).
  pose proof (zipDatabase_frame _ _ _ _ _ _ EZ) as (Ht2 & Hs2 & _ & Hfs2).
  cbn [fs this store log] in Hout, Ht2, Hs2, Hfs2. rewrite Hsrc in Hout.
  destruct (stat (temp_path env) env w2) as [[st | e | e] w3] eqn:ES; try discriminate.
  apply stat_ok in ES. destruct ES as (-> & nd & Hnd & ->).
  rewrite Hout in Hnd. injection Hnd as <-.
  unfold store_archive, bind, get_this. cbn [this log]. rewrite Ht2, Hc.
  destruct (ensure_bucket env (log (Stat (temp_path env)) w2)) as [[[] | e | e] w4] eqn:EB;
    try discriminate.
  apply ensure_bucket_frame in EB.
  destruct EB as (Ht4 & Hfs4 & _ & Hobj4 & _ & _).
  cbn [fs this store log] in Ht4, Hfs4, Hobj4.
  destruct (readFile (temp_path env) env w4) as [[buf | e | e] w5] eqn:ER; try discriminate.
  apply readFile_ok in ER. destruct ER as (-> & b0 & Hbuf).
  rewrite Hfs4, Hout in Hbuf. injection Hbuf as <- <-.
  destruct (upload BUCKET (userId ++ "/" ++ backup_file_name env) _ _ env _)
    as [[[e | []] | e | e] w6] eqn:EU; try discriminate.
  apply upload_ok in EU. destruct EU as (Hbk & ->).
  cbn [store log] in Hbk.
  destruct (remove (temp_path env) env _) as [[[] | e | e] w7] eqn:ERm; try discriminate.
  apply remove_ok in ERm; [| reflexivity]. subst w7.
  unfold ret. intros H. injection H as <- <-. cbn [fs store set_fs set_store log].
  exists node. repeat split.
  - exact Hsrc.
  - exists (store w4). repeat split.
    + rewrite Hobj4, Hs2. reflexivity.
    + exact Hbk.
  - apply remove_lookup_gone.
  - rewrite remove_lookup_other by exact Hpre.
    rewrite Hfs4, Hfs2 by exact Hdt. exact Hsrc.
Qed.

(** X5. A successful cloud backup.  When [createBackup] reports
    success in cloud mode, something was at [database.db], a file or a
    directory; the bucket exists and holds, under the key
    [<owner>/<file name>], the archive the archiver makes of it, with its
    size as metadata; the reported size is that size; every other object
    is as before; the staging file is gone and [database.db] is as
    before. *)
Theorem cloud_backup_stored (env : Env) (w : World) (userId : string)
  (r : BackupResult) (w' : World) (cl : Client) :
  cloud_client (this w) = Some cl ->
  createBackup userId env w = (Ok r, w') -> success r = true ->
  exists node o,
    FS.lookup (fs w) (db_path env) = Some node /\
    size r = Z.of_nat (length (archive_of env (Some node))) /\
    Store.object_lookup (store w') BUCKET (owner_object_key env userId) = Some o /\
    body o = archive_of env (Some node) /\ meta_size o = Some (size r) /\
    Store.bucket_lookup (store w') BUCKET <> None /\
    (forall b' k', (b', k') <> (BUCKET, owner_object_key env userId) ->
       Store.object_lookup (store w') b' k' = Store.object_lookup (store w) b' k') /\
    FS.lookup (fs w') (temp_path env) = None /\
    FS.lookup (fs w') (db_path env) = Some node.
Proof.
  intros Hc Hrun Hok.
  destruct (createBackup_success _ _ _ _ _ Hrun Hok) as (w1 & Hst & Hfs & Hs & _).
  destruct (stage_and_store_cloud _ _ _ _ _ _ Hc (file_name_plain env) Hst)
    as (node & H1 & H2 & (st & Hput & Hobj & Hbk) & H4 & H5).
  exists node,
    {| body := archive_of env (Some node); meta_size := Some (size r);
       obj_created_at := now_ms env |}.
  rewrite Hfs, Hs, Hput. repeat split; auto.
  - apply object_lookup_put.
  - intros b' k' Hne. rewrite object_lookup_put_ne by exact Hne.
    unfold Store.object_lookup. rewrite Hobj. reflexivity.
Qed.

(** ** Provisioning the bucket *)

(** X2. Provisioning is idempotent.  When neither bucket call fails
    for an outside reason, [ensure_bucket] succeeds; afterwards the
    bucket exists, with the options it had, or with the fixed options
    (private, 50 MiB, zip only) if it was missing; no object is touched.
    A second run succeeds with the single call [getBucket] and leaves the
    store as it is. *)
Theorem ensure_bucket_idempotent (env : Env) (w : World) :
  fault env (GetBucket BUCKET) = None ->
  fault env (CreateBucket BUCKET bucket_options) = None ->
  let w1 := snd (ensure_bucket env w) in
  let w2 := snd (ensure_bucket env w1) in
  fst (ensure_bucket env w) = Ok tt /\
  Store.bucket_lookup (store w1) BUCKET
  = Some (match Store.bucket_lookup (store w) BUCKET with
          | Some o => o
          | None => {| public := false; fileSizeLimit := 50 * 1024 * 1024;
                       allowedMimeTypes := ["application/zip"] |}
          end) /\
  objects (store w1) = objects (store w) /\
  fst (ensure_bucket env w1) = Ok tt /\
  store w2 = store w1 /\
  new_events w1 w2 = [GetBucket BUCKET].
Proof.
  intros Hg Hc.
  assert (Hhave : forall w0 o, Store.bucket_lookup (store w0) BUCKET = Some o ->
            ensure_bucket env w0 = (Ok tt, log (GetBucket BUCKET) w0)).
  { intros w0 o Ho. unfold ensure_bucket, bind, getBucket, client_call.
    rewrite Hg. cbn [store log]. rewrite Ho. reflexivity. }
  destruct (Store.bucket_lookup (store w) BUCKET) as [o |] eqn:Eb.
  - rewrite (Hhave w o Eb). cbn [fst snd].
    rewrite (Hhave (log (GetBucket BUCKET) w) o Eb). cbn [fst snd store log].
    repeat split; auto. apply new_events_app. reflexivity.
  - assert (E1 : ensure_bucket env w
                 = (Ok tt, set_store (Store.add_bucket (store w) BUCKET bucket_options)
                             (log (CreateBucket BUCKET bucket_options)
                                (log (GetBucket BUCKET) w)))).
    { unfold ensure_bucket, bind, getBucket, createBucket, client_call.
      rewrite Hg. cbn [store log]. rewrite Eb, not_found_is_not_found, Hc.
      cbn [store log]. rewrite Eb. reflexivity. }
    rewrite E1. cbn [fst snd].
    pose proof (bucket_lookup_add (store w) BUCKET bucket_options Eb) as Hadd.
    rewrite (Hhave (set_store (Store.add_bucket (store w) BUCKET bucket_options)
                      (log (CreateBucket BUCKET bucket_options)
                         (log (GetBucket BUCKET) w))) bucket_options Hadd).
    cbn [fst snd store log set_store].
    repeat split; auto. apply new_events_app. reflexivity.
Qed.

(** X3. Errors of provisioning.  An error of [getBucket] that is
    not a not-found error is thrown as it is, and no bucket is created.
    When the bucket is missing and its creation fails with [e], the
    error thrown has the message that names the bucket and quotes
    [e.message], and the store is unchanged. *)
Theorem ensure_bucket_errors (env : Env) (w : World) :
  (forall e, fault env (GetBucket BUCKET) = Some e -> is_not_found e = false ->
     ensure_bucket env w = (Throw e, log (GetBucket BUCKET) w)) /\
  (forall e,
     fault env (GetBucket BUCKET) = None ->
     Store.bucket_lookup (store w) BUCKET = None ->
     fault env (CreateBucket BUCKET bucket_options) = Some e ->
     fst (ensure_bucket env w)
     = Throw (mkError ("Supabase bucket 'momo-backups' missing and auto-creation failed: "
                       ++ message e ++ ". Please create it manually.")) /\
     store (snd (ensure_bucket env w)) = store w /\
     new_events w (snd (ensure_bucket env w))
     = [GetBucket BUCKET; CreateBucket BUCKET bucket_options]).
Proof.
  split.
  - intros e Hf Hnf. unfold ensure_bucket, bind, getBucket, client_call.
    rewrite Hf, Hnf. reflexivity.
  - intros e Hg Hb Hc. unfold ensure_bucket, bind, getBucket, createBucket, client_call.
    rewrite Hg. cbn [store log]. rewrite Hb, not_found_is_not_found, Hc.
    unfold throw. cbn [fst snd store log]. repeat split. apply new_events_app.
    cbn [trace log]. rewrite <- app_assoc. reflexivity.
Qed.

(** ** Restoring *)

(** X7. Restoring a backup that is not there.  In local mode, when
    no file is at the resolved path, and in cloud mode, when no object is
    at the key, [restoreBackup] returns [false] after that single
    look-up, whatever else fails, and nothing is written or removed. *)
Theorem restore_missing_backup (env : Env) (w : World) (userId backupId : string) :
  (cloud_client (this w) = None ->
   FS.exists_ (fs w) (Path.join (localBackupDir (this w)) [userId; backupId]) = false ->
   restoreBackup userId backupId env w
   = (Ok false,
      log (PathExists (Path.join (localBackupDir (this w)) [userId; backupId])) w)) /\
  (forall cl,
     cloud_client (this w) = Some cl ->
     Store.object_lookup (store w) BUCKET (userId ++ "/" ++ backupId) = None ->
     restoreBackup userId backupId env w
     = (Ok false, log (Download BUCKET (userId ++ "/" ++ backupId)) w)).
Proof.
  split.
  - intros Hc Hmiss.
    unfold restoreBackup, try_catch, restoreBackup_try, bind, ask, get_this, pathExists.
    rewrite Hc, Hmiss. destruct (fault env _); reflexivity.
  - intros cl Hc Hmiss.
    unfold restoreBackup, try_catch, restoreBackup_try, bind, ask, get_this,
      download, client_call.
    rewrite Hc. destruct (fault env _); [reflexivity |].
    cbn [store log]. rewrite Hmiss. reflexivity.
Qed.

Lemma writeFile_frame env w p buf r w2 :
  writeFile p buf env w = (r, w2) ->
  this w2 = this w /\ store w2 = store w /\ users w2 = users w /\
  (forall q, q <> p -> FS.lookup (fs w2) q = FS.lookup (fs w) q) /\
  (r = Ok tt -> exists b, FS.lookup (fs w2) p = Some (File buf b)).
Proof.
  unfold writeFile, call. destruct (fault env (WriteFile p buf)).
  - intros H. injection H as <- <-. repeat split. discriminate.
  - destruct (write_node env (log (WriteFile p buf) w) p buf) as [w3 |] eqn:E.
    + intros H. injection H as <- <-.
      pose proof (write_node_lookup _ _ _ _ _ E) as Hl.
      apply write_node_frame in E. destruct E as (A & B & C & _ & D).
      repeat split; auto.
    + intros H. injection H as <- <-. repeat split. discriminate.
Qed.

Lemma prefix_not_eq (p q : path) : Path.is_prefix p q = false -> q <> p.
Proof. intros H ->. rewrite is_prefix_refl in H. discriminate. Qed.

(** The frame of a run of [restoreBackup]. *)
Lemma restoreBackup_frame (env : Env) (w : World) (userId backupId : string)
  (r : Outcome bool) (w' : World) :
  consistent_mode (this w) ->
  restoreBackup userId backupId env w = (r, w') ->
  store w' = store w /\ users w' = users w /\ this w' = this w /\
  (forall q, Path.is_prefix (restore_temp_path env) q = false ->
     FS.lookup (fs w') q = FS.lookup (fs w) q) /\
  (cloud_client (this w) = None -> fs w' = fs w) /\
  (cloud_client (this w) <> None -> r = Ok true ->
     FS.lookup (fs w') (restore_temp_path env) = None).
Proof.
  intros Hmode.
  unfold restoreBackup, try_catch, restoreBackup_try, bind, ask, get_this.
  destruct (cloud_client (this w)) as [cl |] eqn:Hc.
  - (* cloud *)
    assert (Hcloud : deployMode (this w) = cloud).
    { unfold cloud_client in Hc. destruct (deployMode (this w)); [reflexivity | discriminate]. }
    unfold download, client_call.
    destruct (fault env (Download BUCKET (userId ++ "/" ++ backupId))).
    { unfold throw, ret. intros H. injection H as <- <-. cbn [store users this fs log].
      repeat split; auto; discriminate. }
    cbn [store log].
    destruct (Store.object_lookup (store w) BUCKET (userId ++ "/" ++ backupId)) as [o |].
    2:{ unfold throw, ret. intros H. injection H as <- <-. cbn [store users this fs log].
        repeat split; auto; discriminate. }
    destruct (writeFile (restore_temp_path env) (body o) env
                (log (Download BUCKET (userId ++ "/" ++ backupId)) w))
      as [[[] | e | e] w2] eqn:EW;
      apply writeFile_frame in EW; destruct EW as (A & B & C & D & _);
      cbn [this store users fs log] in A, B, C, D.
    + unfold ret. rewrite A, Hcloud. unfold remove, call.
      destruct (fault env (Remove (restore_temp_path env)));
        intros H; injection H as <- <-; cbn [store users this fs log set_fs].
      * repeat split; auto; try discriminate.
        intros q Hq. apply D. apply prefix_not_eq. exact Hq.
      * repeat split; auto; try discriminate.
        -- intros q Hq. rewrite remove_lookup_other by exact Hq.
           apply D. apply prefix_not_eq. exact Hq.
        -- intros _ _. apply remove_lookup_gone.
    + unfold ret. intros H. injection H as <- <-.
      repeat split; auto; try discriminate.
      intros q Hq. apply D. apply prefix_not_eq. exact Hq.
    + intros H. injection H as <- <-.
      repeat split; auto; try discriminate.
      intros q Hq. apply D. apply prefix_not_eq. exact Hq.
  - (* local *)
    assert (Hlocal : deployMode (this w) = local).
    { destruct (deployMode (this w)) eqn:Em; [| reflexivity].
      unfold cloud_client in Hc. rewrite Em in Hc.
      exfalso. exact (Hmode Em Hc). }
    unfold pathExists.
    destruct (negb _); unfold throw, ret.
    + intros H. injection H as <- <-. cbn [store users this fs log].
      repeat split; auto. congruence.
    + cbn [this log]. rewrite Hlocal.
      intros H. injection H as <- <-. cbn [store users this fs log].
      repeat split; auto. congruence.
Qed.

Lemma restore_temp_apart (env : Env) :
  Path.is_prefix (restore_temp_path env) (db_path env) = false.
Proof. rewrite restore_temp_path_eq, db_path_eq. apply siblings_apart. discriminate. Qed.

(** X8. What [restoreBackup] leaves alone.  On an instance the
    constructor can leave, and whatever the call returns: the object
    store, the [users] table and the instance are unchanged, and so is
    every file other than [restore_temp.zip] - [database.db] in
    particular, which the call never replaces.  In local mode the file
    system is unchanged altogether.  When a cloud restore returns
    [true], [restore_temp.zip] is gone. *)
Theorem restore_leaves_data (env : Env) (w : World) (userId backupId : string) :
  consistent_mode (this w) ->
  let r := fst (restoreBackup userId backupId env w) in
  let w' := snd (restoreBackup userId backupId env w) in
  store w' = store w /\ users w' = users w /\ this w' = this w /\
  (forall q, Path.is_prefix (restore_temp_path env) q = false ->
     FS.lookup (fs w') q = FS.lookup (fs w) q) /\
  FS.lookup (fs w') (db_path env) = FS.lookup (fs w) (db_path env) /\
  (cloud_client (this w) = None -> fs w' = fs w) /\
  (cloud_client (this w) <> None -> r = Ok true ->
     FS.lookup (fs w') (restore_temp_path env) = None).
Proof.
  intros Hmode. cbv zeta.
  destruct (restoreBackup_frame env w userId backupId _ _ Hmode (surjective_pairing _))
    as (A & B & C & D & E & F).
  repeat split; auto.
  apply D. apply restore_temp_apart.
Qed.

(** ** Listing *)

Lemma local_record_world env dir file w r w1 :
  local_record dir file env w = (r, w1) -> w1 = log (Stat (Path.join dir [file])) w.
Proof.
  unfold local_record, bind, stat, call.
  destruct (fault env _); [intros H; injection H as <- <-; reflexivity |].
  destruct (FS.lookup _ _); intros H; injection H as <- <-; reflexivity.
Qed.

Lemma promise_all_stat_frame env dir files :
  forall w,
    let w' := snd (promise_all (map (local_record dir) files) env w) in
    fs w' = fs w /\ store w' = store w /\ users w' = users w /\ this w' = this w.
Proof.
  induction files as [| file files IH]; intros w; [repeat split |].
  cbn [map promise_all].
  destruct (local_record dir file env w) as [[r | e | e] w1] eqn:E;
    apply local_record_world in E; subst w1;
    specialize (IH (log (Stat (Path.join dir [file])) w));
    cbv zeta in IH;
    destruct (promise_all (map (local_record dir) files) env
                (log (Stat (Path.join dir [file])) w)) as [[l | e' | e'] w2];
    first [exact IH | repeat split].
Qed.

(** X9. Listing reads only.  Whatever it returns, [listBackups]
    leaves the file system, the object store, the [users] table and the
    instance as they are. *)
Theorem listBackups_read_only (env : Env) (w : World) (userId : string) :
  let w' := snd (listBackups userId env w) in
  fs w' = fs w /\ store w' = store w /\ users w' = users w /\ this w' = this w.
Proof.
  destruct (cloud_client (this w)) as [c |] eqn:Hc.
  - rewrite (listBackups_cloud env w userId c Hc). cbv zeta.
    destruct (fault env _); [destruct (garbled env _) as [[] |]; repeat split |].
    destruct (Store.bucket_lookup _ _); repeat split.
  - unfold listBackups, bind, get_this. rewrite Hc.
    unfold try_catch, listBackups_local_try, bind, pathExists.
    set (dir := Path.join (localBackupDir (this w)) [userId]).
    destruct (negb _); [repeat split |].
    unfold readdir, call.
    destruct (fault env (Readdir dir)); [repeat split |].
    destruct (FS.lookup _ dir) as [[c b | s b] |]; try (repeat split; fail).
    pose proof (promise_all_stat_frame env dir
                  (FS.children (fs (log (Readdir dir) (log (PathExists dir) w))) dir)
                  (log (Readdir dir) (log (PathExists dir) w))) as H.
    cbv zeta in H.
    destruct (promise_all _ env _) as [[l | e | e] w3]; exact H.
Qed.

Lemma StronglySorted_firstn {A} (R : A -> A -> Prop) n (l : list A) :
  StronglySorted R l -> StronglySorted R (firstn n l).
Proof.
  intros H. revert n. induction H as [| x l Hs IH Hx]; intros [| n]; simpl;
    try constructor; auto.
  rewrite Forall_forall in *. intros y Hy. apply Hx. eapply in_firstn. exact Hy.
Qed.

Lemma StronglySorted_skipn {A} (R : A -> A -> Prop) n (l : list A) :
  StronglySorted R l -> StronglySorted R (skipn n l).
Proof.
  intros H. revert n. induction H as [| x l Hs IH Hx]; intros [| n]; simpl;
    try constructor; auto.
Qed.

Lemma StronglySorted_map {A B} (f : A -> B) (R : B -> B -> Prop) (l : list A) :
  StronglySorted (fun a b => R (f a) (f b)) l -> StronglySorted R (map f l).
Proof.
  induction 1 as [| x l Hs IH Hx]; simpl; constructor; auto.
  rewrite Forall_forall in *. intros y Hy. apply in_map_iff in Hy.
  destruct Hy as (a & <- & Ha). auto.
Qed.

(** X10. Every listing is ordered, newest first, in both modes and
    for any number of backups; a cloud listing has at most 100 records. *)
Theorem listing_sorted (env : Env) (w : World) (userId : string)
  (l : list BackupRecord) (w' : World) :
  listBackups userId env w = (Ok l, w') ->
  StronglySorted (not_below created_at) l /\
  (cloud_client (this w) <> None -> (length l <= 100)%nat).
Proof.
  destruct (cloud_client (this w)) as [cl |] eqn:Hc.
  - rewrite (listBackups_cloud env w userId cl Hc). cbv zeta.
    destruct (fault env _).
    { destruct (garbled env _) as [g |].
      - destruct (data_map_garbled g env (log (ListObjects BUCKET userId list_options) w))
          as (e' & ->). discriminate.
      - intros H. injection H as <- <-. split; [constructor | simpl; lia]. }
    destruct (Store.bucket_lookup _ _);
      intros H; injection H as <- <-; [| split; [constructor | simpl; lia]].
    unfold Store.list_items, list_options. cbn [limit offset sortBy]. split.
    + apply StronglySorted_map. apply StronglySorted_firstn, StronglySorted_skipn.
      apply (array_sort_sorted item_created_at _ item_cmp_key).
    + intros _. rewrite length_map. apply firstn_le_length.
  - unfold listBackups, bind, get_this. rewrite Hc.
    unfold try_catch, listBackups_local_try, bind, pathExists.
    destruct (negb _).
    { unfold ret. intros H. injection H as <- <-. split; [constructor | congruence]. }
    destruct (readdir _ env _) as [[files | e | e] w1]; [| | discriminate].
    2:{ unfold ret. intros H. injection H as <- <-. split; [constructor | congruence]. }
    destruct (promise_all _ env w1) as [[recs | e | e] w2]; [| | discriminate];
      unfold ret; intros H; injection H as <- <-; (split; [| congruence]).
    + apply (array_sort_sorted created_at newest_first newest_first_key).
    + constructor.
Qed.

Lemma local_listing_perm (env : Env) (w : World) (userId : string) (sz b : Z) :
  cloud_client (this w) = None ->
  Path.is_normal (localBackupDir (this w)) = true ->
  Path.plain_segment userId = true ->
  FS.wf (fs w) = true ->
  let dir := (localBackupDir (this w) ++ [userId])%list in
  FS.lookup (fs w) dir = Some (Dir sz b) ->
  fault env (PathExists dir) = None ->
  fault env (Readdir dir) = None ->
  (forall file, fault env (Stat (dir ++ [file])%list) = None) ->
  exists l,
    fst (listBackups userId env w) = Ok l /\
    Permutation l
      (map (fun file => record_of file (node_at (fs w) (dir ++ [file])%list))
           (FS.children (fs w) dir)).
Proof.
  intros Hc Hroot Hu Hwf dir Hdir Hf1 Hf2 Hf3.
  assert (Hdn : Path.is_normal dir = true) by (apply is_normal_snoc; assumption).
  assert (Hjoin : forall file, In file (FS.children (fs w) dir) ->
            Path.join dir [file] = (dir ++ [file])%list).
  { intros file Hin. rewrite join_plain by (eapply children_plain; eauto).
    rewrite normalize_normal by exact Hdn. reflexivity. }
  unfold listBackups, bind, get_this. rewrite Hc.
  unfold try_catch, listBackups_local_try, bind, pathExists.
  rewrite (join_owner _ _ Hroot Hu). fold dir.
  rewrite Hf1. unfold FS.exists_. rewrite Hdir. cbn [negb].
  unfold readdir, call. rewrite Hf2.
  change (fs (log (Readdir dir) (log (PathExists dir) w))) with (fs w).
  rewrite Hdir.
  set (w2 := log (Readdir dir) (log (PathExists dir) w)).
  assert (Hall : forall file, In file (FS.children (fs w) dir) ->
            fault env (Stat (Path.join dir [file])) = None /\
            FS.lookup (fs w) (Path.join dir [file]) <> None).
  { intros file Hin. rewrite (Hjoin file Hin). split; [apply Hf3 |].
    destruct (children_spec _ _ _ Hin) as (node & Hnode).
    eapply in_lookup. exact Hnode. }
  pose proof (promise_all_local env (fs w) dir _ Hall w2 eq_refl) as Hpa.
  destruct (promise_all (map (local_record dir) (FS.children (fs w) dir)) env w2)
    as [[l | e | e] w3]; simpl in Hpa; inversion Hpa. subst l.
  unfold ret. cbn [fst]. eexists. split; [reflexivity |].
  rewrite (array_sort_perm newest_first).
  rewrite (map_ext_in _ (fun file => record_of file (node_at (fs w) (dir ++ [file])%list))).
  - reflexivity.
  - intros file Hin. rewrite (Hjoin file Hin). reflexivity.
Qed.

(** X11. A local listing is complete.  In local mode, with a
    well-formed file system, an existing owner directory and no failing
    call, [listBackups] returns exactly one record per entry of the
    owner's directory - its name as [id] and [name], its size and its
    creation time - in some order, and so as many records as the
    directory has entries. *)
Theorem local_listing_complete (env : Env) (w : World) (userId : string) (sz b : Z) :
  cloud_client (this w) = None ->
  Path.is_normal (localBackupDir (this w)) = true ->
  Path.plain_segment userId = true ->
  FS.wf (fs w) = true ->
  let dir := (localBackupDir (this w) ++ [userId])%list in
  FS.lookup (fs w) dir = Some (Dir sz b) ->
  fault env (PathExists dir) = None ->
  fault env (Readdir dir) = None ->
  (forall file, fault env (Stat (dir ++ [file])%list) = None) ->
  exists l,
    fst (listBackups userId env w) = Ok l /\
    Permutation l
      (map (fun file => record_of file (node_at (fs w) (dir ++ [file])%list))
           (FS.children (fs w) dir)) /\
    length l = length (FS.children (fs w) dir).
Proof.
  intros Hc Hroot Hu Hwf dir Hdir Hf1 Hf2 Hf3.
  destruct (local_listing_perm env w userId sz b Hc Hroot Hu Hwf Hdir Hf1 Hf2 Hf3)
    as (l & Hl & Hperm).
  exists l. split; [exact Hl |]. split; [exact Hperm |].
  rewrite (Permutation_length Hperm). apply length_map.
Qed.

(** ** Construction *)

(** X12. What the constructor leaves.  When the constructor
    returns, the backup root is [<cwd>/backups] in normal form and is a
    directory of the file system; every entry that existed is still
    there; the constructor has made the single call [ensureDir], and has
    not touched the object store or the [users] table. *)
Theorem constructor_makes_backup_dir (env : Env) (w w' : World) :
  constructor env w = (Ok tt, w') ->
  localBackupDir (this w') = (Path.normalize (cwd env) ++ ["backups"])%list /\
  well_placed env w' /\
  (exists sz b, FS.lookup (fs w') (localBackupDir (this w')) = Some (Dir sz b)) /\
  (forall q n, FS.lookup (fs w) q = Some n -> FS.lookup (fs w') q = Some n) /\
  new_events w w' = [EnsureDir (Path.normalize (cwd env) ++ ["backups"])%list] /\
  store w' = store w /\ users w' = users w.
Proof.
  intros Hrun.
  assert (Ejoin : Path.join (cwd env) ["backups"]
                  = (Path.normalize (cwd env) ++ ["backups"])%list)
    by (apply join_plain; reflexivity).
  unfold constructor, bind, ask, assign_localBackupDir, get_this, ensureDir, call in Hrun.
  cbn [this set_this localBackupDir log fs] in Hrun.
  destruct (fault env _); [discriminate |].
  destruct (FS.mkdirs (now_ms env) (fs w) [] (Path.join (cwd env) ["backups"]))
    as [f' |] eqn:Emk; [| discriminate].
  assert (Hfinal : exists t, w' = set_this t
                     (set_fs f' (log (EnsureDir (Path.join (cwd env) ["backups"]))
                                   (set_this {| client := client (this w);
                                                deployMode := deployMode (this w);
                                                localBackupDir :=
                                                  Path.join (cwd env) ["backups"] |} w)))
                   /\ localBackupDir t = Path.join (cwd env) ["backups"]).
  { destruct (remote_configured env).
    - destruct (SUPABASE_URL env) as [url |], (SUPABASE_KEY env) as [key |];
        unfold try_catch, bind, createClient_, assign_client, assign_deployMode in Hrun;
        try destruct (createClient env url key);
        cbn in Hrun; injection Hrun as <-; eexists; split; reflexivity.
    - unfold assign_deployMode in Hrun. cbn in Hrun. injection Hrun as <-.
      eexists; split; reflexivity. }
  destruct Hfinal as (t & -> & Ht).
  cbn [this fs store users set_this set_fs log trace].
  rewrite Ht, Ejoin. rewrite Ejoin in Emk.
  split; [reflexivity |]. split; [unfold well_placed; cbn; rewrite Ht; reflexivity |].
  split; [| split; [| split; [| split; reflexivity]]].
  - apply (mkdirs_made _ _ [] _ _ Emk).
    destruct (Path.normalize (cwd env)); discriminate.
  - intros q n Hq. eapply mkdirs_keeps; eauto.
  - apply new_events_app. reflexivity.
Qed.

(** ** A backup, then a listing or a restore *)

Lemma child_name_snoc (d : path) (n : string) : FS.child_name d (d ++ [n])%list = Some n.
Proof.
  induction d as [| a d IH]; simpl; [reflexivity |].
  rewrite String.eqb_refl. exact IH.
Qed.

Lemma children_in f d n node :
  In ((d ++ [n])%list, node) f -> In n (FS.children f d).
Proof.
  induction f as [| (q, m) f IH]; simpl; [tauto |].
  intros [H | H].
  - inversion H. subst. rewrite child_name_snoc. left. reflexivity.
  - destruct (FS.child_name d q); [right |]; auto.
Qed.

Lemma join_two (root : path) (a b : string) :
  Path.is_normal root = true ->
  Path.plain_segment a = true -> Path.plain_segment b = true ->
  Path.join root [a; b] = (root ++ [a; b])%list.
Proof.
  intros Hr Ha Hb.
  pose proof (plain_segment_inv _ Ha) as (_ & Hsa).
  pose proof (plain_segment_inv _ Hb) as (_ & Hsb).
  unfold Path.join. simpl. rewrite !split_slash_plain by assumption. simpl.
  apply normalize_normal.
  change [a; b] with ([a] ++ [b])%list. rewrite app_assoc.
  apply is_normal_snoc; [apply is_normal_snoc |]; assumption.
Qed.

(** X13. A new local backup shows up in the listing.  After a
    successful [createBackup] in local mode, a listing for the same
    owner that meets no failing call contains a record whose [id] and
    [name] are the generated file name and whose size is the size
    [createBackup] reported. *)
Theorem new_backup_is_listed (env env2 : Env) (w : World) (userId : string)
  (r : BackupResult) (w' : World) :
  cloud_client (this w) = None ->
  well_placed env w ->
  Path.plain_segment userId = true ->
  Path.plain_segment (backup_file_name env) = true ->
  createBackup userId env w = (Ok r, w') -> success r = true ->
  FS.wf (fs w') = true ->
  no_faults env2 ->
  exists l rec,
    fst (listBackups userId env2 w') = Ok l /\ In rec l /\
    id rec = backup_file_name env /\ name rec = backup_file_name env /\
    rsize rec = size r.
Proof.
  intros Hc Hplace Hu Hn Hrun Hok Hwf Hnf.
  destruct (createBackup_success _ _ _ _ _ Hrun Hok) as (w1 & Hst & Hfs & _ & _).
  destruct (stage_and_store_local _ _ _ _ _ Hc Hplace Hu Hn Hst)
    as (node & b' & _ & Hsize & _ & Htarget & _ & _ & (sz & bd & Hdir) & _).
  assert (Hthis : this w' = this w).
  { pose proof (createBackup_keeps_this env w userId) as H. rewrite Hrun in H. exact H. }
  assert (Edir : (localBackupDir (this w') ++ [userId])%list = owner_backup_dir env userId).
  { rewrite Hthis, (root_eq env w Hplace). unfold owner_backup_dir.
    rewrite <- app_assoc. reflexivity. }
  assert (Etarget : owner_target env userId
                    = (owner_backup_dir env userId ++ [backup_file_name env])%list).
  { unfold owner_target, owner_backup_dir. rewrite <- app_assoc. reflexivity. }
  rewrite <- Hfs in Htarget, Hdir.
  destruct (local_listing_perm env2 w' userId sz bd) as (l & Hl & Hperm).
  - rewrite Hthis. exact Hc.
  - rewrite Hthis. apply (root_normal env w Hplace).
  - exact Hu.
  - exact Hwf.
  - rewrite Edir. exact Hdir.
  - apply Hnf.
  - apply Hnf.
  - intros file. apply Hnf.
  - rewrite Edir in Hperm.
    exists l, (record_of (backup_file_name env) (File (archive_of env (Some node)) b')).
    split; [exact Hl |]. split; [| cbn [id name rsize record_of]; auto].
    apply (Permutation_in _ (Permutation_sym Hperm)).
    apply in_map_iff. exists (backup_file_name env). split.
    + unfold node_at. rewrite <- Etarget, Htarget. reflexivity.
    + apply (children_in _ _ _ (File (archive_of env (Some node)) b')).
      rewrite <- Etarget. apply lookup_in. exact Htarget.
Qed.

(** X6. Round trip.  The owner id is a plain name.  After a
    successful [createBackup], restoring the generated file name for the
    same owner, with no failing call, returns [true]: in local mode, for
    a backup root [<cwd>/backups], the file is found where the backup put
    it; in cloud mode, when no directory is at [restore_temp.zip], the
    object is downloaded and the bytes written to [restore_temp.zip] are
    the archive made at the backup of what was at [database.db], a file
    or a directory. *)
Theorem backup_restore_round_trip (env env2 : Env) (w : World) (userId : string)
  (r : BackupResult) (w' : World) :
  Path.plain_segment userId = true ->
  createBackup userId env w = (Ok r, w') -> success r = true ->
  no_faults env2 ->
  (cloud_client (this w) = None -> well_placed env w ->
   fst (restoreBackup userId (backup_file_name env) env2 w') = Ok true) /\
  (cloud_client (this w) <> None ->
   (forall s b, FS.lookup (fs w') (restore_temp_path env2) <> Some (Dir s b)) ->
   exists node,
     FS.lookup (fs w) (db_path env) = Some node /\
     fst (restoreBackup userId (backup_file_name env) env2 w') = Ok true /\
     new_events w' (snd (restoreBackup userId (backup_file_name env) env2 w'))
     = [Download BUCKET (userId ++ "/" ++ backup_file_name env);
        WriteFile (restore_temp_path env2) (archive_of env (Some node));
        Remove (restore_temp_path env2)]).
Proof.
  intros Hu Hrun Hok Hnf.
  pose proof (file_name_plain env) as Hn.
  destruct (createBackup_success _ _ _ _ _ Hrun Hok) as (w1 & Hst & Hfs & Hs & _).
  assert (Hthis : this w' = this w).
  { pose proof (createBackup_keeps_this env w userId) as H. rewrite Hrun in H. exact H. }
  split.
  - intros Hc Hplace.
    destruct (stage_and_store_local _ _ _ _ _ Hc Hplace Hu Hn Hst)
      as (node & b' & _ & _ & _ & Htarget & _).
    unfold restoreBackup, try_catch, restoreBackup_try, bind, ask, get_this, pathExists.
    rewrite Hthis, Hc.
    rewrite (join_two _ _ _ (root_normal env w Hplace) Hu Hn).
    rewrite (root_eq env w Hplace), <- app_assoc.
    change (Path.normalize (cwd env) ++ ["backups"] ++ [userId; backup_file_name env])%list
      with (owner_target env userId).
    rewrite Hnf. unfold FS.exists_. rewrite Hfs, Htarget. cbn [negb].
    unfold ret. cbn [this log]. rewrite Hthis.
    destruct (deployMode (this w)); [| reflexivity].
    unfold remove, call. rewrite Hnf. reflexivity.
  - intros Hc Htmp.
    destruct (cloud_client (this w)) as [cl |] eqn:Ec; [| congruence].
    destruct (stage_and_store_cloud _ _ _ _ _ _ Ec Hn Hst)
      as (node & Hdb & _ & (st & Hput & _ & _) & _ & _).
    assert (Hcloud : deployMode (this w) = cloud).
    { unfold cloud_client in Ec. destruct (deployMode (this w)); [reflexivity | discriminate]. }
    exists node. split; [exact Hdb |].
    unfold restoreBackup, try_catch, restoreBackup_try, bind, ask, get_this,
      download, client_call.
    rewrite Hthis, Ec, Hnf. cbn [store log]. rewrite Hs, Hput.
    change (userId ++ "/" ++ backup_file_name env) with (owner_object_key env userId).
    rewrite object_lookup_put. cbn [body].
    unfold writeFile, call. rewrite Hnf. unfold write_node. cbn [fs log].
    destruct (FS.lookup (fs w') (restore_temp_path env2)) as [[c0 b0 | s0 b0] |] eqn:El;
      [| exfalso; exact (Htmp _ _ eq_refl) |];
      unfold ret; cbn [this set_fs log]; rewrite Hthis, Hcloud;
      unfold remove, call; rewrite Hnf; cbn [fst snd];
      (split; [reflexivity |]); apply new_events_app;
      cbn [trace set_fs log]; rewrite <- !app_assoc; reflexivity.
Qed.

(** ** The name of an archive *)

Lemma substring0_replace n s :
  String.substring 0 n (Str.replace_colon_dot s)
  = Str.replace_colon_dot (String.substring 0 n s).
Proof.
  revert n. induction s as [| x s IH]; intros [| n]; simpl; auto.
  rewrite IH. reflexivity.
Qed.

(** X1. The name of an archive.  The time stamp in the file name
    is the first 19 characters of the clock string with [':'] and ['.']
    replaced, so it has neither character; two clock strings that agree
    on their first 19 characters give the same name; and when the clock
    string has no ['/'], as an ISO string has none, the name is a single
    plain path segment. *)
Theorem backup_file_name_shape (env : Env) :
  let ts := Str.slice0 19 (Str.replace_colon_dot (now_iso env)) in
  backup_file_name env = "backup_" ++ ts ++ "_GMT.zip" /\
  String.length ts = Nat.min 19 (String.length (now_iso env)) /\
  has_char ":" ts = false /\ has_char "." ts = false /\
  (forall env', Str.slice0 19 (now_iso env') = Str.slice0 19 (now_iso env) ->
     backup_file_name env' = backup_file_name env) /\
  (Str.has_slash (now_iso env) = false ->
   Path.plain_segment (backup_file_name env) = true).
Proof.
  cbv zeta. split; [reflexivity |].
  destruct (replace_colon_dot_clean (now_iso env)) as (H1 & H2).
  unfold Str.slice0.
  rewrite length_substring0, length_replace_colon_dot.
  repeat split.
  - apply has_char_substring0. exact H1.
  - apply has_char_substring0. exact H2.
  - intros env' H. unfold backup_file_name, Str.slice0 in *.
    rewrite !substring0_replace, H. reflexivity.
  - apply backup_file_name_plain.
Qed.

(** ** The further properties at concrete states *)

Lemma no_faults_env0 : no_faults Demo.env0.
Proof. intros ev. reflexivity. Defined.

Lemma no_faults_env_cloud : no_faults Demo.env_cloud.
Proof. intros ev. reflexivity. Defined.

Lemma backup_file_name_shape_witness :
  Str.has_slash (now_iso Demo.env0) = false /\
  Path.plain_segment (backup_file_name Demo.env0) = true /\
  backup_file_name Demo.env_cloud = backup_file_name Demo.env0.
Proof.
  destruct (backup_file_name_shape Demo.env0) as (_ & _ & _ & _ & Hsame & Hplain).
  split; [reflexivity |]. split.
  - apply Hplain. reflexivity.
  - apply Hsame. reflexivity.
Defined.

Lemma ensure_bucket_idempotent_witness :
  let w1 := snd (ensure_bucket Demo.env_cloud Cases.cloud_start) in
  Store.bucket_lookup (store Cases.cloud_start) BUCKET = None /\
  Store.bucket_lookup (store w1) BUCKET = Some bucket_options /\
  store (snd (ensure_bucket Demo.env_cloud w1)) = store w1.
Proof.
  destruct (ensure_bucket_idempotent Demo.env_cloud Cases.cloud_start eq_refl eq_refl)
    as (_ & Hb & _ & _ & Hsame & _).
  split; [reflexivity |]. split; [exact Hb | exact Hsame].
Defined.

Lemma ensure_bucket_errors_witness :
  let env := Demo.with_fault Demo.env_cloud Cases.create_bucket_fails in
  fst (ensure_bucket env Cases.cloud_start)
  = Throw (mkError "Supabase bucket 'momo-backups' missing and auto-creation failed: permission denied. Please create it manually.") /\
  store (snd (ensure_bucket env Cases.cloud_start)) = store Cases.cloud_start.
Proof.
  intros env.
  destruct (proj2 (ensure_bucket_errors env Cases.cloud_start)
              {| message := "permission denied"; status := Some 403 |}
              eq_refl eq_refl eq_refl) as (H1 & H2 & _).
  split; [exact H1 | exact H2].
Defined.

Lemma restore_missing_backup_witness :
  restoreBackup "A" "nope.zip" Demo.env0 Demo.three_local
  = (Ok false,
     log (PathExists ["srv"; "app"; "backups"; "A"; "nope.zip"]) Demo.three_local) /\
  restoreBackup "A" "nope.zip" Demo.env_cloud Demo.three_cloud
  = (Ok false, log (Download BUCKET "A/nope.zip") Demo.three_cloud).
Proof.
  destruct (restore_missing_backup Demo.env0 Demo.three_local "A" "nope.zip") as (Hl & _).
  destruct (restore_missing_backup Demo.env_cloud Demo.three_cloud "A" "nope.zip")
    as (_ & Hc).
  split.
  - apply Hl; reflexivity.
  - apply (Hc {| supabaseUrl := "https://x.supabase.co"; supabaseKey := "key" |});
      reflexivity.
Defined.

Lemma consistent_three_cloud : consistent_mode (this Demo.three_cloud).
Proof. intros _. discriminate. Defined.

Lemma restore_leaves_data_witness :
  let w' := snd (restoreBackup "A" "b1.zip" Demo.env_cloud Demo.three_cloud) in
  fst (restoreBackup "A" "b1.zip" Demo.env_cloud Demo.three_cloud) = Ok true /\
  store w' = store Demo.three_cloud /\
  FS.lookup (fs w') (restore_temp_path Demo.env_cloud) = None.
Proof.
  destruct (restore_leaves_data Demo.env_cloud Demo.three_cloud "A" "b1.zip"
              consistent_three_cloud) as (Hs & _ & _ & _ & _ & _ & Htmp).
  split; [reflexivity |]. split; [exact Hs |].
  apply Htmp; [discriminate | reflexivity].
Defined.

Lemma listing_sorted_witness :
  StronglySorted (not_below created_at)
    [ {| id := "b3.zip"; name := "b3.zip"; rsize := 1; created_at := 30 |};
      {| id := "b2.zip"; name := "b2.zip"; rsize := 2; created_at := 20 |};
      {| id := "b1.zip"; name := "b1.zip"; rsize := 0; created_at := 10 |} ].
Proof.
  apply (proj1 (listing_sorted Demo.env0 Demo.three_local "A" _
                  (snd (listBackups "A" Demo.env0 Demo.three_local)) eq_refl)).
Defined.

Lemma local_listing_complete_witness :
  exists l,
    fst (listBackups "A" Demo.env0 Demo.three_local) = Ok l /\
    Permutation l
      [ {| id := "b2.zip"; name := "b2.zip"; rsize := 2; created_at := 20 |};
        {| id := "b3.zip"; name := "b3.zip"; rsize := 1; created_at := 30 |};
        {| id := "b1.zip"; name := "b1.zip"; rsize := 0; created_at := 10 |} ].
Proof.
  destruct (local_listing_complete Demo.env0 Demo.three_local "A" 0 2
              eq_refl eq_refl eq_refl eq_refl eq_refl eq_refl eq_refl
              (fun _ => eq_refl))
    as (l & Hl & Hperm & _).
  exists l. split; [exact Hl | exact Hperm].
Defined.

Lemma constructor_makes_backup_dir_witness :
  exists sz b,
    FS.lookup (fs Cases.local_start) ["srv"; "app"; "backups"] = Some (Dir sz b).
Proof.
  destruct (constructor_makes_backup_dir Demo.env0 Demo.boot Cases.local_start eq_refl)
    as (_ & _ & Hdir & _).
  exact Hdir.
Defined.

Lemma local_backup_stored_witness :
  exists node b',
    FS.lookup (fs Cases.local_after_backup) ["srv"; "app"; "backups"; "A"; Demo.backup_name]
    = Some (File (archive_of Demo.env0 (Some node)) b') /\
    FS.lookup (fs Cases.local_after_backup) (temp_path Demo.env0) = None.
Proof.
  destruct (local_backup_stored Demo.env0 Cases.local_start "A" Cases.ok_local
              Cases.local_after_backup eq_refl eq_refl eq_refl eq_refl eq_refl)
    as (node & b' & _ & _ & _ & Ht & Htmp & _).
  exists node, b'. split; [exact Ht | exact Htmp].
Defined.

Lemma cloud_backup_stored_witness :
  exists node o,
    Store.object_lookup (store Cases.cloud_after_backup) BUCKET
      ("A/" ++ Demo.backup_name) = Some o /\
    body o = archive_of Demo.env_cloud (Some node) /\
    FS.lookup (fs Cases.cloud_after_backup) (temp_path Demo.env_cloud) = None.
Proof.
  destruct (cloud_backup_stored Demo.env_cloud Cases.cloud_start "A" Cases.ok_cloud
              Cases.cloud_after_backup
              {| supabaseUrl := "https://x.supabase.co"; supabaseKey := "key" |}
              eq_refl eq_refl eq_refl)
    as (node & o & _ & _ & Ho & Hb & _ & _ & _ & Htmp & _).
  exists node, o. repeat split; assumption.
Defined.

Lemma new_backup_is_listed_witness :
  exists l rec,
    fst (listBackups "A" Demo.env0 Cases.local_after_backup) = Ok l /\ In rec l /\
    id rec = Demo.backup_name /\ rsize rec = 5.
Proof.
  destruct (new_backup_is_listed Demo.env0 Demo.env0 Cases.local_start "A" Cases.ok_local
              Cases.local_after_backup eq_refl eq_refl eq_refl eq_refl eq_refl eq_refl
              eq_refl no_faults_env0)
    as (l & rec & Hl & Hin & Hid & _ & Hsz).
  exists l, rec. repeat split; assumption.
Defined.

Lemma backup_restore_round_trip_witness :
  fst (restoreBackup "A" Demo.backup_name Demo.env0 Cases.local_after_backup) = Ok true /\
  fst (restoreBackup "A" Demo.backup_name Demo.env_cloud Cases.cloud_after_backup)
  = Ok true.
Proof.
  split.
  - apply (proj1 (backup_restore_round_trip Demo.env0 Demo.env0 Cases.local_start "A"
                    Cases.ok_local Cases.local_after_backup
                    eq_refl eq_refl eq_refl no_faults_env0));
      reflexivity.
  - destruct (proj2 (backup_restore_round_trip Demo.env_cloud Demo.env_cloud
                       Cases.cloud_start "A" Cases.ok_cloud Cases.cloud_after_backup
                       eq_refl eq_refl eq_refl no_faults_env_cloud))
      as (node & _ & Hr & _).
    + discriminate.
    + intros s b H. vm_compute in H. discriminate.
    + exact Hr.
Defined.

(** * Properties of the database storage and the routes *)

(** ** Recording a transaction *)

Lemma first_row_filter_in {A} (p : A -> bool) (l : list A) (a : A) :
  first_row (filter p l) = Some a -> In a l /\ p a = true.
Proof.
  unfold first_row. intros H.
  assert (Hin : In a (filter p l)).
  { destruct (filter p l); [discriminate |]. injection H as ->. left; reflexivity. }
  apply filter_In in Hin. exact Hin.
Qed.

Lemma first_row_filter_app {A} (p : A -> bool) (l l' : list A) (a : A) :
  first_row (filter p l) = Some a -> first_row (filter p (l ++ l')) = Some a.
Proof.
  rewrite filter_app. unfold first_row. destruct (filter p l); [discriminate |].
  intros H; exact H.
Qed.

Lemma known_as_spec (phone network_ userId : string) (c : Customer) :
  known_as phone network_ userId c = true <->
  phoneNumber c = phone /\ network c = network_ /\ customer_userId c = Some userId.
Proof.
  unfold known_as, eq_text. rewrite !andb_true_iff, !String.eqb_eq.
  destruct (customer_userId c) as [o |].
  - rewrite String.eqb_eq. split.
    + intros [[H1 H2] H3]. subst. auto.
    + intros (H1 & H2 & H3). injection H3 as ->. auto.
  - split.
    + intros [_ H]; discriminate.
    + intros (_ & _ & H); discriminate.
Qed.

Lemma createTransaction_run (rt : Runtime) (d : Database) (tx : TransactionInput)
  (userId : string) (t : Transaction) (d' : Database) :
  createTransaction tx userId rt d = (Ok t, d') ->
  let mine := known_as (trim rt (in_phoneNumber tx)) (in_network tx) userId in
  exists c,
    tx_customerId t = Some (customer_id c) /\
    first_row (filter mine (db_customers d')) = Some c /\
    (match first_row (filter mine (db_customers d)) with
     | Some c0 => c = c0 /\ db_customers d' = db_customers d
     | None =>
         db_customers d' = (db_customers d ++ [c])%list /\
         customer_name c = customerName tx /\
         customer_id c = customers_id_seq d
     end) /\
    db_transactions d' = (db_transactions d ++ [t])%list /\
    tx_userId t = Some userId /\
    tx_date t = in_date tx /\
    db_users d' = db_users d /\
    tx_fee t = Some (decimal rt (match in_fee tx with Some f => f | None => "0" end)) /\
    tx_type t = in_type tx /\
    tx_amount t = decimal rt (in_amount tx).
Proof.
  intros H mine.
  unfold createTransaction, getCustomerByPhoneAndNetwork, createCustomer,
    qbind, runtime, query, qret in H.
  destruct (rejects rt (SelectCustomerByPhoneAndNetwork _ _ _)); [discriminate |].
  fold (known_as (trim rt (in_phoneNumber tx)) (in_network tx) userId) in H.
  fold mine in H.
  destruct (first_row (filter mine (db_customers d))) as [c0 |] eqn:E0.
  - destruct (rejects rt (InsertTransaction userId)); [discriminate |].
    simpl in H. injection H as <- <-. exists c0. simpl.
    rewrite E0. repeat split; reflexivity.
  - destruct (rejects rt (InsertCustomer _ _ _ _)); [discriminate |].
    simpl in H.
    destruct (rejects rt (InsertTransaction userId)); [discriminate |].
    simpl in H. injection H as <- <-.
    exists {| customer_id := customers_id_seq d; customer_name := customerName tx;
              phoneNumber := trim rt (in_phoneNumber tx); network := in_network tx;
              customer_userId := Some userId; customer_createdAt := Date_now rt |}.
    simpl. split; [reflexivity |]. split.
    + rewrite filter_app. unfold first_row in *.
      destruct (filter mine (db_customers d)); [| discriminate]. simpl.
      unfold mine at 1. unfold known_as, eq_text. simpl.
      rewrite !String.eqb_refl. reflexivity.
    + repeat split; reflexivity.
Qed.

(** X14. Find or create.  When [createTransaction] returns a row, the
    row is appended to [transactions] for [userId], and it refers to a
    customer row of [userId] with the trimmed phone number and the
    network of the input: the first such row when one existed, in which
    case [customers] is unchanged, and otherwise a single new row with
    the name of the input, which is then the first such row.  The
    [users] table is unchanged. *)
Theorem createTransaction_finds_or_creates (rt : Runtime) (d : Database)
  (tx : TransactionInput) (userId : string) (t : Transaction) (d' : Database) :
  createTransaction tx userId rt d = (Ok t, d') ->
  let mine := known_as (trim rt (in_phoneNumber tx)) (in_network tx) userId in
  exists c,
    tx_customerId t = Some (customer_id c) /\
    In c (db_customers d') /\
    customer_userId c = Some userId /\
    phoneNumber c = trim rt (in_phoneNumber tx) /\
    network c = in_network tx /\
    first_row (filter mine (db_customers d')) = Some c /\
    (match first_row (filter mine (db_customers d)) with
     | Some c0 => c = c0 /\ db_customers d' = db_customers d
     | None =>
         db_customers d' = (db_customers d ++ [c])%list /\
         customer_name c = customerName tx
     end) /\
    db_transactions d' = (db_transactions d ++ [t])%list /\
    tx_userId t = Some userId /\
    db_users d' = db_users d.
Proof.
  intros H mine.
  destruct (createTransaction_run rt d tx userId t d' H)
    as (c & Hid & Hfirst & Hcase & Htx & Hu & _ & Hus & _).
  fold mine in Hfirst, Hcase.
  destruct (first_row_filter_in _ _ _ Hfirst) as [Hin Hmine].
  apply known_as_spec in Hmine. destruct Hmine as (Hp & Hn & Ho).
  exists c. repeat split; try assumption.
  destruct (first_row (filter mine (db_customers d))).
  - exact Hcase.
  - destruct Hcase as (Hc & Hname & _). split; assumption.
Qed.

(** X15. A customer is created once.  Two transactions recorded by the
    same user, one after the other, for phone numbers that are equal
    after trimming and the same network refer to the same customer, and
    the second adds no customer row. *)
Theorem createTransaction_reuses_customer (rt1 rt2 : Runtime) (d d1 d2 : Database)
  (tx1 tx2 : TransactionInput) (userId : string) (t1 t2 : Transaction) :
  createTransaction tx1 userId rt1 d = (Ok t1, d1) ->
  createTransaction tx2 userId rt2 d1 = (Ok t2, d2) ->
  trim rt2 (in_phoneNumber tx2) = trim rt1 (in_phoneNumber tx1) ->
  in_network tx2 = in_network tx1 ->
  db_customers d2 = db_customers d1 /\
  tx_customerId t2 = tx_customerId t1 /\
  db_transactions d2 = (db_transactions d ++ [t1; t2])%list.
Proof.
  intros H1 H2 Hp Hn.
  destruct (createTransaction_run _ _ _ _ _ _ H1) as (c1 & Hid1 & Hf1 & _ & Htx1 & _).
  destruct (createTransaction_run _ _ _ _ _ _ H2) as (c2 & Hid2 & _ & Hcase & Htx2 & _).
  rewrite Hp, Hn, Hf1 in Hcase. destruct Hcase as [-> Hc].
  split; [exact Hc |]. split; [congruence |].
  rewrite Htx2, Htx1, <- app_assoc. reflexivity.
Qed.

(** ** The migration of customers without owner *)

Lemma set_db_customers_same (d : Database) : set_db_customers (db_customers d) d = d.
Proof. destruct d; reflexivity. Qed.

Lemma first_row_firstn_1 {A} (l : list A) : first_row (firstn 1 l) = first_row l.
Proof. destruct l; reflexivity. Qed.

Lemma migrate_customer_step (rt : Runtime) (o : Customer) (d : Database)
  (r : Outcome unit) (d' : Database) :
  migrate_customer o rt d = (r, d') ->
  (exists e, r = Throw e /\ d' = d /\ ~ accepts_all rt) \/
  (r = Ok tt /\
   d' = set_db_customers (map (migrate_row (db_transactions d) o) (db_customers d)) d).
Proof.
  unfold migrate_customer, qbind, query, qret. intros H.
  destruct (rejects rt (SelectTransactionOfCustomer _)) as [e |] eqn:Es.
  - injection H as <- <-. left. exists e. repeat split.
    intros Hacc. rewrite Hacc in Es. discriminate.
  - rewrite first_row_firstn_1 in H. unfold migrate_row, first_owner.
    destruct (first_row (filter _ (db_transactions d))) as [t |].
    + destruct (tx_userId t) as [owner |] eqn:Eo; simpl in H.
      * destruct (negb (owner =? "")%string) eqn:Et; simpl; rewrite ?Et.
        -- destruct (rejects rt (UpdateCustomerUserId _ owner)) as [e |] eqn:Eu.
           ++ injection H as <- <-. left. exists e. repeat split.
              intros Hacc. rewrite Hacc in Eu. discriminate.
           ++ injection H as <- <-. right. split; reflexivity.
        -- injection H as <- <-. right. rewrite map_id, set_db_customers_same.
           split; reflexivity.
      * injection H as <- <-. right. rewrite map_id, set_db_customers_same.
        split; reflexivity.
    + injection H as <- <-. right. rewrite map_id, set_db_customers_same.
      split; reflexivity.
Qed.

Lemma for_of_migrate (rt : Runtime) (os : list Customer) :
  forall (d : Database) (r : Outcome unit) (d' : Database),
    for_of os migrate_customer rt d = (r, d') ->
    exists os1 os2,
      os = (os1 ++ os2)%list /\
      db_customers d' = map (migrate_rows (db_transactions d) os1) (db_customers d) /\
      db_transactions d' = db_transactions d /\
      db_users d' = db_users d /\
      customers_id_seq d' = customers_id_seq d /\
      transactions_id_seq d' = transactions_id_seq d /\
      (r = Ok tt -> os2 = []) /\
      (accepts_all rt -> r = Ok tt).
Proof.
  induction os as [| o os IH]; intros d r d' H.
  - simpl in H. unfold qret in H. injection H as <- <-.
    exists [], []. unfold migrate_rows. simpl. rewrite map_id. repeat split.
  - simpl in H. unfold qbind in H.
    destruct (migrate_customer o rt d) as [r1 d1] eqn:E1.
    apply migrate_customer_step in E1.
    destruct E1 as [(e & -> & -> & Hno) | (-> & ->)].
    + injection H as <- <-. exists [], (o :: os).
      unfold migrate_rows. simpl. rewrite map_id. repeat split.
      * discriminate.
      * intros Hacc. contradiction.
    + apply IH in H.
      destruct H as (os1 & os2 & -> & Hc & Ht & Hu & Hs1 & Hs2 & Hr & Hacc).
      simpl in Hc, Ht, Hu, Hs1, Hs2.
      exists (o :: os1), os2. repeat split; try assumption.
      rewrite Hc, map_map. apply map_ext. intros c. reflexivity.
Qed.

Lemma NoDup_map_injective {A B} (f : A -> B) (l : list A) (a b : A) :
  NoDup (map f l) -> In a l -> In b l -> f a = f b -> a = b.
Proof.
  induction l as [| x l IH]; simpl; intros Hnd Ha Hb Hf; [contradiction |].
  inversion Hnd as [| ? ? Hx Hnd']; subst.
  destruct Ha as [-> | Ha], Hb as [-> | Hb]; auto.
  - exfalso. apply Hx. rewrite Hf. apply in_map. exact Hb.
  - exfalso. apply Hx. rewrite <- Hf. apply in_map. exact Ha.
Qed.

Lemma migrate_rows_other (txs : list Transaction) (os : list Customer) (x : Customer) :
  (forall o, In o os -> customer_id o <> customer_id x) ->
  migrate_rows txs os x = x.
Proof.
  unfold migrate_rows. induction os as [| o os IH]; simpl; intros H; [reflexivity |].
  assert (E : migrate_row txs o x = x).
  { unfold migrate_row. destruct (first_owner txs o); [| reflexivity].
    destruct (Z.eqb_spec (customer_id x) (customer_id o)) as [E |]; [| reflexivity].
    exfalso. apply (H o); auto. }
  rewrite E. apply IH. intros o' Ho'. apply H. auto.
Qed.

Lemma migrate_row_self (txs : list Transaction) (c : Customer) :
  customer_userId c = None -> migrate_row txs c c = migrated txs c.
Proof.
  intros H. unfold migrate_row, migrated. rewrite H. simpl.
  rewrite Z.eqb_refl. reflexivity.
Qed.

Lemma migrated_id (txs : list Transaction) (c : Customer) :
  customer_id (migrated txs c) = customer_id c.
Proof.
  unfold migrated. destruct (is_null _); [| reflexivity].
  destruct (first_owner txs c); reflexivity.
Qed.

(** The loop over distinct rows of the table that have no owner: a row
    of the table that the loop meets is migrated, any other row is
    kept. *)
Lemma migrate_rows_spec (txs : list Transaction) (cs os : list Customer) (c : Customer) :
  NoDup (map customer_id cs) -> incl os cs -> NoDup os ->
  (forall o, In o os -> customer_userId o = None) ->
  In c cs ->
  (In c os -> migrate_rows txs os c = migrated txs c) /\
  (~ In c os -> migrate_rows txs os c = c).
Proof.
  intros Hnd Hincl Hos Horph Hc.
  assert (Hid : forall o, In o os -> o <> c -> customer_id o <> customer_id c).
  { intros o Ho Hne Hid. apply Hne.
    apply (NoDup_map_injective customer_id cs); auto. }
  split.
  - intros Hin. destruct (in_split _ _ Hin) as (l1 & l2 & ->).
    apply NoDup_remove_2 in Hos.
    unfold migrate_rows. rewrite fold_left_app. simpl.
    fold (migrate_rows txs l1 c). rewrite migrate_rows_other.
    + rewrite migrate_row_self by (apply Horph; exact Hin).
      fold (migrate_rows txs l2 (migrated txs c)). apply migrate_rows_other.
      intros o Ho. rewrite migrated_id. apply Hid.
      * apply in_or_app. right. right. exact Ho.
      * intros ->. apply Hos. apply in_or_app. right. exact Ho.
    + intros o Ho. apply Hid.
      * apply in_or_app. left. exact Ho.
      * intros ->. apply Hos. apply in_or_app. left. exact Ho.
  - intros Hnin. apply migrate_rows_other. intros o Ho. apply Hid; [exact Ho |].
    intros ->. contradiction.
Qed.

Lemma NoDup_of_ids (cs : list Customer) :
  NoDup (map customer_id cs) -> NoDup cs.
Proof. apply NoDup_map_inv. Qed.

Lemma orphans_run (rt : Runtime) (d : Database) (r : Outcome unit) (d' : Database) :
  NoDup (map customer_id (db_customers d)) ->
  migrateOrphanedCustomers rt d = (r, d') ->
  exists os1 os2,
    filter (fun c => is_null (customer_userId c)) (db_customers d) = (os1 ++ os2)%list /\
    db_customers d' = map (migrate_rows (db_transactions d) os1) (db_customers d) /\
    db_transactions d' = db_transactions d /\
    db_users d' = db_users d /\
    customers_id_seq d' = customers_id_seq d /\
    transactions_id_seq d' = transactions_id_seq d /\
    (accepts_all rt -> r = Ok tt /\ os2 = []) /\
    (forall c, In c (db_customers d) ->
       (In c os1 -> migrate_rows (db_transactions d) os1 c = migrated (db_transactions d) c) /\
       (~ In c os1 -> migrate_rows (db_transactions d) os1 c = c)).
Proof.
  intros Hnd H. unfold migrateOrphanedCustomers, qbind, query in H.
  destruct (rejects rt SelectOrphanedCustomers) as [e |] eqn:Es.
  - injection H as <- <-.
    exists [], (filter (fun c => is_null (customer_userId c)) (db_customers d)).
    unfold migrate_rows. simpl. rewrite map_id. repeat split.
    + exfalso. rewrite H in Es. discriminate.
    + exfalso. rewrite H in Es. discriminate.
    + contradiction.
  - apply for_of_migrate in H.
    destruct H as (os1 & os2 & Hsplit & Hc & Ht & Hu & Hs1 & Hs2 & Hr & Hacc).
    assert (Hin : forall o, In o os1 ->
              In o (filter (fun c => is_null (customer_userId c)) (db_customers d))).
    { intros o Ho. rewrite Hsplit. apply in_or_app. left. exact Ho. }
    assert (Hspec : forall c, In c (db_customers d) ->
              (In c os1 -> migrate_rows (db_transactions d) os1 c
                           = migrated (db_transactions d) c) /\
              (~ In c os1 -> migrate_rows (db_transactions d) os1 c = c)).
    { intros c Hc'. apply (migrate_rows_spec _ (db_customers d)); auto.
      - intros o Ho. apply Hin, filter_In in Ho. apply Ho.
      - assert (Hf : NoDup (filter (fun c => is_null (customer_userId c))
                              (db_customers d))).
        { apply NoDup_filter. apply NoDup_of_ids. exact Hnd. }
        rewrite Hsplit in Hf. apply NoDup_app_remove_r in Hf. exact Hf.
      - intros o Ho. apply Hin, filter_In in Ho. destruct Ho as [_ Hn].
        destruct (customer_userId o); [discriminate | reflexivity]. }
    exists os1, os2. repeat split; auto; apply Hspec; assumption.
Qed.

Lemma migrated_owned (txs : list Transaction) (c : Customer) :
  customer_userId c <> None -> migrated txs c = c.
Proof.
  unfold migrated. destruct (customer_userId c); [reflexivity | congruence].
Qed.

Lemma migrated_idempotent (txs : list Transaction) (c : Customer) :
  migrated txs (migrated txs c) = migrated txs c.
Proof.
  destruct (customer_userId c) eqn:E.
  - rewrite !(migrated_owned txs c) by congruence. reflexivity.
  - assert (Hm : migrated txs c
                 = match first_owner txs c with
                   | Some owner => with_customer_userId owner c
                   | None => c
                   end)
      by (unfold migrated; rewrite E; reflexivity).
    destruct (first_owner txs c) eqn:Eo; rewrite Hm.
    + apply migrated_owned. simpl. discriminate.
    + exact Hm.
Qed.

Lemma database_eq (d d' : Database) :
  db_users d' = db_users d -> db_customers d' = db_customers d ->
  db_transactions d' = db_transactions d ->
  customers_id_seq d' = customers_id_seq d ->
  transactions_id_seq d' = transactions_id_seq d ->
  d' = d.
Proof. destruct d, d'; simpl; intros; subst; reflexivity. Qed.

(** X16. The migration.  When customer ids are distinct and the
    database rejects no statement, [migrateOrphanedCustomers] succeeds;
    afterwards every customer that had no owner and whose first
    transaction has a non-empty [userId] belongs to that user, every
    other customer row is as before - one that has an owner keeps it -
    and [transactions] and [users] are unchanged.  Running the migration
    again changes nothing. *)
Theorem migration_adopts_orphans (rt : Runtime) (d : Database) :
  accepts_all rt ->
  NoDup (map customer_id (db_customers d)) ->
  exists d',
    migrateOrphanedCustomers rt d = (Ok tt, d') /\
    db_customers d' = map (migrated (db_transactions d)) (db_customers d) /\
    (forall c, In c (db_customers d) -> customer_userId c <> None ->
       migrated (db_transactions d) c = c) /\
    db_transactions d' = db_transactions d /\
    db_users d' = db_users d /\
    migrateOrphanedCustomers rt d' = (Ok tt, d').
Proof.
  intros Hacc Hnd.
  assert (Hrun : forall d0, NoDup (map customer_id (db_customers d0)) ->
            exists d1, migrateOrphanedCustomers rt d0 = (Ok tt, d1) /\
              db_customers d1 = map (migrated (db_transactions d0)) (db_customers d0) /\
              db_transactions d1 = db_transactions d0 /\ db_users d1 = db_users d0 /\
              customers_id_seq d1 = customers_id_seq d0 /\
              transactions_id_seq d1 = transactions_id_seq d0).
  { intros d0 Hnd0.
    destruct (migrateOrphanedCustomers rt d0) as [r d1] eqn:E.
    destruct (orphans_run rt d0 r d1 Hnd0 E)
      as (os1 & os2 & Hsplit & Hc & Ht & Hu & Hs1 & Hs2 & Hok & Hspec).
    destruct (Hok Hacc) as [-> ->]. rewrite app_nil_r in Hsplit.
    exists d1. repeat split; auto.
    rewrite Hc. apply map_ext_in. intros c Hin.
    destruct (is_null (customer_userId c)) eqn:En.
    - apply (proj1 (Hspec c Hin)). rewrite <- Hsplit. apply filter_In. auto.
    - rewrite (proj2 (Hspec c Hin)).
      + symmetry. apply migrated_owned. destruct (customer_userId c); [discriminate |].
        discriminate.
      + rewrite <- Hsplit. intros Hf. apply filter_In in Hf. destruct Hf as [_ Hf].
        congruence. }
  destruct (Hrun d Hnd) as (d1 & E1 & Hc1 & Ht1 & Hu1 & Hs1 & Hs1').
  exists d1. repeat split; auto.
  - intros c _ Ho. apply migrated_owned. exact Ho.
  - assert (Hnd1 : NoDup (map customer_id (db_customers d1))).
    { rewrite Hc1, map_map.
      rewrite (map_ext _ customer_id (migrated_id (db_transactions d))). exact Hnd. }
    destruct (Hrun d1 Hnd1) as (d2 & E2 & Hc2 & Ht2 & Hu2 & Hs2 & Hs2').
    rewrite E2. f_equal. apply database_eq; auto.
    rewrite Hc2, Ht1, Hc1, map_map. apply map_ext. intros c.
    apply migrated_idempotent.
Qed.

(** What a run of the migration, complete or not, makes of each row;
    the places of the list pair a row with what it has become. *)
Lemma migration_rows (rt : Runtime) (d : Database) :
  NoDup (map customer_id (db_customers d)) ->
  let d' := snd (migrateOrphanedCustomers rt d) in
  Forall2 (fun c c' =>
             (c' = c \/
              customer_userId c = None /\ c' = migrated (db_transactions d) c) /\
             (customer_userId c <> None -> c' = c) /\
             customer_id c' = customer_id c /\ customer_name c' = customer_name c /\
             phoneNumber c' = phoneNumber c /\ network c' = network c)
          (db_customers d) (db_customers d') /\
  db_transactions d' = db_transactions d /\
  db_users d' = db_users d.
Proof.
  intros Hnd d'. subst d'.
  destruct (migrateOrphanedCustomers rt d) as [r d1] eqn:E. simpl.
  destruct (orphans_run rt d r d1 Hnd E)
    as (os1 & os2 & Hsplit & Hc & Ht & Hu & _ & _ & _ & Hspec).
  refine (conj _ (conj Ht Hu)). rewrite Hc.
  assert (Hall : forall c, In c (db_customers d) ->
            migrate_rows (db_transactions d) os1 c = c \/
            customer_userId c = None /\
            migrate_rows (db_transactions d) os1 c = migrated (db_transactions d) c).
  { intros c Hin.
    destruct (is_null (customer_userId c)) eqn:En.
    - assert (Hn : customer_userId c = None)
        by (destruct (customer_userId c); [discriminate | reflexivity]).
      destruct (first_owner (db_transactions d) c) eqn:Eo.
      + destruct (existsb (fun o => Z.eqb (customer_id o) (customer_id c)) os1) eqn:Ex.
        * right. split; [exact Hn |]. apply (proj1 (Hspec c Hin)).
          apply existsb_exists in Ex. destruct Ex as (o & Ho & Hid).
          apply Z.eqb_eq in Hid.
          assert (Hoc : In o (db_customers d)).
          { apply (filter_In (fun c => is_null (customer_userId c))).
            rewrite Hsplit. apply in_or_app. left. exact Ho. }
          rewrite <- (NoDup_map_injective customer_id _ o c Hnd Hoc Hin Hid). exact Ho.
        * left. apply (proj2 (Hspec c Hin)). intros Hf.
          assert (Ht' : existsb (fun o => Z.eqb (customer_id o) (customer_id c)) os1 = true).
          { apply existsb_exists. exists c. split; [exact Hf | apply Z.eqb_refl]. }
          congruence.
      + assert (Hm : migrated (db_transactions d) c = c).
        { unfold migrated. rewrite Hn, Eo. reflexivity. }
        destruct (existsb (fun o => Z.eqb (customer_id o) (customer_id c)) os1) eqn:Ex.
        * left. rewrite <- Hm at 2. apply (proj1 (Hspec c Hin)).
          apply existsb_exists in Ex. destruct Ex as (o & Ho & Hid).
          apply Z.eqb_eq in Hid.
          assert (Hoc : In o (db_customers d)).
          { apply (filter_In (fun c => is_null (customer_userId c))).
            rewrite Hsplit. apply in_or_app. left. exact Ho. }
          rewrite <- (NoDup_map_injective customer_id _ o c Hnd Hoc Hin Hid). exact Ho.
        * left. apply (proj2 (Hspec c Hin)). intros Hf.
          assert (Ht' : existsb (fun o => Z.eqb (customer_id o) (customer_id c)) os1 = true).
          { apply existsb_exists. exists c. split; [exact Hf | apply Z.eqb_refl]. }
          congruence.
    - left. apply (proj2 (Hspec c Hin)). intros Hf.
      assert (Hin' : In c (filter (fun c => is_null (customer_userId c)) (db_customers d))).
      { rewrite Hsplit. apply in_or_app. left. exact Hf. }
      apply filter_In in Hin'. destruct Hin' as [_ Hn]. congruence. }
  clear Hspec Hc Hsplit E Hnd. revert Hall.
  generalize (db_customers d) as cs.
  induction cs as [| c cs IH]; intros Hall; simpl; constructor.
  - destruct (Hall c (or_introl eq_refl)) as [-> | [Hn ->]].
    + repeat split; auto.
    + repeat split; auto.
      * intros Ho. contradiction.
      * apply migrated_id.
      * unfold migrated. rewrite Hn. simpl.
        destruct (first_owner _ c); reflexivity.
      * unfold migrated. rewrite Hn. simpl.
        destruct (first_owner _ c); reflexivity.
      * unfold migrated. rewrite Hn. simpl.
        destruct (first_owner _ c); reflexivity.
  - apply IH. intros c' Hin. apply Hall. right. exact Hin.
Qed.

Lemma Forall2_partner {A B} (R : A -> B -> Prop) (l : list A) (l' : list B) (b : B) :
  Forall2 R l l' -> In b l' -> exists a, In a l /\ R a b.
Proof.
  induction 1 as [| x y l l' Hxy _ IH]; simpl; [tauto |].
  intros [<- | Hin].
  - exists x. auto.
  - destruct (IH Hin) as (a & Ha & Hr). exists a. auto.
Qed.

(** X17. The migration never takes a customer from its owner.  With
    distinct customer ids, whatever the database rejects and whether the
    migration returns or throws: the table has the same customers as
    before - the ids of its rows are those of before, none added, lost
    or repeated - and the row of each id is either as it was or, if it
    had no owner, migrated; a customer that has an owner is unchanged; no
    name, phone number or network changes; [transactions] and [users] are
    unchanged. *)
Theorem migration_keeps_owners (rt : Runtime) (d : Database) :
  NoDup (map customer_id (db_customers d)) ->
  let d' := snd (migrateOrphanedCustomers rt d) in
  Permutation (map customer_id (db_customers d')) (map customer_id (db_customers d)) /\
  NoDup (map customer_id (db_customers d')) /\
  (forall c c',
     In c (db_customers d) -> In c' (db_customers d') ->
     customer_id c' = customer_id c ->
     (c' = c \/ customer_userId c = None /\ c' = migrated (db_transactions d) c) /\
     (customer_userId c <> None -> c' = c) /\
     customer_name c' = customer_name c /\
     phoneNumber c' = phoneNumber c /\ network c' = network c) /\
  db_transactions d' = db_transactions d /\
  db_users d' = db_users d.
Proof.
  intros Hnd d'.
  destruct (migration_rows rt d Hnd) as (Hrows & Ht & Hu). fold d' in Hrows, Ht, Hu.
  assert (Hids : map customer_id (db_customers d') = map customer_id (db_customers d)).
  { clear - Hrows. induction Hrows as [| c c' l l' Hc _ IH]; simpl; [reflexivity |].
    destruct Hc as (_ & _ & -> & _). rewrite IH. reflexivity. }
  split; [rewrite Hids; apply Permutation_refl |].
  split; [rewrite Hids; exact Hnd |].
  split; [| split; assumption].
  intros c c' Hc Hc' Hid.
  destruct (Forall2_partner _ _ _ c' Hrows Hc') as (c0 & Hc0 & Hr).
  destruct Hr as (Hcase & Hown & Hid0 & Hname & Hphone & Hnet).
  assert (c0 = c).
  { apply (NoDup_map_injective customer_id _ c0 c Hnd Hc0 Hc). congruence. }
  subst c0. auto.
Qed.

(** ** The routes behind [requireAuth] *)

Lemma requireAuth_session (session header : option string) :
  Str.truthy session = true ->
  exists userId, session = Some userId /\ requireAuth session header = Next userId.
Proof.
  unfold requireAuth. intros H. rewrite H. simpl.
  destruct session as [userId |]; [| discriminate]. exists userId. split; reflexivity.
Qed.

Lemma requireAuth_next (session header : option string) (userId : string) :
  requireAuth session header = Next userId ->
  userId <> "" /\
  (session = Some userId \/ Str.truthy session = false /\ header = Some userId).
Proof.
  unfold requireAuth.
  destruct (Str.truthy session) eqn:Es; simpl.
  - destruct session as [s |]; [| discriminate]. intros H. injection H as ->.
    split; [| left; reflexivity].
    intros ->. discriminate.
  - destruct (Str.truthy header) eqn:Eh; [| discriminate].
    destruct header as [h |]; [| discriminate]. intros H. injection H as ->.
    split; [| right; split; reflexivity].
    intros ->. discriminate.
Qed.

(** X18. What [requireAuth] accepts.  A request without a session user
    and with a non-empty [X-User-Id] header is served exactly as a request
    of the session user named in the header, by every route behind
    [requireAuth], and leaves that name in the session: the header alone
    identifies the user, and no table is consulted.  A session user makes
    the header irrelevant.  Without session user and header the answer is
    401 [Unauthorized] and the handler does not run. *)
Theorem header_identifies_user (handler : string -> Q Response) (rt : Runtime)
  (d : Database) (service : string -> M Response) (env : Env) (w : World) :
  (forall h, h <> "" ->
     authenticated None (Some h) handler rt d
     = authenticated (Some h) None handler rt d /\
     forall s res d', authenticated None (Some h) handler rt d = (Ok (s, res), d') ->
                      s = Some h) /\
  (forall session header, Str.truthy session = true ->
     authenticated session header handler rt d
     = authenticated session None handler rt d) /\
  (forall session header, Str.truthy session = false -> Str.truthy header = false ->
     authenticated session header handler rt d
     = (Ok (session, json 401 (Message "Unauthorized")), d)) /\
  (forall h, h <> "" ->
     authenticated_backup None (Some h) service env w
     = authenticated_backup (Some h) None service env w).
Proof.
  assert (Hh : forall h, h <> "" ->
            requireAuth None (Some h) = Next h /\ requireAuth (Some h) None = Next h).
  { intros h Hne.
    assert (Ht : negb (h =? "")%string = true).
    { destruct (String.eqb_spec h ""); [contradiction | reflexivity]. }
    unfold requireAuth. simpl. rewrite Ht. split; reflexivity. }
  split; [| split; [| split]].
  - intros h Hne. destruct (Hh h Hne) as [E1 E2].
    unfold authenticated. rewrite E1, E2. split; [reflexivity |].
    intros s res d'. unfold qbind, qret.
    destruct (handler h rt d) as [[r | e | e] d1]; [| discriminate | discriminate].
    intros H. injection H as <- _ _. reflexivity.
  - intros session header H.
    destruct (requireAuth_session session header H) as (u & -> & E1).
    destruct (requireAuth_session (Some u) None H) as (u' & Eu & E2).
    injection Eu as <-.
    unfold authenticated. rewrite E1, E2. reflexivity.
  - intros session header Hs Hh'. unfold authenticated, requireAuth.
    rewrite Hs, Hh'. reflexivity.
  - intros h Hne. destruct (Hh h Hne) as [E1 E2].
    unfold authenticated_backup. rewrite E1, E2. reflexivity.
Qed.

Lemma authenticated_next (session header : option string) (userId : string)
  (handler : string -> Q Response) (rt : Runtime) (d : Database) :
  requireAuth session header = Next userId ->
  authenticated session header handler rt d
  = match handler userId rt d with
    | (Ok res, d') => (Ok (Some userId, res), d')
    | (Throw e, d') => (Throw e, d')
    | (Exit e, d') => (Exit e, d')
    end.
Proof.
  intros H. unfold authenticated. rewrite H. unfold qbind, qret.
  destruct (handler userId rt d) as [[r | e | e] d']; reflexivity.
Qed.

(** X19. Deleting a transaction checks no owner.  For a request that
    passes [requireAuth], an id that [Number] reads as the integer [z] and
    a database that accepts the statement, the answer is 204 and every
    row of [transactions] with id [z] is gone, whoever owns it; the other
    rows stay, in their order; [customers] and [users] are unchanged.  The
    result is the same for every user that passes [requireAuth]. *)
Theorem delete_checks_no_owner (rt : Runtime) (d : Database)
  (session header : option string) (userId id : string) (z : Z) :
  requireAuth session header = Next userId ->
  Number_of rt id = Num z ->
  rejects rt (DeleteTransaction (Num z)) = None ->
  exists d',
    delete_transaction_route session header id rt d
    = (Ok (Some userId, json 204 NoContent), d') /\
    db_transactions d' = filter (fun t => negb (Z.eqb (tx_id t) z)) (db_transactions d) /\
    (forall t, In t (db_transactions d') <-> In t (db_transactions d) /\ tx_id t <> z) /\
    db_customers d' = db_customers d /\
    db_users d' = db_users d /\
    (forall session2 header2 userId2,
       requireAuth session2 header2 = Next userId2 ->
       snd (delete_transaction_route session2 header2 id rt d) = d').
Proof.
  intros Hauth Hn Hacc.
  assert (Hrun : forall s h u, requireAuth s h = Next u ->
            delete_transaction_route s h id rt d
            = (Ok (Some u, json 204 NoContent),
               set_db_transactions
                 (filter (fun t => negb (Z.eqb (tx_id t) z)) (db_transactions d)) d)).
  { intros s h u Hu. unfold delete_transaction_route.
    rewrite (authenticated_next _ _ _ _ _ _ Hu).
    unfold delete_transaction_handler, deleteTransaction, qbind, runtime, query, qret.
    rewrite Hn, Hacc. reflexivity. }
  eexists. split; [apply (Hrun _ _ _ Hauth) |]. simpl.
  split; [reflexivity |]. split.
  { intros t. rewrite filter_In, negb_true_iff, Z.eqb_neq. reflexivity. }
  split; [reflexivity |]. split; [reflexivity |].
  intros s2 h2 u2 H2. rewrite (Hrun _ _ _ H2). reflexivity.
Qed.

(** X20. Reading a customer checks the owner.  Whatever the route
    answers, it changes no table.  An answer with status 200 carries a
    customer row of the table whose id is the one [parseInt] reads and
    whose [userId] is the user [requireAuth] let in.  For a customer of
    another user, or of no user, the answer is the 404 [Customer not
    found] that a missing customer gets; an id that [parseInt] reads as
    [NaN] gets 400 without any statement. *)
Theorem get_customer_checks_owner (rt : Runtime) (d : Database)
  (session header : option string) (idParam : string) :
  (forall s res d',
     get_customer_route session header idParam rt d = (Ok (s, res), d') ->
     d' = d /\
     (statusCode res = 200 ->
      exists c userId,
        res = json 200 (CustomerJson c) /\ In c (db_customers d) /\
        parseInt rt idParam = Num (customer_id c) /\
        requireAuth session header = Next userId /\
        customer_userId c = Some userId)) /\
  (forall userId z,
     requireAuth session header = Next userId ->
     parseInt rt idParam = Num z ->
     rejects rt (SelectCustomerById (Num z)) = None ->
     match first_row (filter (fun c => Z.eqb (customer_id c) z) (db_customers d)) with
     | Some c =>
         customer_userId c <> Some userId ->
         get_customer_route session header idParam rt d
         = (Ok (Some userId, json 404 (Message "Customer not found")), d)
     | None =>
         get_customer_route session header idParam rt d
         = (Ok (Some userId, json 404 (Message "Customer not found")), d)
     end) /\
  (forall userId,
     requireAuth session header = Next userId ->
     parseInt rt idParam = NaN ->
     get_customer_route session header idParam rt d
     = (Ok (Some userId, json 400 (Message "Invalid customer ID format")), d)).
Proof.
  split; [| split].
  - intros s res d' H. unfold get_customer_route, authenticated in H.
    destruct (requireAuth session header) as [res0 | userId] eqn:Ea.
    + unfold qret in H. injection H as <- <- <-. split; [reflexivity |].
      unfold requireAuth in Ea.
      destruct (Str.truthy session), (Str.truthy header), session, header;
        simpl in Ea; try discriminate; injection Ea as <-; discriminate.
    + unfold get_customer_handler, getCustomer, qbind, qret, runtime, query in H.
      destruct (parseInt rt idParam) as [| z] eqn:Ep; simpl in H.
      * injection H as <- <- <-. split; [reflexivity | discriminate].
      * destruct (rejects rt (SelectCustomerById (Num z))); [discriminate |].
        destruct (first_row (filter _ (db_customers d))) as [c |] eqn:Ef.
        -- apply first_row_filter_in in Ef. destruct Ef as [Hin Hid].
           simpl in Hid. apply Z.eqb_eq in Hid.
           destruct (eq_text (customer_userId c) userId) eqn:Eo; simpl in H;
             injection H as <- <- <-; (split; [reflexivity |]).
           ++ intros _. exists c, userId. repeat split; auto.
              ** rewrite Hid. reflexivity.
              ** unfold eq_text in Eo. destruct (customer_userId c); [| discriminate].
                 apply String.eqb_eq in Eo. subst. reflexivity.
           ++ discriminate.
        -- injection H as <- <- <-. split; [reflexivity | discriminate].
  - intros userId z Ha Hp Hacc. unfold get_customer_route.
    rewrite (authenticated_next _ _ _ _ _ _ Ha).
    unfold get_customer_handler, getCustomer, qbind, qret, runtime, query.
    rewrite Hp. simpl. rewrite Hacc.
    destruct (first_row (filter _ (db_customers d))) as [c |] eqn:Ef; [| reflexivity].
    intros Hne.
    assert (Eo : eq_text (customer_userId c) userId = false).
    { unfold eq_text. destruct (customer_userId c) as [o |]; [| reflexivity].
      apply String.eqb_neq. congruence. }
    rewrite Eo. reflexivity.
  - intros userId Ha Hp. unfold get_customer_route.
    rewrite (authenticated_next _ _ _ _ _ _ Ha).
    unfold get_customer_handler, qbind, qret, runtime. rewrite Hp. reflexivity.
Qed.

(** ** Changing the business name *)

Lemma ceil_minutes_spec (x : Z) :
  60000 * (ceil_minutes x - 1) < x <= 60000 * ceil_minutes x.
Proof.
  unfold ceil_minutes.
  pose proof (Z.div_mod (- x) 60000 ltac:(lia)) as Hd.
  pose proof (Z.mod_pos_bound (- x) 60000 ltac:(lia)) as Hm.
  lia.
Qed.

Lemma filter_update_users (change : User -> User) (userId : string) (rows : list User) :
  (forall u, user_id (change u) = user_id u) ->
  filter (fun u => String.eqb (user_id u) userId)
         (map (fun u => if String.eqb (user_id u) userId then change u else u) rows)
  = map change (filter (fun u => String.eqb (user_id u) userId) rows).
Proof.
  intros Hid. induction rows as [| u rows IH]; simpl; [reflexivity |].
  destruct (String.eqb (user_id u) userId) eqn:E; simpl.
  - rewrite Hid, E. simpl. rewrite IH. reflexivity.
  - rewrite E. exact IH.
Qed.

Lemma first_row_map {A B} (f : A -> B) (l : list A) :
  first_row (map f l) = option_map f (first_row l).
Proof. destruct l; reflexivity. Qed.

(** A request that changed the name. *)
Lemma update_business_name_done (rt : Runtime) (d d1 : Database)
  (userId newName : string) (u1 : option User) :
  update_business_name_handler newName userId rt d
  = (Ok (json 200 (UserJson u1)), d1) ->
  exists u,
    first_row (filter (fun u => String.eqb (user_id u) userId) (db_users d)) = Some u /\
    u1 = Some (with_businessName newName (Date_now rt) u) /\
    db_users d1
    = map (fun u => if String.eqb (user_id u) userId
                    then with_businessName newName (Date_now rt) u else u)
          (db_users d) /\
    db_customers d1 = db_customers d /\
    db_transactions d1 = db_transactions d.
Proof.
  unfold update_business_name_handler, updateBusinessName, getUser, update_users,
    qtry, qbind, qret, runtime, query.
  intros H.
  destruct (businessName_valid rt newName); cbn [negb] in H; [| discriminate].
  destruct (rejects rt (SelectUserById userId)); [discriminate |].
  destruct (first_row (filter _ (db_users d))) as [u |] eqn:Ef; [| discriminate].
  assert (Hid : user_id u = userId).
  { apply first_row_filter_in in Ef. apply String.eqb_eq. apply Ef. }
  rewrite Hid in H.
  assert (Hgo :
    match rejects rt (UpdateUserBusinessName userId newName) with
    | Some e => (Ok (json 500 (Message "Failed to update business name")), d)
    | None =>
        (Ok (json 200 (UserJson (first_row
               (filter (fun u => String.eqb (user_id u) userId)
                  (map (fun u => if String.eqb (user_id u) userId
                                 then with_businessName newName (Date_now rt) u else u)
                       (db_users d)))))),
         set_db_users
           (map (fun u => if String.eqb (user_id u) userId
                          then with_businessName newName (Date_now rt) u else u)
                (db_users d)) d)
    end = (Ok (json 200 (UserJson u1)), d1) ->
    exists u0,
      Some u = Some u0 /\
      u1 = Some (with_businessName newName (Date_now rt) u0) /\
      db_users d1
      = map (fun u => if String.eqb (user_id u) userId
                      then with_businessName newName (Date_now rt) u else u)
            (db_users d) /\
      db_customers d1 = db_customers d /\
      db_transactions d1 = db_transactions d).
  { destruct (rejects rt (UpdateUserBusinessName userId newName)); [discriminate |].
    intros H0. injection H0 as <- <-. exists u.
    rewrite filter_update_users by reflexivity.
    rewrite first_row_map, Ef. repeat split. }
  destruct (lastBusinessNameChange u) as [changed |].
  - destruct (Date_now rt - changed <? 30 * 60 * 1000); [discriminate |].
    apply Hgo. destruct (rejects rt (UpdateUserBusinessName userId newName)); exact H.
  - apply Hgo. destruct (rejects rt (UpdateUserBusinessName userId newName)); exact H.
Qed.

(** X21. The cooldown of the business name.  After a request that
    changed the name of a user at time [t1], the row of the user carries
    the new name and [t1].  A further valid request at time [t2] with
    [t2 - t1] below 30 minutes (1800000 ms) is answered 400 with the
    number [m] of minutes to wait, the least [m] with [m] minutes at
    least the remaining time - between 1 and 30 when [t1 <= t2] - and
    changes nothing; at 30 minutes or more it changes the name again. *)
Theorem business_name_cooldown (rt1 rt2 : Runtime) (d d1 : Database)
  (userId name1 name2 : string) (u1 : option User) :
  update_business_name_handler name1 userId rt1 d
  = (Ok (json 200 (UserJson u1)), d1) ->
  businessName_valid rt2 name2 = true ->
  rejects rt2 (SelectUserById userId) = None ->
  let elapsed := Date_now rt2 - Date_now rt1 in
  (exists u, u1 = Some u /\ user_id u = userId /\ businessName u = name1 /\
             lastBusinessNameChange u = Some (Date_now rt1) /\
             first_row (filter (fun u => String.eqb (user_id u) userId) (db_users d1))
             = Some u) /\
  (elapsed < 1800000 ->
   exists m,
     update_business_name_handler name2 userId rt2 d1
     = (Ok (json 400 (Message ("Please wait " ++ show_number m
                               ++ " minutes before changing business name again."))),
        d1) /\
     60000 * (m - 1) < 1800000 - elapsed <= 60000 * m /\
     1 <= m /\
     (0 <= elapsed -> m <= 30)) /\
  (1800000 <= elapsed ->
   rejects rt2 (UpdateUserBusinessName userId name2) = None ->
   exists u2 d2,
     update_business_name_handler name2 userId rt2 d1
     = (Ok (json 200 (UserJson (Some u2))), d2) /\
     businessName u2 = name2 /\
     lastBusinessNameChange u2 = Some (Date_now rt2) /\
     first_row (filter (fun u => String.eqb (user_id u) userId) (db_users d2))
     = Some u2).
Proof.
  intros H Hvalid Hsel elapsed.
  destruct (update_business_name_done _ _ _ _ _ _ H) as (u & Ef & -> & Hu & _ & _).
  assert (Hid : user_id u = userId).
  { apply first_row_filter_in in Ef. apply String.eqb_eq. apply Ef. }
  assert (Ef1 : first_row (filter (fun u => String.eqb (user_id u) userId) (db_users d1))
                = Some (with_businessName name1 (Date_now rt1) u)).
  { rewrite Hu, filter_update_users by reflexivity. rewrite first_row_map, Ef.
    reflexivity. }
  split; [| split].
  - eexists. repeat split; [exact Hid | exact Ef1].
  - intros Hlt. exists (ceil_minutes (1800000 - elapsed)).
    pose proof (ceil_minutes_spec (1800000 - elapsed)) as Hc.
    split; [| split; [exact Hc | split; [lia |]]].
    + unfold update_business_name_handler, getUser, qtry, qbind, qret, runtime, query.
      cbv beta. rewrite Hvalid. cbn [negb]. rewrite Hsel, Ef1. cbn [negb lastBusinessNameChange with_businessName].
      fold elapsed.
      destruct (Z.ltb_spec elapsed (30 * 60 * 1000)) as [_ | Hge]; [| lia].
      reflexivity.
    + intros H0. lia.
  - intros Hge Hupd.
    assert (Hid1 : forall v, user_id (with_businessName name2 (Date_now rt2) v) = user_id v)
      by reflexivity.
    exists (with_businessName name2 (Date_now rt2) (with_businessName name1 (Date_now rt1) u)).
    eexists. split; [| split; [reflexivity | split; [reflexivity |]]].
    + unfold update_business_name_handler, updateBusinessName, getUser, update_users,
        qtry, qbind, qret, runtime, query.
      cbv beta. rewrite Hvalid. cbn [negb]. rewrite Hsel, Ef1.
      cbn [negb lastBusinessNameChange with_businessName user_id].
      fold elapsed.
      destruct (Z.ltb_spec elapsed (30 * 60 * 1000)) as [Hlt | _]; [lia |].
      rewrite Hid, Hupd.
      rewrite (filter_update_users _ _ _ Hid1), first_row_map, Ef1. reflexivity.
    + simpl. rewrite (filter_update_users _ _ _ Hid1), first_row_map, Ef1. reflexivity.
Qed.

(** ** Setting up an account and logging in *)

Lemma first_row_none {A} (l : list A) : first_row l = None -> l = [].
Proof. destruct l; [reflexivity | discriminate]. Qed.

(** X22. Setting up, then logging in.  When the setup route answers
    201 for an input with a non-empty email, the answer carries the new
    row - the id from [randomUUID], the name and email of the input, the
    hash of the PIN, no storage used and a limit of 15 GiB - and the
    session is that of the new user.  If the id is new to the table and
    [bcrypt.compare] accepts the PIN against the hash made at setup, a
    login with that email and PIN is answered 200 with the same row and
    opens the session of that user; with a PIN that [bcrypt.compare]
    refuses it is answered 401 and leaves the session as it is.  Neither
    login changes a table. *)
Theorem setup_then_login (rt1 rt2 : Runtime) (d d1 : Database)
  (session session2 : option string) (i : SetupInput) (e : string)
  (s1 : option string) (res1 : Response) :
  setup_route session (Some i) rt1 d = (Ok (s1, res1), d1) ->
  statusCode res1 = 201 ->
  setup_email i = Some e -> e <> "" ->
  (forall u, In u (db_users d) -> user_id u <> randomUUID rt1) ->
  rejects rt2 (SelectUserByEmail e) = None ->
  rejects rt2 (SelectUserById (randomUUID rt1)) = None ->
  let u := {| user_id := randomUUID rt1; businessName := setup_businessName i;
              pinHash := bcrypt_hash rt1 (setup_pin i); email := Some e;
              createdAt := Date_now rt1; storageUsed := 0;
              storageLimit := 16106127360; lastBusinessNameChange := None |} in
  res1 = json 201 (UserJson (Some u)) /\
  s1 = Some (randomUUID rt1) /\
  db_users d1 = (db_users d ++ [u])%list /\
  (forall pin,
     login_route session2 e pin rt2 d1
     = if bcrypt_compare rt2 pin (bcrypt_hash rt1 (setup_pin i))
       then (Ok (Some (randomUUID rt1), json 200 (UserJson (Some u))), d1)
       else (Ok (session2, json 401 (Message "Invalid email or PIN")), d1)).
Proof.
  intros H H201 He Hne Hfresh Hsel Hget u.
  assert (Ht : negb (e =? "")%string = true).
  { destruct (String.eqb_spec e ""); [contradiction | reflexivity]. }
  unfold setup_route, getUserByBusinessName, getUserByEmail, createUser,
    qtry, qbind, qret, runtime, query in H.
  rewrite He in H. simpl in H. rewrite Ht in H.
  assert (Hd : res1 = json 201 (UserJson (Some u)) /\ s1 = Some (randomUUID rt1) /\
               db_users d1 = (db_users d ++ [u])%list /\
               filter (fun u => eq_text (email u) e) (db_users d) = []).
  { destruct (rejects rt1 (SelectUserByBusinessName _)).
    { injection H as <- <- <-. discriminate. }
    destruct (first_row (filter _ (db_users d))).
    { injection H as <- <- <-. discriminate. }
    destruct (rejects rt1 (SelectUserByEmail e)).
    { injection H as <- <- <-. discriminate. }
    destruct (first_row (filter (fun u => eq_text (email u) e) (db_users d))) eqn:Ee.
    { injection H as <- <- <-. discriminate. }
    apply first_row_none in Ee.
    destruct (rejects rt1 (InsertUser _)).
    { injection H as <- <- <-. discriminate. }
    injection H as <- <- <-. repeat split. exact Ee. }
  destruct Hd as (-> & -> & Hu & Hnone).
  repeat split; [exact Hu |].
  intros pin.
  unfold login_route, validatePin, getUserByEmail, getUser, qtry, qbind, qret,
    runtime, query.
  rewrite Hsel, Hu, filter_app, Hnone. simpl.
  rewrite String.eqb_refl. simpl. rewrite Hget. simpl. rewrite Hu, filter_app.
  assert (Hf : filter (fun u => String.eqb (user_id u) (randomUUID rt1)) (db_users d) = []).
  { clear - Hfresh. induction (db_users d) as [| v l IH]; simpl; [reflexivity |].
    destruct (String.eqb_spec (user_id v) (randomUUID rt1)) as [E | _].
    - exfalso. apply (Hfresh v); [left; reflexivity | exact E].
    - apply IH. intros w Hw. apply Hfresh. right. exact Hw. }
  rewrite Hf. simpl. rewrite String.eqb_refl. simpl.
  destruct (bcrypt_compare rt2 pin (bcrypt_hash rt1 (setup_pin i))); reflexivity.
Qed.

(** ** The dashboard *)

Section DashboardFacts.

Variable num : Type.
Variable zero : num.
Variable plus : num -> num -> num.
Variable Number : string -> num.

Lemma fold_add_todayCount (l : list Transaction) (s : DashboardStats num) :
  todayCount (fold_left (add_to_stats num zero plus Number) l s) = todayCount s.
Proof.
  revert s. induction l as [| t l IH]; intros s; simpl; [reflexivity |].
  rewrite IH. reflexivity.
Qed.

Lemma fold_add_totals (l : list Transaction) (s1 s2 : DashboardStats num) :
  totalCashIn s1 = totalCashIn s2 -> totalCashOut s1 = totalCashOut s2 ->
  totalFees s1 = totalFees s2 ->
  let r1 := fold_left (add_to_stats num zero plus Number) l s1 in
  let r2 := fold_left (add_to_stats num zero plus Number) l s2 in
  totalCashIn r1 = totalCashIn r2 /\ totalCashOut r1 = totalCashOut r2 /\
  totalFees r1 = totalFees r2.
Proof.
  revert s1 s2. induction l as [| t l IH]; intros s1 s2 H1 H2 H3; simpl.
  - auto.
  - apply IH; unfold add_to_stats; cbn [totalCashIn totalCashOut totalFees];
      rewrite ?H1, ?H2, ?H3; reflexivity.
Qed.


End DashboardFacts.

(** ** The backup routes *)

(** [createBackup] returns a result or ends the process; it never
    rejects. *)
Lemma createBackup_never_rejects (env : Env) (w : World) (userId : string) e w' :
  createBackup userId env w <> (Throw e, w').
Proof.
  unfold createBackup, try_catch, ret.
  destruct (createBackup_try userId env w) as [[r | e0 | e0] w1]; discriminate.
Qed.

Lemma restoreBackup_returns (env : Env) (w : World) (userId backupId : string) :
  exists b, restoreBackup userId backupId env w
            = (Ok b, snd (restoreBackup userId backupId env w)).
Proof.
  unfold restoreBackup, try_catch, restoreBackup_try, bind, ask, get_this.
  destruct (cloud_client (this w)).
  - unfold download, client_call.
    destruct (fault env (Download _ _)); [eexists; reflexivity |].
    destruct (Store.object_lookup _ _ _); [| eexists; reflexivity].
    cbv beta iota. unfold writeFile, call.
    destruct (fault env (WriteFile _ _)); [eexists; reflexivity |].
    destruct (write_node env _ _ _) as [w2 |]; [| eexists; reflexivity].
    unfold ret. cbv beta iota.
    destruct (deployMode (this w2)); [| eexists; reflexivity].
    unfold remove, call. destruct (fault env (Remove _)); eexists; reflexivity.
  - unfold pathExists. cbv beta iota.
    destruct (negb _); [eexists; reflexivity |].
    unfold ret. cbv beta iota.
    destruct (deployMode _); [| eexists; reflexivity].
    unfold remove, call. destruct (fault env (Remove _)); eexists; reflexivity.
Qed.

(** X24. The backup routes.  Without session user and header each of
    the three routes answers 401 and the service is not called.  For a
    request that [requireAuth] lets in as [userId]: the create route
    leaves the state [createBackup] leaves for [userId]; when
    [createBackup] returns a result, it answers 200 with the result if
    that reports success and 400 with its message otherwise; when
    [createBackup] ends the process with the error of the write stream,
    the route gives no answer; [createBackup] never rejects.  The list
    route answers 200 with the array [listBackups] returns, and rejects
    with the error [listBackups] rejects with.  The restore route always
    answers, 200 [Restore initiated] or 400 [Restore failed], and in both
    cases [database.db] and the [users] table are as before the
    request. *)
Theorem backup_routes_answer (env : Env) (w : World) (session header : option string)
  (backupId : string) :
  (Str.truthy session = false -> Str.truthy header = false ->
   backup_create_route session header env w
   = (Ok (session, json 401 (Message "Unauthorized")), w) /\
   backup_list_route session header env w
   = (Ok (session, json 401 (Message "Unauthorized")), w) /\
   backup_restore_route session header backupId env w
   = (Ok (session, json 401 (Message "Unauthorized")), w)) /\
  (forall userId, requireAuth session header = Next userId ->
     backup_create_route session header env w
     = match createBackup userId env w with
       | (Ok r, w') =>
           (Ok (Some userId,
                if success r then json 200 (BackupJson r)
                else json 400 (Message (msg r))), w')
       | (Throw e, w') => (Throw e, w')
       | (Exit e, w') => (Exit e, w')
       end /\
     (forall e w', createBackup userId env w <> (Throw e, w')) /\
     backup_list_route session header env w
     = match listBackups userId env w with
       | (Ok l, w') => (Ok (Some userId, json 200 (BackupsJson l)), w')
       | (Throw e, w') => (Throw e, w')
       | (Exit e, w') => (Exit e, w')
       end /\
     (exists b w',
        backup_restore_route session header backupId env w
        = (Ok (Some userId,
               if b : bool
               then json 200 (Message "Restore initiated (Not fully implemented in web version)")
               else json 400 (Message "Restore failed")),
           w') /\
        (consistent_mode (this w) ->
         FS.lookup (fs w') (db_path env) = FS.lookup (fs w) (db_path env) /\
         users w' = users w))).
Proof.
  split.
  - intros Hs Hh.
    unfold backup_create_route, backup_list_route, backup_restore_route,
      authenticated_backup, requireAuth. rewrite Hs, Hh. repeat split.
  - intros userId Ha.
    unfold backup_create_route, backup_list_route, backup_restore_route,
      authenticated_backup. rewrite Ha. unfold bind, ret.
    split; [| split; [| split]].
    + destruct (createBackup userId env w) as [[r | e | e] w']; [| reflexivity ..].
      destruct (success r); reflexivity.
    + intros e w'. apply createBackup_never_rejects.
    + destruct (listBackups userId env w) as [[l | e | e] w']; reflexivity.
    + destruct (restoreBackup_returns env w userId backupId) as (b & E).
      exists b, (snd (restoreBackup userId backupId env w)). rewrite E.
      split; [destruct b; reflexivity |].
      intros Hmode.
      destruct (restoreBackup_frame env w userId backupId _ _ Hmode E)
        as (_ & Hu & _ & Hfiles & _).
      split; [| exact Hu]. apply Hfiles. apply restore_temp_apart.
Qed.

(** ** Changing and resetting the PIN *)

Lemma filter_map_preserved {A} (p : A -> bool) (g : A -> A) (l : list A) :
  (forall x, p (g x) = p x) -> filter p (map g l) = map g (filter p l).
Proof.
  intros Hp. induction l as [| x l IH]; simpl; [reflexivity |].
  rewrite Hp. destruct (p x); simpl; rewrite IH; reflexivity.
Qed.

(** The rows of [users] after [updatePin], and what [validatePin] then
    answers. *)
Lemma validatePin_after_update (rt2 : Runtime) (d d1 : Database)
  (userId hash pin : string) (u : User) :
  first_row (filter (fun u => String.eqb (user_id u) userId) (db_users d)) = Some u ->
  db_users d1
  = map (fun v => if String.eqb (user_id v) userId then with_pinHash hash v else v)
        (db_users d) ->
  rejects rt2 (SelectUserById userId) = None ->
  validatePin userId pin rt2 d1 = (Ok (bcrypt_compare rt2 pin hash), d1).
Proof.
  intros Hu Hd Hsel. unfold validatePin, getUser, qbind, qret, runtime, query.
  rewrite Hsel, Hd, filter_update_users by reflexivity.
  rewrite first_row_map, Hu. reflexivity.
Qed.

(** X25. Changing the PIN takes the current PIN.  For a valid input,
    an existing user and a database that accepts the statements: when
    [bcrypt.compare] refuses the current PIN against the stored hash, the
    answer is 400 and nothing changes; when it accepts, the answer is
    200, every row of the user carries the hash of the new PIN, every
    other column and row of [users] and the other tables are as before,
    and from then on [validatePin] answers what [bcrypt.compare] says of
    the PIN and the new hash. *)
Theorem pin_change_takes_current_pin (rt : Runtime) (d : Database)
  (userId currentPin newPin : string) (u : User) :
  updatePin_valid rt currentPin newPin = true ->
  rejects rt (SelectUserById userId) = None ->
  rejects rt (UpdateUserPin userId (bcrypt_hash rt newPin)) = None ->
  first_row (filter (fun u => String.eqb (user_id u) userId) (db_users d)) = Some u ->
  (bcrypt_compare rt currentPin (pinHash u) = false ->
   update_pin_handler currentPin newPin userId rt d
   = (Ok (json 400 (Message "UPDATE_PIN_INCORRECT_CURRENT")), d)) /\
  (bcrypt_compare rt currentPin (pinHash u) = true ->
   exists d1,
     update_pin_handler currentPin newPin userId rt d
     = (Ok (json 200 (Message "PIN updated successfully")), d1) /\
     db_users d1
     = map (fun v => if String.eqb (user_id v) userId
                     then with_pinHash (bcrypt_hash rt newPin) v else v)
           (db_users d) /\
     db_customers d1 = db_customers d /\
     db_transactions d1 = db_transactions d /\
     (forall rt2 pin,
        rejects rt2 (SelectUserById userId) = None ->
        validatePin userId pin rt2 d1
        = (Ok (bcrypt_compare rt2 pin (bcrypt_hash rt newPin)), d1))).
Proof.
  intros Hvalid Hsel Hupd Hu.
  assert (Hid : user_id u = userId).
  { apply first_row_filter_in in Hu. apply String.eqb_eq. apply Hu. }
  split.
  - intros Hno.
    unfold update_pin_handler, validatePin, getUser, qtry, qbind, qret, runtime, query.
    cbv beta. rewrite Hvalid. cbn [negb]. rewrite Hsel, Hu, Hid, Hsel, Hu, Hno.
    reflexivity.
  - intros Hyes.
    exists (set_db_users
              (map (fun v => if String.eqb (user_id v) userId
                             then with_pinHash (bcrypt_hash rt newPin) v else v)
                   (db_users d)) d).
    split; [| split; [| split; [| split]]].
    + unfold update_pin_handler, validatePin, updatePin, update_users, getUser,
        qtry, qbind, qret, runtime, query.
      cbv beta. rewrite Hvalid. cbn [negb]. rewrite Hsel, Hu, Hid, Hsel, Hu, Hyes.
      cbn [negb]. rewrite Hupd. reflexivity.
    + reflexivity.
    + reflexivity.
    + reflexivity.
    + intros rt2 pin Hsel2.
      apply (validatePin_after_update rt2 d _ userId _ pin u Hu); [reflexivity | exact Hsel2].
Qed.

(** X26. Resetting the PIN takes no login.  The route is not behind
    [requireAuth].  For an email no row carries, the answer is the
    message alone and nothing changes.  For the email of a user and a
    database that accepts the statements, every row of that user gets the
    hash of a new temporary PIN; the answer is the same message alone
    when [NODE_ENV] is [production], and otherwise carries the temporary
    PIN; and a login with the email and the temporary PIN, which
    [bcrypt.compare] accepts against that hash, opens the session of the
    user. *)
Theorem forgot_pin_takes_no_login (rt : Runtime) (d : Database) (email_ : string) :
  rejects rt (SelectUserByEmail email_) = None ->
  let found := first_row (filter (fun u => eq_text (email u) email_) (db_users d)) in
  let m := "If an account exists with this email, a reset code has been sent." in
  let tempPin := show_number (Math_random_pin rt) in
  (found = None -> forgot_pin_route email_ rt d = (Ok (json 200 (Message m)), d)) /\
  (forall u, found = Some u ->
     rejects rt (UpdateUserPin (user_id u) (bcrypt_hash rt tempPin)) = None ->
     exists d1,
       forgot_pin_route email_ rt d
       = (Ok (json 200 (if eq_text (NODE_ENV rt) "production"
                        then Message m else ResetJson m tempPin)), d1) /\
       db_users d1
       = map (fun v => if String.eqb (user_id v) (user_id u)
                       then with_pinHash (bcrypt_hash rt tempPin) v else v)
             (db_users d) /\
       db_customers d1 = db_customers d /\
       db_transactions d1 = db_transactions d /\
       (forall rt2 session,
          rejects rt2 (SelectUserByEmail email_) = None ->
          rejects rt2 (SelectUserById (user_id u)) = None ->
          bcrypt_compare rt2 tempPin (bcrypt_hash rt tempPin) = true ->
          login_route session email_ tempPin rt2 d1
          = (Ok (Some (user_id u),
                 json 200 (UserJson (Some (with_pinHash (bcrypt_hash rt tempPin) u)))),
             d1))).
Proof.
  intros Hsel found m tempPin. split.
  - intros Hnone. unfold forgot_pin_route, getUserByEmail, qtry, qbind, qret, query.
    rewrite Hsel. fold found. rewrite Hnone. reflexivity.
  - intros u Hu Hupd.
    exists (set_db_users
              (map (fun v => if String.eqb (user_id v) (user_id u)
                             then with_pinHash (bcrypt_hash rt tempPin) v else v)
                   (db_users d)) d).
    split; [| split; [| split; [| split]]].
    + unfold forgot_pin_route, updatePin, update_users, getUserByEmail, qtry, qbind,
        qret, runtime, query.
      rewrite Hsel. fold found. rewrite Hu. cbv beta. fold tempPin. rewrite Hupd.
      destruct (eq_text (NODE_ENV rt) "production"); reflexivity.
    + reflexivity.
    + reflexivity.
    + reflexivity.
    + intros rt2 session Hsel2 Hget Hok. cbn [db_users set_db_users].
      destruct (first_row_filter_in _ _ _ Hu) as [Hin Hmail].
      assert (Hfirst : exists v,
                first_row (filter (fun v => String.eqb (user_id v) (user_id u)) (db_users d))
                = Some v).
      { destruct (filter (fun v => String.eqb (user_id v) (user_id u)) (db_users d))
          as [| v l] eqn:Ef.
        - exfalso.
          assert (Hf : In u (filter (fun v => String.eqb (user_id v) (user_id u))
                               (db_users d))).
          { apply filter_In. split; [exact Hin | apply String.eqb_refl]. }
          rewrite Ef in Hf. exact Hf.
        - exists v. reflexivity. }
      destruct Hfirst as (v & Hv).
      set (d1 := set_db_users
                   (map (fun v => if String.eqb (user_id v) (user_id u)
                                  then with_pinHash (bcrypt_hash rt tempPin) v else v)
                        (db_users d)) d).
      assert (Hval : validatePin (user_id u) tempPin rt2 d1
                     = (Ok (bcrypt_compare rt2 tempPin (bcrypt_hash rt tempPin)), d1)).
      { apply (validatePin_after_update rt2 d d1 (user_id u) _ tempPin v);
          [exact Hv | reflexivity | exact Hget]. }
      unfold login_route, getUserByEmail, qtry, qbind, qret, query.
      rewrite Hsel2. unfold d1 at 1. cbn [db_users set_db_users].
      rewrite (filter_map_preserved (fun u0 => eq_text (email u0) email_)).
      2: { intros x. destruct (String.eqb (user_id x) (user_id u)); reflexivity. }
      rewrite first_row_map. fold found. rewrite Hu. cbn [option_map].
      rewrite String.eqb_refl. cbn [user_id with_pinHash].
      fold d1. rewrite Hval.
      rewrite Hok. reflexivity.
Qed.

(** ** The storage and route properties at the shop *)

Lemma accepts_all_rt0 : accepts_all Shop.rt0.
Proof. intros st. reflexivity. Defined.

Lemma shop_ids_distinct : NoDup (map customer_id (db_customers Shop.shop)).
Proof.
  simpl. repeat constructor; simpl; intros H;
    repeat (destruct H as [H | H]; [discriminate |]); exact H.
Defined.

Lemma createTransaction_finds_or_creates_witness :
  exists c,
    tx_customerId Shop.sale_row = Some (customer_id c) /\ c = Shop.kwame /\
    db_customers Shop.after_sale = db_customers Shop.shop.
Proof.
  destruct (createTransaction_finds_or_creates Shop.rt0 Shop.shop
              (Shop.sale " 0244123456 ") "u-1" Shop.sale_row Shop.after_sale eq_refl)
    as (c & Hid & _ & _ & _ & _ & _ & Hcase & _).
  exists c. split; [exact Hid |]. exact Hcase.
Defined.

Lemma createTransaction_reuses_customer_witness :
  db_customers Shop.after_second = db_customers Shop.after_new /\
  tx_customerId Shop.second_row = tx_customerId Shop.new_row.
Proof.
  destruct (createTransaction_reuses_customer Shop.rt0 (Shop.later 1000) Shop.shop
              Shop.after_new Shop.after_second (Shop.sale "0555000111")
              (Shop.sale "0555000111 ") "u-1" Shop.new_row Shop.second_row
              eq_refl eq_refl eq_refl eq_refl)
    as (Hc & Hid & _).
  split; [exact Hc | exact Hid].
Defined.

Lemma migration_adopts_orphans_witness :
  exists d',
    migrateOrphanedCustomers Shop.rt0 Shop.shop = (Ok tt, d') /\
    db_customers d'
    = [Shop.kwame; with_customer_userId "u-2" Shop.ama; Shop.kofi].
Proof.
  destruct (migration_adopts_orphans Shop.rt0 Shop.shop accepts_all_rt0 shop_ids_distinct)
    as (d' & Hrun & Hc & _).
  exists d'. split; [exact Hrun | exact Hc].
Defined.

Lemma migration_keeps_owners_witness :
  db_transactions (snd (migrateOrphanedCustomers Shop.read_only_customers Shop.shop))
  = db_transactions Shop.shop /\
  db_users (snd (migrateOrphanedCustomers Shop.read_only_customers Shop.shop))
  = db_users Shop.shop.
Proof.
  exact (proj2 (proj2 (proj2 (migration_keeps_owners Shop.read_only_customers Shop.shop
                                shop_ids_distinct)))).
Defined.

Lemma header_identifies_user_witness :
  get_customer_route None (Some "u-1") "1" Shop.rt0 Shop.shop
  = get_customer_route (Some "u-1") None "1" Shop.rt0 Shop.shop.
Proof.
  apply (proj1 (proj1 (header_identifies_user (get_customer_handler "1") Shop.rt0
                         Shop.shop (fun _ => ret (json 200 NoContent)) Demo.env0
                         Cases.local_start) "u-1" ltac:(discriminate))).
Defined.

Lemma delete_checks_no_owner_witness :
  exists d',
    delete_transaction_route None (Some "u-1") "1" Shop.rt0 Shop.shop
    = (Ok (Some "u-1", json 204 NoContent), d') /\
    db_transactions d' = [Shop.sold 2 3 "u-2"].
Proof.
  destruct (delete_checks_no_owner Shop.rt0 Shop.shop None (Some "u-1") "u-1" "1" 1
              eq_refl eq_refl eq_refl)
    as (d' & Hrun & Ht & _).
  exists d'. split; [exact Hrun | exact Ht].
Defined.

Lemma get_customer_checks_owner_witness :
  get_customer_route None (Some "u-1") "3" Shop.rt0 Shop.shop
  = (Ok (Some "u-1", json 404 (Message "Customer not found")), Shop.shop).
Proof.
  apply (proj1 (proj2 (get_customer_checks_owner Shop.rt0 Shop.shop None (Some "u-1") "3"))
           "u-1" 3 eq_refl eq_refl eq_refl).
  discriminate.
Defined.

Lemma business_name_cooldown_witness :
  exists m,
    update_business_name_handler "Again" "u-1" (Shop.later 600000) Shop.renamed
    = (Ok (json 400 (Message ("Please wait " ++ show_number m
                              ++ " minutes before changing business name again."))),
       Shop.renamed) /\
    60000 * (m - 1) < 1200000 <= 60000 * m.
Proof.
  destruct (proj1 (proj2 (business_name_cooldown Shop.rt0 (Shop.later 600000) Shop.shop
                            Shop.renamed "u-1" "MoMo Hub" "Again"
                            (Some Shop.renamed_user) eq_refl eq_refl eq_refl))
              ltac:(vm_compute; reflexivity))
    as (m & Hrun & Hm & _).
  exists m. split; [exact Hrun | exact Hm].
Defined.

Lemma setup_then_login_witness :
  login_route None "new@example.com" "4321" (Shop.later 5) Shop.after_setup
  = (Ok (Some "u-3", json 200 (UserJson (Some Shop.newcomer_row))), Shop.after_setup).
Proof.
  destruct (setup_then_login Shop.rt0 (Shop.later 5) Shop.shop Shop.after_setup None None
              Shop.newcomer "new@example.com" (Some "u-3")
              (json 201 (UserJson (Some Shop.newcomer_row)))
              eq_refl eq_refl eq_refl ltac:(discriminate))
    as (_ & _ & _ & Hlogin).
  - intros u [<- | [<- | []]]; discriminate.
  - reflexivity.
  - reflexivity.
  - exact (Hlogin "4321").
Defined.


(** A request with the header of owner A: the create route answers 200
    with the result of the backup, and the list route 200 with the
    records. *)
Lemma backup_routes_answer_witness :
  backup_create_route None (Some "A") Demo.env0 Cases.local_start
  = (Ok (Some "A", json 200 (BackupJson Cases.ok_local)), Cases.local_after_backup) /\
  fst (backup_list_route None (Some "A") Demo.env0 Demo.three_local)
  = Ok (Some "A",
        json 200 (BackupsJson
          [ {| id := "b3.zip"; name := "b3.zip"; rsize := 1; created_at := 30 |};
            {| id := "b2.zip"; name := "b2.zip"; rsize := 2; created_at := 20 |};
            {| id := "b1.zip"; name := "b1.zip"; rsize := 0; created_at := 10 |} ])) /\
  backup_restore_route None None "x" Demo.env0 Cases.local_start
  = (Ok (None, json 401 (Message "Unauthorized")), Cases.local_start).
Proof.
  split; [| split].
  - rewrite (proj1 (proj2 (backup_routes_answer Demo.env0 Cases.local_start None
                            (Some "A") "x") "A" eq_refl)).
    vm_compute. reflexivity.
  - rewrite (proj1 (proj2 (proj2 (proj2 (backup_routes_answer Demo.env0 Demo.three_local
                                          None (Some "A") "x") "A" eq_refl)))).
    vm_compute. reflexivity.
  - apply (proj1 (backup_routes_answer Demo.env0 Cases.local_start None None "x")
             eq_refl eq_refl).
Defined.

Lemma pin_change_takes_current_pin_witness :
  update_pin_handler "0000" "9876" "u-1" Shop.rt0 Shop.shop
  = (Ok (json 400 (Message "UPDATE_PIN_INCORRECT_CURRENT")), Shop.shop).
Proof.
  apply (proj1 (pin_change_takes_current_pin Shop.rt0 Shop.shop "u-1" "0000" "9876"
                  (Shop.user "u-1" "MoMo Vendor") eq_refl eq_refl eq_refl eq_refl)).
  reflexivity.
Defined.

Lemma forgot_pin_takes_no_login_witness :
  exists d1,
    forgot_pin_route "MoMo Vendor@example.com" Shop.rt0 Shop.shop
    = (Ok (json 200 (ResetJson
             "If an account exists with this email, a reset code has been sent."
             "4711")), d1) /\
    login_route None "MoMo Vendor@example.com" "4711" (Shop.later 5) d1
    = (Ok (Some "u-1",
           json 200 (UserJson (Some (with_pinHash (Shop.salted "4711")
                                       (Shop.user "u-1" "MoMo Vendor"))))), d1).
Proof.
  destruct (proj2 (forgot_pin_takes_no_login Shop.rt0 Shop.shop "MoMo Vendor@example.com"
                     eq_refl) (Shop.user "u-1" "MoMo Vendor") eq_refl eq_refl)
    as (d1 & Hrun & _ & _ & _ & Hlogin).
  exists d1. split; [exact Hrun |].
  exact (Hlogin (Shop.later 5) None eq_refl eq_refl eq_refl).
Defined.
